(** * Milvus load-testing harness: a shallow embedding of [main.go]

    The development follows the program text of [main.go]:
    - Go's [int], [int64] and [time.Duration] are 64-bit two's-complement
      integers, modelled as [Z] with the wrap-around written out;
    - Go's [float64] is IEEE-754 binary64, modelled by the executable
      specification [SpecFloat] of the standard library at precision 53 and
      maximal exponent 1024 (round to nearest, ties to even);
    - the external Milvus client and the clock are an explicit environment:
      every call result and every clock reading is an input of the model;
    - goroutines are worker state machines over a shared store, interleaved
      by an arbitrary schedule. *)

From Stdlib Require Import ZArith List Lia Bool String Ascii Sorted.
From Stdlib Require Import SpecFloat.
From stdpp Require Import base list.

Open Scope Z_scope.

(** ** Machine integers *)

Definition int64_min : Z := - 2 ^ 63.
Definition int64_max : Z := 2 ^ 63 - 1.

(** The value a 64-bit signed register holds after an arithmetic result [z]. *)
Definition wrap64 (z : Z) : Z := (z + 2 ^ 63) mod 2 ^ 64 - 2 ^ 63.

Definition in_int64 (z : Z) : Prop := int64_min <= z <= int64_max.

(** [func max(a, b int) int] *)
Definition max (a b : Z) : Z := if a >? b then a else b.

(** ** IEEE-754 binary64 *)

Definition float64 : Type := spec_float.

(** [float64(z)] for an integer [z]: correctly rounded conversion. *)
Definition float64_of_int (z : Z) : float64 := binary_normalize 53 1024 z 0 false.

Definition fadd : float64 -> float64 -> float64 := SFadd 53 1024.
Definition fmul : float64 -> float64 -> float64 := SFmul 53 1024.
Definition fdiv : float64 -> float64 -> float64 := SFdiv 53 1024.

(** [x > y] on floats; false as soon as one side is NaN. *)
Definition fgt (x y : float64) : bool := SFltb y x.

(** The constant [1.0]. *)
Definition f_one : float64 := S754_finite false 4503599627370496 (-52).

(** [int(f)]: truncation toward zero.  Go leaves the result of converting a
    NaN, an infinity or an out-of-range value to the implementation; on
    amd64 the conversion instruction yields the most negative integer. *)
Definition int_of_float64 (f : float64) : Z :=
  match f with
  | S754_zero _ => 0
  | S754_finite s m e =>
      let z := cond_Zopp s (Z.shiftl (Zpos m) e) in
      if (int64_min <=? z) && (z <=? int64_max) then z else int64_min
  | _ => int64_min
  end.

(** ** The ramp-up scheduler *)

(** [calculateDynamicLoad(elapsed, totalDuration, maxWorkers, maxBatchSize)].
    Durations are nanosecond counts; [/] on Go integers truncates toward
    zero ([Z.quot]). *)
Definition calculateDynamicLoad
    (elapsed totalDuration maxWorkers maxBatchSize : Z) : Z * Z :=
  if elapsed >=? totalDuration then (maxWorkers, maxBatchSize)
  else
    let progress := fdiv (float64_of_int elapsed) (float64_of_int totalDuration) in
    let progress := if fgt progress f_one then f_one else progress in
    let startWorkers := max 1 (Z.quot maxWorkers 10) in
    let startBatchSize := max 100 (Z.quot maxBatchSize 10) in
    let currentWorkers :=
      wrap64 (startWorkers +
              int_of_float64
                (fmul (float64_of_int (wrap64 (maxWorkers - startWorkers))) progress)) in
    let currentBatchSize :=
      wrap64 (startBatchSize +
              int_of_float64
                (fmul (float64_of_int (wrap64 (maxBatchSize - startBatchSize))) progress)) in
    (currentWorkers, currentBatchSize).

(** ** Pressure level settings *)

Record PressureProfile : Type := {
  pressureLevel : string;
  numConcurrentGoroutines : Z;
  batchSize : Z
}.

(** The [switch *pressure] of [main]: Go compares strings byte for byte. *)
Definition pressureSettings (pressure : string) : PressureProfile :=
  if String.eqb pressure "low" then
    {| pressureLevel := "LOW"; numConcurrentGoroutines := 5; batchSize := 500 |}
  else if String.eqb pressure "medium" then
    {| pressureLevel := "MEDIUM"; numConcurrentGoroutines := 20; batchSize := 2000 |}
  else if String.eqb pressure "high" then
    {| pressureLevel := "HIGH"; numConcurrentGoroutines := 50; batchSize := 5000 |}
  else if String.eqb pressure "extreme" then
    {| pressureLevel := "EXTREME"; numConcurrentGoroutines := 100; batchSize := 10000 |}
  else
    {| pressureLevel := "MEDIUM (default)"; numConcurrentGoroutines := 20;
       batchSize := 2000 |}.

(** ASCII lower-casing, used only to state what "any casing of a level
    name" means; the program itself never folds case. *)
Definition lower_ascii (c : ascii) : ascii :=
  let n := nat_of_ascii c in
  if ((65 <=? n) && (n <=? 90))%nat then ascii_of_nat (n + 32) else c.

Fixpoint to_lower (s : string) : string :=
  match s with
  | EmptyString => EmptyString
  | String c rest => String (lower_ascii c) (to_lower rest)
  end.

(** ** Durations and throughput *)

Definition Second : Z := 1000000000.

(** [time.Duration.Seconds] of Go's standard library:
    [sec := d / Second; nsec := d % Second;
     return float64(sec) + float64(nsec)/1e9]. *)
Definition Seconds (d : Z) : float64 :=
  fadd (float64_of_int (Z.quot d Second))
       (fdiv (float64_of_int (Z.rem d Second)) (float64_of_int 1000000000)).

(** [float64(total) / elapsed.Seconds()], the expression behind
    [insertsPerSec] and [searchesPerSec]. *)
Definition throughput (totalOps elapsed : Z) : float64 :=
  fdiv (float64_of_int totalOps) (Seconds elapsed).

(** [searchDuration := *duration / 4]. *)
Definition searchDuration (duration : Z) : Z := Z.quot duration 4.

(** ** Workers of a phase

    A phase starts [numConcurrentGoroutines] goroutines that share one
    counter behind a mutex and the process-wide logger.  One pass through a
    worker's loop touches the shared store at most once (either the locked
    addition or the log line), so a pass is the atomic step of the model.
    Vector generation and the progress lines on standard output do not
    influence the store and are left out. *)

Inductive OperationKind : Type := Insert | Search.

(** What the environment supplies to one pass through the loop. *)
Record Iteration : Type := {
  it_now : Z;     (** [time.Now()] at the loop test, in ns since the phase began *)
  it_since : Z;   (** [time.Since(insertionStartTime)] read by the ramp-up branch *)
  it_err : bool   (** whether [Insert] / [Search] returned an error *)
}.

Inductive LogEntry : Type :=
  | InsertFailed (goroutineID : nat) (batchCount : Z)
  | SearchFailed (goroutineID : nat) (searchCount : Z).

(** The store shared by the workers of a phase: [totalVectorsInserted] or
    [totalSearchesPerformed], and what [log.Printf] has written. *)
Record Shared : Type := {
  totalOps : Z;
  errlog : list LogEntry
}.

Record PhaseSpec : Type := {
  operationKind : OperationKind;
  phaseDuration : Z;
  phaseRampUp : bool;
  phaseWorkers : Z;
  phaseBatchSize : Z
}.

(** [currentBatchSize] of the insertion loop; a search counts for one. *)
Definition unitSize (ph : PhaseSpec) (it : Iteration) : Z :=
  match operationKind ph with
  | Insert =>
      if phaseRampUp ph then
        snd (calculateDynamicLoad (it_since it) (phaseDuration ph)
                                  (phaseWorkers ph) (phaseBatchSize ph))
      else phaseBatchSize ph
  | Search => 1
  end.

Definition failure (ph : PhaseSpec) (goroutineID : nat) (count : Z) : LogEntry :=
  match operationKind ph with
  | Insert => InsertFailed goroutineID count
  | Search => SearchFailed goroutineID count
  end.

(** A goroutine: still looping with its local [batchCount] / [searchCount]
    and the clock readings and call results yet to come, returned, or
    stopped by the run-time panic of [make] on a negative length. *)
Inductive Worker : Type :=
  | Running (count : Z) (rest : list Iteration)
  | Finished (count : Z)
  | Crashed.

(** One pass through [for time.Now().Before(testEndTime) { ... }]. *)
Definition worker_step (ph : PhaseSpec) (goroutineID : nat)
    (sh : Shared) (w : Worker) : option (Shared * Worker) :=
  match w with
  | Running count (it :: rest) =>
      if it_now it <? phaseDuration ph then
        let size := unitSize ph it in
        if size <? 0 then Some (sh, Crashed)
        else if it_err it then
          Some ({| totalOps := totalOps sh;
                   errlog := errlog sh ++ [failure ph goroutineID count] |},
                Running count rest)
        else
          Some ({| totalOps := wrap64 (totalOps sh + size);
                   errlog := errlog sh |},
                Running (wrap64 (count + 1)) rest)
      else Some (sh, Finished count)
  | _ => None
  end.

(** The scheduler: [sched] names, step after step, the goroutine that runs
    next.  Naming a goroutine that cannot move is a stutter. *)
Fixpoint run_schedule (ph : PhaseSpec) (sched : list nat)
    (sh : Shared) (ws : list Worker) : Shared * list Worker :=
  match sched with
  | [] => (sh, ws)
  | i :: sched' =>
      match ws !! i with
      | Some w =>
          match worker_step ph i sh w with
          | Some (sh', w') => run_schedule ph sched' sh' (<[i := w']> ws)
          | None => run_schedule ph sched' sh ws
          end
      | None => run_schedule ph sched' sh ws
      end
  end.

(** [for i := 0; i < numConcurrentGoroutines; i++ { go func(i) ... }] *)
Definition spawn (ph : PhaseSpec) (trace : nat -> list Iteration) : list Worker :=
  map (fun i => Running 0 (trace i)) (seq 0 (Z.to_nat (phaseWorkers ph))).

(** [wg.Wait()] returns only when every goroutine has returned, so after the
    interleaving [sched] each goroutine still gets to run until it is done:
    goroutine [i] needs at most one step per reading left in its trace. *)
Definition drain (ph : PhaseSpec) (trace : nat -> list Iteration) : list nat :=
  flat_map (fun i => replicate (S (length (trace i))) i)
           (seq 0 (Z.to_nat (phaseWorkers ph))).

Inductive PhaseResult : Type :=
  | Joined (sh : Shared)   (** every goroutine returned *)
  | Panic                  (** a goroutine panicked: the process dies *)
  | Waiting.               (** some goroutine never saw the deadline pass *)

Definition is_crashed (w : Worker) : bool :=
  match w with Crashed => true | _ => false end.

Definition is_finished (w : Worker) : bool :=
  match w with Finished _ => true | _ => false end.

Definition run_phase (ph : PhaseSpec) (trace : nat -> list Iteration)
    (sched : list nat) : PhaseResult :=
  let '(sh, ws) :=
    run_schedule ph (sched ++ drain ph trace)
                 {| totalOps := 0; errlog := [] |} (spawn ph trace) in
  if existsb is_crashed ws then Panic
  else if forallb is_finished ws then Joined sh
  else Waiting.

(** The passes a goroutine makes: the readings before the first one at or
    past the deadline. *)
Fixpoint passes (ph : PhaseSpec) (tr : list Iteration) : list Iteration :=
  match tr with
  | [] => []
  | it :: rest => if it_now it <? phaseDuration ph then it :: passes ph rest else []
  end.

(** The clock of the goroutine eventually shows the deadline as passed. *)
Definition sees_deadline (ph : PhaseSpec) (tr : list Iteration) : bool :=
  existsb (fun it => negb (it_now it <? phaseDuration ph)) tr.

(** Sum of the sizes of the passes whose external call succeeded. *)
Definition completed (ph : PhaseSpec) (tr : list Iteration) : Z :=
  fold_right (fun it acc => (if it_err it then 0 else unitSize ph it) + acc) 0
             (passes ph tr).

Definition completed_all (ph : PhaseSpec) (trace : nat -> list Iteration) : Z :=
  fold_right (fun i acc => completed ph (trace i) + acc) 0
             (seq 0 (Z.to_nat (phaseWorkers ph))).

(** ** The orchestrator *)

Record Config : Type := {
  milvusAddr : string;
  duration : Z;
  pressure : string;
  rampUp : bool;
  realTime : bool;
  showHelp : bool
}.

(** Results of the client calls and the clock readings of one run. *)
Record Env : Type := {
  connect_err : bool;
  hasCollection_err : bool;
  hasCollection : bool;
  dropExisting_err : bool;
  createCollection_err : bool;
  insert_trace : nat -> list Iteration;
  insert_schedule : list nat;
  insertionTime : Z;
  flush_err : bool;
  createIndex_err : bool;
  loadCollection_err : bool;
  search_trace : nat -> list Iteration;
  search_schedule : list nat;
  searchTime : Z;
  cleanup_err : bool
}.

(** The steps of [main], in program order. *)
Inductive State : Type :=
  | Connect | EnsureCleanCollection | CreateCollection | InsertPhase | Flush
  | CreateIndex | LoadCollection | SearchPhase | Cleanup | Report.

Record TestReport : Type := {
  rep_pressureLevel : string;
  rep_workers : Z;
  rep_batchSize : Z;
  rep_vectorsInserted : Z;
  rep_searchesPerformed : Z;
  rep_insertionTime : Z;
  rep_insertsPerSec : float64;
  rep_searchTime : Z;
  rep_searchesPerSec : float64
}.

Inductive Outcome : Type :=
  | HelpShown
  | Fatal (msg : string)        (** [log.Fatalf]: message, then [os.Exit(1)] *)
  | Panicked
  | NeverJoined
  | Reported (r : TestReport).

Definition exit_status (o : Outcome) : option Z :=
  match o with
  | HelpShown => Some 0
  | Fatal _ => Some 1
  | Panicked => Some 2
  | NeverJoined => None
  | Reported _ => Some 0
  end.

(** Straight-line code that records the steps it enters and may stop early. *)
Inductive Result (A : Type) : Type :=
  | Continue (a : A)
  | Stop (o : Outcome).
Arguments Continue {A} a.
Arguments Stop {A} o.

Definition Orch (A : Type) : Type := list State * Result A.

Definition oret {A} (a : A) : Orch A := ([], Continue a).

Definition obind {A B} (m : Orch A) (k : A -> Orch B) : Orch B :=
  match m with
  | (tr, Continue a) => let '(tr', r) := k a in (tr ++ tr', r)
  | (tr, Stop o) => (tr, Stop o)
  end.

Notation "'let*' x ':=' m 'in' k" := (obind m (fun x => k))
  (at level 10, x name, m at level 99, k at level 200).
Notation "m ';;;' k" := (obind m (fun _ => k))
  (at level 100, k at level 200, right associativity).

Definition enter (s : State) : Orch unit := ([s], Continue tt).

Definition stop {A} (o : Outcome) : Orch A := ([], Stop o).

(** [if err != nil { log.Fatalf(msg, err) }] *)
Definition fatal_if (err : bool) (msg : string) : Orch unit :=
  if err then stop (Fatal msg) else oret tt.

(** [wg.Wait()] on a phase. *)
Definition wait (r : PhaseResult) : Orch Shared :=
  match r with
  | Joined sh => oret sh
  | Panic => stop Panicked
  | Waiting => stop NeverJoined
  end.

Definition insertPhase (cfg : Config) (p : PressureProfile) : PhaseSpec :=
  {| operationKind := Insert;
     phaseDuration := duration cfg;
     phaseRampUp := rampUp cfg;
     phaseWorkers := numConcurrentGoroutines p;
     phaseBatchSize := batchSize p |}.

Definition searchPhase (cfg : Config) (p : PressureProfile) : PhaseSpec :=
  {| operationKind := Search;
     phaseDuration := searchDuration (duration cfg);
     phaseRampUp := false;
     phaseWorkers := numConcurrentGoroutines p;
     phaseBatchSize := batchSize p |}.

Definition orchestrate (cfg : Config) (env : Env) : Orch TestReport :=
  let p := pressureSettings (pressure cfg) in
  enter Connect ;;;
  fatal_if (connect_err env) "Failed to connect to Milvus" ;;;
  enter EnsureCleanCollection ;;;
  fatal_if (hasCollection_err env) "Failed to check if collection exists" ;;;
  fatal_if (hasCollection env && dropExisting_err env) "Failed to drop collection" ;;;
  enter CreateCollection ;;;
  fatal_if (createCollection_err env) "Failed to create collection" ;;;
  enter InsertPhase ;;;
  let* ins := wait (run_phase (insertPhase cfg p) (insert_trace env)
                               (insert_schedule env)) in
  let insertsPerSec := throughput (totalOps ins) (insertionTime env) in
  enter Flush ;;;
  fatal_if (flush_err env) "Failed to flush collection" ;;;
  enter CreateIndex ;;;
  fatal_if (createIndex_err env) "Failed to create index" ;;;
  enter LoadCollection ;;;
  fatal_if (loadCollection_err env) "Failed to load collection" ;;;
  enter SearchPhase ;;;
  let* srch := wait (run_phase (searchPhase cfg p) (search_trace env)
                                (search_schedule env)) in
  let searchesPerSec := throughput (totalOps srch) (searchTime env) in
  enter Cleanup ;;;
  fatal_if (cleanup_err env) "Failed to drop collection" ;;;
  enter Report ;;;
  oret {| rep_pressureLevel := pressureLevel p;
          rep_workers := numConcurrentGoroutines p;
          rep_batchSize := batchSize p;
          rep_vectorsInserted := totalOps ins;
          rep_searchesPerformed := totalOps srch;
          rep_insertionTime := insertionTime env;
          rep_insertsPerSec := insertsPerSec;
          rep_searchTime := searchTime env;
          rep_searchesPerSec := searchesPerSec |}.

Record Run : Type := {
  states : list State;
  outcome : Outcome
}.

(** [func main()] *)
Definition main (cfg : Config) (env : Env) : Run :=
  if showHelp cfg then {| states := []; outcome := HelpShown |}
  else
    match orchestrate cfg env with
    | (tr, Continue r) => {| states := tr; outcome := Reported r |}
    | (tr, Stop o) => {| states := tr; outcome := o |}
    end.

(** Whether the client call made in a step returns an error. *)
Definition step_fails (env : Env) (s : State) : bool :=
  match s with
  | Connect => connect_err env
  | EnsureCleanCollection =>
      hasCollection_err env || (hasCollection env && dropExisting_err env)
  | CreateCollection => createCollection_err env
  | Flush => flush_err env
  | CreateIndex => createIndex_err env
  | LoadCollection => loadCollection_err env
  | Cleanup => cleanup_err env
  | InsertPhase | SearchPhase | Report => false
  end.

(** ** Reference rounding

    The operations of [SpecFloat] shift, divide and round bit by bit.  The
    definitions below say what they compute on the values the ramp meets:
    non-negative numbers in the normal range of binary64. *)

(** The integer nearest to the rational [a / b], ties going to the even
    one ([0 <= a], [0 < b]). *)
Definition rnd_int (a b : Z) : Z :=
  let q := a / b in
  match 2 * (a mod b) ?= b with
  | Lt => q
  | Eq => if Z.even q then q else q + 1
  | Gt => q + 1
  end.

(** The float with significand [m] in [[2^52, 2^53]] and exponent [e]; a
    significand that rounding carried to [2^53] is renormalised. *)
Definition canon (s : bool) (m e : Z) : float64 :=
  if m =? 2 ^ 53 then S754_finite s (Z.to_pos (2 ^ 52)) (e + 1)
  else S754_finite s (Z.to_pos m) e.

(** How a rounding location describes the fraction left by [p / q]. *)
Definition loc_of (p q : Z) : location :=
  if p mod q =? 0 then loc_Exact else loc_Inexact (2 * (p mod q) ?= q).

(** A shift record holds [p / q] together with its round and sticky bits. *)
Definition rec_ok (p q : Z) (r : shr_record) : Prop :=
  0 <= shr_m r /\
  2 * shr_m r + Z.b2z (shr_r r) = (2 * p) / q /\
  shr_s r = negb ((2 * p) mod q =? 0).

(** Non-negative floats in normal form, with the exponent in [[lo, hi]]. *)
Definition normal (lo hi : Z) (f : float64) : Prop :=
  match f with
  | S754_zero s => s = false
  | S754_finite s m e => s = false /\ 2 ^ 52 <= Zpos m < 2 ^ 53 /\ lo <= e <= hi
  | _ => False
  end.

(** The order of the values of two normal floats. *)
Definition fle (f1 f2 : float64) : Prop :=
  match f1, f2 with
  | S754_zero _, (S754_zero _ | S754_finite false _ _) => True
  | S754_finite false m1 e1, S754_finite false m2 e2 =>
      e1 < e2 \/ (e1 = e2 /\ Zpos m1 <= Zpos m2)
  | _, _ => False
  end.

(** The two steps of [calculateDynamicLoad] past the deadline test, named
    so that they can be studied apart: the clamped [progress], and one
    interpolated component. *)
Definition progress_of (elapsed totalDuration : Z) : float64 :=
  let progress := fdiv (float64_of_int elapsed) (float64_of_int totalDuration) in
  if fgt progress f_one then f_one else progress.

Definition ramp (start maxv : Z) (progress : float64) : Z :=
  wrap64 (start +
          int_of_float64 (fmul (float64_of_int (wrap64 (maxv - start))) progress)).

(** The integer part of a non-negative float. *)
Definition fvalue (f : float64) : Z :=
  match f with
  | S754_finite false m e => Z.shiftl (Zpos m) e
  | _ => 0
  end.

(** ** Accounting of a phase *)

(** What a goroutine is still going to add to the counter. *)
Definition pending (ph : PhaseSpec) (w : Worker) : Z :=
  match w with
  | Running _ rest => completed ph rest
  | _ => 0
  end.

Definition pending_all (ph : PhaseSpec) (ws : list Worker) : Z :=
  fold_right (fun w acc => pending ph w + acc) 0 ws.

(** Number of passes of a goroutine whose external call succeeded. *)
Definition successes (ph : PhaseSpec) (tr : list Iteration) : Z :=
  Z.of_nat (length (List.filter (fun it => negb (it_err it)) (passes ph tr))).

(** A goroutine that is neither stuck nor about to panic: its clock will
    show the deadline and no size it computes is negative. *)
Definition live (ph : PhaseSpec) (bound : nat) (w : Worker) : Prop :=
  match w with
  | Running _ rest =>
      sees_deadline ph rest = true /\ (length rest <= bound)%nat /\
      Forall (fun it => 0 <= unitSize ph it) rest
  | Finished _ => True
  | Crashed => False
  end.

Definition live_pool (ph : PhaseSpec) (trace : nat -> list Iteration)
    (ws : list Worker) : Prop :=
  forall i w, ws !! i = Some w -> live ph (length (trace i)) w.

Definition finished_at (ws : list Worker) (i : nat) : Prop :=
  exists count, ws !! i = Some (Finished count).

(** The steps whose failure ends the run, and the steps of a complete run. *)
Definition fatal_steps : list State :=
  [Connect; CreateCollection; Flush; CreateIndex; LoadCollection; Cleanup].

Definition all_states : list State :=
  [Connect; EnsureCleanCollection; CreateCollection; InsertPhase; Flush;
   CreateIndex; LoadCollection; SearchPhase; Cleanup; Report].

(** ** The fixed-count copies of the program

    The repository keeps two older copies of [main.go] that insert a
    fixed number of batches per goroutine instead of running against a
    deadline.  They hold no counter: the total they print is computed
    before the first insert, and a goroutine returns at its first failed
    insert. *)

(** [totalInserts := numConcurrentGoroutines * numBatchesPerGoroutine * batchSize] *)
Definition totalInserts (workers batches size : Z) : Z :=
  wrap64 (wrap64 (workers * batches) * size).

(** [for j := 0; j < numBatchesPerGoroutine; j++ { ...
       if err != nil { log.Printf(...); return } }]:
    the number of batches a goroutine inserts when [err j] tells whether
    its [j]-th call fails. *)
Fixpoint insertedBatches (err : nat -> bool) (j numBatches : nat) : nat :=
  match numBatches with
  | O => O
  | S n => if err j then O else S (insertedBatches err (S j) n)
  end.

(** ** Sample runs *)

Definition sample_config : Config :=
  {| milvusAddr := "localhost:19530"; duration := 10; pressure := "low";
     rampUp := false; realTime := false; showHelp := false |}.

(** Two passes before the deadline, the second one failing. *)
Definition sample_trace (i : nat) : list Iteration :=
  [ {| it_now := 0; it_since := 1; it_err := false |};
    {| it_now := 1; it_since := 2; it_err := true |};
    {| it_now := 12; it_since := 12; it_err := false |} ].

Definition sample_env : Env :=
  {| connect_err := false; hasCollection_err := false; hasCollection := true;
     dropExisting_err := false; createCollection_err := false;
     insert_trace := sample_trace; insert_schedule := [3; 0; 0; 1; 4; 2]%nat;
     insertionTime := 13; flush_err := false; createIndex_err := false;
     loadCollection_err := false;
     search_trace := sample_trace; search_schedule := [1; 0]%nat;
     searchTime := 3; cleanup_err := false |}.

Definition sample_env_index_fails : Env :=
  {| connect_err := false; hasCollection_err := false; hasCollection := true;
     dropExisting_err := false; createCollection_err := false;
     insert_trace := sample_trace; insert_schedule := [3; 0; 0; 1; 4; 2]%nat;
     insertionTime := 13; flush_err := false; createIndex_err := true;
     loadCollection_err := false;
     search_trace := sample_trace; search_schedule := [1; 0]%nat;
     searchTime := 3; cleanup_err := false |}.

(** ** The log, the local counts and the pool of a phase *)

(** Number of passes of a goroutine whose external call failed. *)
Definition failures (ph : PhaseSpec) (tr : list Iteration) : Z :=
  Z.of_nat (length (List.filter it_err (passes ph tr))).

Definition failures_all (ph : PhaseSpec) (trace : nat -> list Iteration) : Z :=
  fold_right (fun i acc => failures ph (trace i) + acc) 0
             (seq 0 (Z.to_nat (phaseWorkers ph))).

(** The lines a goroutine is still going to write to the log. *)
Definition unlogged (ph : PhaseSpec) (w : Worker) : Z :=
  match w with
  | Running _ rest => failures ph rest
  | _ => 0
  end.

Definition unlogged_all (ph : PhaseSpec) (ws : list Worker) : Z :=
  fold_right (fun w acc => unlogged ph w + acc) 0 ws.

(** A line of the log written by one of the first [n] goroutines. *)
Definition logged_by (ph : PhaseSpec) (n : nat) (e : LogEntry) : Prop :=
  exists i count, (i < n)%nat /\ e = failure ph i count.

(** A goroutine that is not going to panic. *)
Definition safe (ph : PhaseSpec) (w : Worker) : Prop :=
  match w with
  | Running _ rest => Forall (fun it => 0 <= unitSize ph it) rest
  | Finished _ => True
  | Crashed => False
  end.

(** A goroutine that is never going to return. *)
Definition stuck (ph : PhaseSpec) (w : Worker) : Prop :=
  match w with
  | Running _ rest => sees_deadline ph rest = false
  | Finished _ => False
  | Crashed => True
  end.

(** The local [batchCount] / [searchCount] of a goroutine agrees with the
    successes of its trace [tr], as 64-bit integers. *)
Definition counts_successes (ph : PhaseSpec) (tr : list Iteration)
    (w : Worker) : Prop :=
  match w with
  | Running count rest =>
      in_int64 count /\
      (count + successes ph rest) mod 2 ^ 64 = successes ph tr mod 2 ^ 64
  | Finished count =>
      in_int64 count /\ count mod 2 ^ 64 = successes ph tr mod 2 ^ 64
  | Crashed => True
  end.

(** The counter and the goroutines after the steps [sched] of a phase. *)
Definition counter_after (ph : PhaseSpec) (trace : nat -> list Iteration)
    (sched : list nat) : Z :=
  totalOps (fst (run_schedule ph sched {| totalOps := 0; errlog := [] |}
                              (spawn ph trace))).

Definition pool_after (ph : PhaseSpec) (trace : nat -> list Iteration)
    (sched : list nat) : list Worker :=
  snd (run_schedule ph sched {| totalOps := 0; errlog := [] |} (spawn ph trace)).

(** Number of successful passes of all the goroutines of a phase. *)
Definition successes_all (ph : PhaseSpec) (trace : nat -> list Iteration) : Z :=
  fold_right (fun i acc => successes ph (trace i) + acc) 0
             (seq 0 (Z.to_nat (phaseWorkers ph))).

(** Readings of [time.Since(insertionStartTime)] that do not run backwards. *)
Definition clock_order (a b : Iteration) : Prop := it_since a <= it_since b.

(** ** The search deadline, in the words of the specification *)

(** The searches a worker is to count when it loops until its clock shows
    [deadline]: the successful ones among the readings before the first
    one at or past the deadline. *)
Fixpoint searches_before (deadline : Z) (tr : list Iteration) : Z :=
  match tr with
  | [] => 0
  | it :: rest =>
      if it_now it <? deadline
      then (if it_err it then 0 else 1) + searches_before deadline rest
      else 0
  end.

Definition searches_before_all (deadline : Z) (workers : nat)
    (trace : nat -> list Iteration) : Z :=
  fold_right (fun i acc => searches_before deadline (trace i) + acc) 0
             (seq 0 workers).

(** ** The summary table *)

Definition embeddingDim : Z := 8.

(** [totalDataMB := float64(totalVectorsInserted*embeddingDim*4) / (1024 * 1024)] *)
Definition totalDataMB (totalVectorsInserted : Z) : float64 :=
  fdiv (float64_of_int (wrap64 (wrap64 (totalVectorsInserted * embeddingDim) * 4)))
       (float64_of_int (1024 * 1024)).

(** ** Settings of the fixed-count copies *)

(** The calls to [Insert] a goroutine of the fixed-count copies makes when
    [err j] tells whether its [j]-th call fails: the loop body runs until
    the count is reached or a call fails, the failing call included. *)
Fixpoint attemptedBatches (err : nat -> bool) (j numBatches : nat) : nat :=
  match numBatches with
  | O => O
  | S n => if err j then 1%nat else S (attemptedBatches err (S j) n)
  end.

Module FixedCount.

(** [--test], [--test-medium], [--test-high], [--test-very-high] *)
Record Flags : Type := {
  testNormal : bool;
  testMedium : bool;
  testHigh : bool;
  testVeryHigh : bool
}.

Record Settings : Type := {
  trafficLevel : string;
  numConcurrentGoroutines : Z;
  batchSize : Z;
  numBatchesPerGoroutine : Z
}.

(** [if *testMedium { ... } else if *testHigh { ... } else if *testVeryHigh
    { ... } else { ... }] *)
Definition settings (f : Flags) : Settings :=
  if testMedium f then
    {| trafficLevel := "MEDIUM"; numConcurrentGoroutines := 20;
       batchSize := 2000; numBatchesPerGoroutine := 20 |}
  else if testHigh f then
    {| trafficLevel := "HIGH"; numConcurrentGoroutines := 50;
       batchSize := 5000; numBatchesPerGoroutine := 20 |}
  else if testVeryHigh f then
    {| trafficLevel := "VERY HIGH"; numConcurrentGoroutines := 100;
       batchSize := 10000; numBatchesPerGoroutine := 20 |}
  else
    {| trafficLevel := if testNormal f then "NORMAL" else "NORMAL (default)";
       numConcurrentGoroutines := 10;
       batchSize := 1000; numBatchesPerGoroutine := 10 |}.

(** The total the program prints, computed before the first insert. *)
Definition plannedInserts (s : Settings) : Z :=
  totalInserts (numConcurrentGoroutines s) (numBatchesPerGoroutine s) (batchSize s).

(** The vectors the goroutines [ids] send when each is to insert
    [numBatches] batches of [size] vectors and [err i j] tells whether the
    [j]-th insert of goroutine [i] fails. *)
Definition sentBy (numBatches : nat) (size : Z) (err : nat -> nat -> bool)
    (ids : list nat) : Z :=
  fold_right
    (fun i acc => Z.of_nat (insertedBatches (err i) 0 numBatches) * size + acc)
    0 ids.

(** The vectors the server receives in a run. *)
Definition insertedVectors (s : Settings) (err : nat -> nat -> bool) : Z :=
  sentBy (Z.to_nat (numBatchesPerGoroutine s)) (batchSize s) err
         (seq 0 (Z.to_nat (numConcurrentGoroutines s))).

End FixedCount.

(** ** Further sample runs *)

(** The same results of the client calls, but for the call that drops a
    collection left by an earlier run. *)
Definition with_dropExisting_err (b : bool) (env : Env) : Env :=
  {| connect_err := connect_err env;
     hasCollection_err := hasCollection_err env;
     hasCollection := hasCollection env;
     dropExisting_err := b;
     createCollection_err := createCollection_err env;
     insert_trace := insert_trace env;
     insert_schedule := insert_schedule env;
     insertionTime := insertionTime env;
     flush_err := flush_err env;
     createIndex_err := createIndex_err env;
     loadCollection_err := loadCollection_err env;
     search_trace := search_trace env;
     search_schedule := search_schedule env;
     searchTime := searchTime env;
     cleanup_err := cleanup_err env |}.

(** A server that already holds the collection and refuses to drop it. *)
Definition sample_env_drop_fails : Env :=
  with_dropExisting_err true sample_env.

(** A run with [--duration 0s]. *)
Definition zero_config : Config :=
  {| milvusAddr := "localhost:19530"; duration := 0; pressure := "high";
     rampUp := true; realTime := false; showHelp := false |}.


(** A run of ten nanoseconds with [--ramp-up]. *)
Definition ramp_config : Config :=
  {| milvusAddr := "localhost:19530"; duration := 10; pressure := "high";
     rampUp := true; realTime := false; showHelp := false |}.

(** A run of eight nanoseconds: the search deadline is two. *)
Definition quarter_config : Config :=
  {| milvusAddr := "localhost:19530"; duration := 8; pressure := "low";
     rampUp := false; realTime := false; showHelp := false |}.

(** Clock readings at 0, 3 and 9 ns, every call succeeding. *)
Definition quarter_trace (i : nat) : list Iteration :=
  [ {| it_now := 0; it_since := 0; it_err := false |};
    {| it_now := 3; it_since := 3; it_err := false |};
    {| it_now := 9; it_since := 9; it_err := false |} ].

Definition quarter_env : Env :=
  {| connect_err := false; hasCollection_err := false; hasCollection := false;
     dropExisting_err := false; createCollection_err := false;
     insert_trace := quarter_trace; insert_schedule := [2; 0; 1]%nat;
     insertionTime := 9; flush_err := false; createIndex_err := false;
     loadCollection_err := false;
     search_trace := quarter_trace; search_schedule := [4; 4; 1]%nat;
     searchTime := 9; cleanup_err := false |}.

(** [--test-high --test-very-high --test] *)
Definition sample_flags : FixedCount.Flags :=
  {| FixedCount.testNormal := true; FixedCount.testMedium := false;
     FixedCount.testHigh := true; FixedCount.testVeryHigh := true |}.

(** Goroutine 3 fails at its fifth insert, the other calls succeed. *)
Definition sample_insert_errors (i j : nat) : bool :=
  Nat.eqb i 3 && Nat.eqb j 4.

(** * Properties *)

(** ** Machine integers *)

Lemma wrap64_small (z : Z) : in_int64 z -> wrap64 z = z.
Proof.
  unfold in_int64, int64_min, int64_max, wrap64. intros H.
  rewrite Z.mod_small; lia.
Qed.

Lemma wrap64_range (z : Z) : in_int64 (wrap64 z).
Proof.
  unfold in_int64, int64_min, int64_max, wrap64.
  pose proof (Z.mod_pos_bound (z + 2 ^ 63) (2 ^ 64)). lia.
Qed.

Lemma wrap64_mod (z : Z) : wrap64 z mod 2 ^ 64 = z mod 2 ^ 64.
Proof.
  unfold wrap64. rewrite Zminus_mod_idemp_l. f_equal. lia.
Qed.

Lemma wrap64_eq_of_mod (a b : Z) :
  in_int64 a -> a mod 2 ^ 64 = b mod 2 ^ 64 -> a = wrap64 b.
Proof.
  intros Ha Hab. rewrite <- (wrap64_small a Ha).
  unfold wrap64. f_equal.
  rewrite <- (Zplus_mod_idemp_l a), <- (Zplus_mod_idemp_l b). congruence.
Qed.

Lemma max_spec (a b : Z) : max a b = Z.max a b.
Proof. unfold max. destruct (Z.gtb_spec a b); lia. Qed.

(** ** The ramp-up scheduler at and after the deadline *)

(** C3. Once [elapsed >= total] the scheduler returns exactly
    [(maxWorkers, maxBatch)]. *)
Theorem ramp_full_at_deadline (elapsed total maxWorkers maxBatch : Z) :
  elapsed >= total -> total > 0 -> maxWorkers >= 1 -> maxBatch >= 1 ->
  calculateDynamicLoad elapsed total maxWorkers maxBatch = (maxWorkers, maxBatch).
Proof.
  intros He _ _ _. unfold calculateDynamicLoad.
  destruct (Z.geb_spec elapsed total) as [_ | Hlt]; [reflexivity | lia].
Qed.

Lemma ramp_full_at_deadline_witness :
  calculateDynamicLoad (31 * Second) (30 * Second) 20 2000 = (20, 2000).
Proof. apply ramp_full_at_deadline; unfold Second; lia. Defined.

(** ** Pressure levels *)

Lemma pressureSettings_cases (s : string) :
  pressureSettings s =
    if String.eqb s "low" then pressureSettings "low"
    else if String.eqb s "medium" then pressureSettings "medium"
    else if String.eqb s "high" then pressureSettings "high"
    else if String.eqb s "extreme" then pressureSettings "extreme"
    else pressureSettings "".
Proof. reflexivity. Qed.

(** C6, as the program has it.  The level name is matched byte for byte:
    exactly the lower-case names select the four profiles, and every other
    string, the empty one and other casings included, selects the medium
    default. *)
Theorem pressure_resolution_exact (s : string) :
  let p := pressureSettings s in
  (s = "low"%string -> numConcurrentGoroutines p = 5 /\ batchSize p = 500) /\
  (s = "medium"%string -> numConcurrentGoroutines p = 20 /\ batchSize p = 2000) /\
  (s = "high"%string -> numConcurrentGoroutines p = 50 /\ batchSize p = 5000) /\
  (s = "extreme"%string -> numConcurrentGoroutines p = 100 /\ batchSize p = 10000) /\
  (s <> "low"%string -> s <> "medium"%string -> s <> "high"%string ->
   s <> "extreme"%string ->
   numConcurrentGoroutines p = 20 /\ batchSize p = 2000 /\
   pressureLevel p = "MEDIUM (default)"%string).
Proof.
  cbv zeta.
  split; [intros ->; split; reflexivity |].
  split; [intros ->; split; reflexivity |].
  split; [intros ->; split; reflexivity |].
  split; [intros ->; split; reflexivity |].
  intros H1 H2 H3 H4. unfold pressureSettings.
  apply String.eqb_neq in H1, H2, H3, H4. rewrite H1, H2, H3, H4.
  repeat split; reflexivity.
Qed.

Lemma pressure_resolution_exact_witness :
  numConcurrentGoroutines (pressureSettings "HIGH") = 20 /\
  batchSize (pressureSettings "HIGH") = 2000 /\
  pressureLevel (pressureSettings "HIGH") = "MEDIUM (default)"%string.
Proof.
  apply (pressure_resolution_exact "HIGH"); discriminate.
Defined.

(** C6 as stated fails: "LOW" is a casing of "low" and gets the default. *)
Lemma pressure_resolution_case_sensitive :
  ~ (forall s : string, to_lower s = "low"%string ->
       numConcurrentGoroutines (pressureSettings s) = 5 /\
       batchSize (pressureSettings s) = 500).
Proof.
  intros H. specialize (H "LOW"%string eq_refl). destruct H as [H _].
  vm_compute in H. discriminate.
Qed.

(** ** Fatal steps *)

(** The run stopped in the step after [before]. *)
Ltac abort_after before :=
  split; [eexists; reflexivity |];
  split; [reflexivity |];
  split; [exists before; split; [reflexivity | cbn; intuition discriminate] |];
  split; [cbn; intuition discriminate |];
  split; intros ?; cbn; intuition discriminate.

(** Go through the steps entered: each one either did not fail, is not a
    fatal step, or is the last one. *)
Ltac entered Hin Hfail Hcases before :=
  cbn in Hin;
  repeat (destruct Hin as [<- | Hin];
          [ first [ exfalso; cbn in Hfail; congruence
                  | exfalso; clear - Hcases; intuition discriminate
                  | abort_after before ] |]);
  destruct Hin.

(** C9. When the client call of [Connect], [CreateCollection], [Flush],
    [CreateIndex], [LoadCollection] or [Cleanup] is made and returns an
    error, the run ends there with exit status 1: the failing step is the
    last one entered and no report is produced.  In particular a failed
    [Connect] precedes [InsertPhase] and a failed [CreateIndex] precedes
    [SearchPhase]. *)
Theorem fatal_failure_aborts (cfg : Config) (env : Env) (s : State) :
  In s fatal_steps ->
  In s (states (main cfg env)) ->
  step_fails env s = true ->
  (exists msg, outcome (main cfg env) = Fatal msg) /\
  exit_status (outcome (main cfg env)) = Some 1 /\
  (exists before, states (main cfg env) = before ++ [s] /\ ~ In s before) /\
  ~ In Report (states (main cfg env)) /\
  (s = Connect -> ~ In InsertPhase (states (main cfg env))) /\
  (s = CreateIndex -> ~ In SearchPhase (states (main cfg env))).
Proof.
  intros Hs Hin Hfail.
  unfold main, orchestrate in *.
  destruct (showHelp cfg); [destruct Hin |].
  remember (run_phase (insertPhase cfg _) _ _) as ins eqn:Hins.
  remember (run_phase (searchPhase cfg _) _ _) as srch eqn:Hsrch.
  clear Hins Hsrch.
  assert (Hcases : s = Connect \/ s = CreateCollection \/ s = Flush \/
                   s = CreateIndex \/ s = LoadCollection \/ s = Cleanup).
  { cbn in Hs. intuition. }
  clear Hs.
  destruct (connect_err env) eqn:Hconnect; cbn in Hin |- *.
  { entered Hin Hfail Hcases (@nil State). }
  destruct (hasCollection_err env) eqn:Hhas; cbn in Hin |- *.
  { entered Hin Hfail Hcases (@nil State). }
  destruct (hasCollection env && dropExisting_err env) eqn:Hdrop; cbn in Hin |- *.
  { entered Hin Hfail Hcases (@nil State). }
  destruct (createCollection_err env) eqn:Hcreate; cbn in Hin |- *.
  { entered Hin Hfail Hcases [Connect; EnsureCleanCollection]. }
  destruct ins as [ins | |]; cbn in Hin |- *.
  2,3: entered Hin Hfail Hcases (@nil State).
  destruct (flush_err env) eqn:Hflush; cbn in Hin |- *.
  { entered Hin Hfail Hcases
      [Connect; EnsureCleanCollection; CreateCollection; InsertPhase]. }
  destruct (createIndex_err env) eqn:Hindex; cbn in Hin |- *.
  { entered Hin Hfail Hcases
      [Connect; EnsureCleanCollection; CreateCollection; InsertPhase; Flush]. }
  destruct (loadCollection_err env) eqn:Hload; cbn in Hin |- *.
  { entered Hin Hfail Hcases
      [Connect; EnsureCleanCollection; CreateCollection; InsertPhase; Flush;
       CreateIndex]. }
  destruct srch as [srch | |]; cbn in Hin |- *.
  2,3: entered Hin Hfail Hcases (@nil State).
  destruct (cleanup_err env) eqn:Hcleanup; cbn in Hin |- *.
  { entered Hin Hfail Hcases
      [Connect; EnsureCleanCollection; CreateCollection; InsertPhase; Flush;
       CreateIndex; LoadCollection; SearchPhase]. }
  entered Hin Hfail Hcases (@nil State).
Qed.

Lemma fatal_failure_aborts_witness :
  exit_status (outcome (main sample_config sample_env_index_fails)) = Some 1 /\
  ~ In SearchPhase (states (main sample_config sample_env_index_fails)) /\
  ~ In Report (states (main sample_config sample_env_index_fails)).
Proof.
  destruct (fatal_failure_aborts sample_config sample_env_index_fails CreateIndex)
    as (_ & Hexit & _ & Hrep & _ & Hsearch).
  - cbn. tauto.
  - vm_compute. tauto.
  - reflexivity.
  - split; [exact Hexit | split; [exact (Hsearch eq_refl) | exact Hrep]].
Defined.

(** ** The shared counter under arbitrary interleavings *)

Section Accounting.

Context (ph : PhaseSpec).

Lemma completed_cons (it : Iteration) (rest : list Iteration) :
  completed ph (it :: rest) =
    if it_now it <? phaseDuration ph
    then (if it_err it then 0 else unitSize ph it) + completed ph rest
    else 0.
Proof.
  unfold completed. cbn. destruct (it_now it <? phaseDuration ph); reflexivity.
Qed.

(** A step that does not panic moves what it adds from the pending sum to
    the counter. *)
Lemma worker_step_accounts (i : nat) (sh sh' : Shared) (w w' : Worker) :
  worker_step ph i sh w = Some (sh', w') ->
  is_crashed w = false /\
  (is_crashed w' = false ->
   (totalOps sh' + pending ph w') mod 2 ^ 64 = (totalOps sh + pending ph w) mod 2 ^ 64 /\
   (in_int64 (totalOps sh) -> in_int64 (totalOps sh'))).
Proof.
  destruct w as [count [| it rest] | count |]; cbn [worker_step];
    try discriminate.
  intros H. split; [reflexivity |]. revert H.
  cbn [pending]. rewrite completed_cons.
  destruct (it_now it <? phaseDuration ph).
  - destruct (unitSize ph it <? 0).
    { intros [= <- <-]. discriminate. }
    destruct (it_err it); intros [= <- <-] _; cbn [totalOps pending].
    + split; [f_equal; lia | tauto].
    + split; [| intros _; apply wrap64_range].
      rewrite <- Zplus_mod_idemp_l, wrap64_mod, Zplus_mod_idemp_l.
      f_equal. lia.
  - intros [= <- <-] _. cbn [pending]. split; [f_equal; lia | tauto].
Qed.

Lemma pending_all_insert (ws : list Worker) (i : nat) (w w' : Worker) :
  ws !! i = Some w ->
  pending_all ph (<[i := w']> ws) = pending_all ph ws - pending ph w + pending ph w'.
Proof.
  revert i. induction ws as [| x ws IH]; intros [| i] Hi; try discriminate.
  - simpl in Hi. injection Hi as ->. simpl. lia.
  - simpl in Hi. change (<[S i := w']> (x :: ws)) with (x :: <[i := w']> ws).
    change (pending_all ph (x :: <[i := w']> ws))
      with (pending ph x + pending_all ph (<[i := w']> ws)).
    change (pending_all ph (x :: ws)) with (pending ph x + pending_all ph ws).
    rewrite (IH i Hi). lia.
Qed.

Lemma crashed_insert (ws : list Worker) (i : nat) (w w' : Worker) :
  ws !! i = Some w -> is_crashed w = false ->
  existsb is_crashed (<[i := w']> ws) = false ->
  existsb is_crashed ws = false /\ is_crashed w' = false.
Proof.
  revert i. induction ws as [| x ws IH]; intros [| i] Hi Hw; try discriminate.
  - simpl in Hi. injection Hi as ->. simpl. rewrite Hw.
    intros H. apply orb_false_iff in H. tauto.
  - simpl in Hi |- *. intros H. apply orb_false_iff in H. destruct H as [Hx H].
    destruct (IH i Hi Hw H) as [H1 H2]. rewrite Hx, H1. tauto.
Qed.

(** A panic is never undone: a pool without a crashed goroutine at the end
    had none on the way. *)
Lemma run_schedule_no_crash (sched : list nat) :
  forall (sh : Shared) (ws : list Worker) (sh' : Shared) (ws' : list Worker),
  run_schedule ph sched sh ws = (sh', ws') ->
  existsb is_crashed ws' = false -> existsb is_crashed ws = false.
Proof.
  induction sched as [| i sched IH]; intros sh ws sh' ws' Hrun Hok.
  - cbn in Hrun. injection Hrun as <- <-. exact Hok.
  - cbn in Hrun.
    destruct (ws !! i) as [w |] eqn:Hw; [| eauto].
    destruct (worker_step ph i sh w) as [[sh1 w1] |] eqn:Hstep; [| eauto].
    pose proof (IH _ _ _ _ Hrun Hok) as Hmid.
    destruct (worker_step_accounts _ _ _ _ _ Hstep) as [Hnc _].
    apply (crashed_insert _ _ _ _ Hw Hnc Hmid).
Qed.

(** The invariant of a phase: counter plus pending sum, modulo [2^64]. *)
Lemma run_schedule_accounts (sched : list nat) :
  forall (sh : Shared) (ws : list Worker) (sh' : Shared) (ws' : list Worker),
  run_schedule ph sched sh ws = (sh', ws') ->
  existsb is_crashed ws' = false ->
  (totalOps sh' + pending_all ph ws') mod 2 ^ 64
    = (totalOps sh + pending_all ph ws) mod 2 ^ 64 /\
  (in_int64 (totalOps sh) -> in_int64 (totalOps sh')).
Proof.
  induction sched as [| i sched IH]; intros sh ws sh' ws' Hrun Hok.
  - cbn in Hrun. injection Hrun as <- <-. tauto.
  - cbn in Hrun.
    destruct (ws !! i) as [w |] eqn:Hw; [| eauto].
    destruct (worker_step ph i sh w) as [[sh1 w1] |] eqn:Hstep; [| eauto].
    destruct (IH _ _ _ _ Hrun Hok) as [Hsum Hrange].
    destruct (worker_step_accounts _ _ _ _ _ Hstep) as [Hnc Hacc].
    pose proof (run_schedule_no_crash _ _ _ _ _ Hrun Hok) as Hmid.
    destruct (crashed_insert _ _ _ _ Hw Hnc Hmid) as [_ Hw1].
    destruct (Hacc Hw1) as [Hstep_sum Hstep_range].
    split; [| tauto].
    rewrite Hsum, (pending_all_insert _ _ _ _ Hw).
    replace (totalOps sh1 + (pending_all ph ws - pending ph w + pending ph w1))
      with ((totalOps sh1 + pending ph w1) + (pending_all ph ws - pending ph w)) by lia.
    rewrite <- Zplus_mod_idemp_l, Hstep_sum, Zplus_mod_idemp_l. f_equal. lia.
Qed.

Lemma pending_all_spawn (trace : nat -> list Iteration) :
  pending_all ph (spawn ph trace) = completed_all ph trace.
Proof.
  unfold spawn, completed_all, pending_all.
  generalize (seq 0 (Z.to_nat (phaseWorkers ph))) as ids.
  induction ids as [| i ids IH]; simpl; [reflexivity | now rewrite IH].
Qed.

Lemma pending_all_finished (ws : list Worker) :
  forallb is_finished ws = true -> pending_all ph ws = 0.
Proof.
  unfold pending_all. induction ws as [| w ws IH]; simpl; [reflexivity |].
  intros H. apply andb_true_iff in H. destruct H as [Hw H].
  destruct w; try discriminate. simpl. now rewrite IH.
Qed.

(** Whatever the interleaving, a phase that is joined shows the sum of the
    sizes of the passes whose call succeeded, as a 64-bit integer. *)
Lemma run_phase_counter (trace : nat -> list Iteration) (sched : list nat)
    (sh : Shared) :
  run_phase ph trace sched = Joined sh ->
  totalOps sh = wrap64 (completed_all ph trace).
Proof.
  unfold run_phase.
  destruct (run_schedule ph (sched ++ drain ph trace) _ _) as [sh' ws'] eqn:Hrun.
  destruct (existsb is_crashed ws') eqn:Hcr; [discriminate |].
  destruct (forallb is_finished ws') eqn:Hfin; [| discriminate].
  intros [= <-].
  destruct (run_schedule_accounts _ _ _ _ _ Hrun Hcr) as [Hsum Hrange].
  cbn in Hsum, Hrange.
  rewrite (pending_all_finished _ Hfin), pending_all_spawn, Z.add_0_r in Hsum.
  apply wrap64_eq_of_mod; [| exact Hsum].
  apply Hrange. unfold in_int64, int64_min, int64_max. lia.
Qed.

(** With one size [S] for every pass, a goroutine adds [S] per success. *)
Lemma completed_uniform (S : Z) (tr : list Iteration) :
  (forall it, unitSize ph it = S) -> completed ph tr = S * successes ph tr.
Proof.
  intros HS. unfold completed, successes.
  induction (passes ph tr) as [| it l IH]; simpl; [lia |].
  rewrite IH, HS. destruct (it_err it); simpl length; lia.
Qed.

Lemma completed_all_uniform (trace : nat -> list Iteration) (M S : Z) :
  0 <= phaseWorkers ph ->
  (forall it, unitSize ph it = S) ->
  (forall i, (i < Z.to_nat (phaseWorkers ph))%nat -> successes ph (trace i) = M) ->
  completed_all ph trace = phaseWorkers ph * M * S.
Proof.
  intros HN HS HM. unfold completed_all.
  rewrite <- (Z2Nat.id (phaseWorkers ph)) at 2 by exact HN.
  revert HM. generalize (Z.to_nat (phaseWorkers ph)) as n. clear HN.
  intros n HM.
  assert (Hshift : forall l a,
            fold_right (fun i acc => completed ph (trace i) + acc) a l
            = fold_right (fun i acc => completed ph (trace i) + acc) 0 l + a).
  { induction l as [| x l IHl]; intros a; simpl; [lia |]. rewrite IHl. lia. }
  assert (H : forall k, (k <= n)%nat ->
            fold_right (fun i acc => completed ph (trace i) + acc) 0 (seq 0 k)
            = Z.of_nat k * M * S).
  { induction k as [| k IH]; intros Hk; [reflexivity |].
    rewrite seq_S, fold_right_app. simpl.
    rewrite (completed_uniform S _ HS), (HM k) by lia.
    rewrite Hshift, IH by lia. lia. }
  apply H. lia.
Qed.

End Accounting.

(** C1.  In [main.go], whatever the interleaving of the goroutines of a
    phase, the counter read after the join is the sum of the sizes of the passes whose external call
    succeeded (a pass whose call failed adds nothing), held in a 64-bit
    integer; with [N] workers each completing [M] units of the fixed size
    [S] it is [N * M * S]. *)
Theorem phase_counter_is_sum (ph : PhaseSpec) (trace : nat -> list Iteration)
    (sched : list nat) (sh : Shared) :
  run_phase ph trace sched = Joined sh ->
  totalOps sh = wrap64 (completed_all ph trace) /\
  (in_int64 (completed_all ph trace) -> totalOps sh = completed_all ph trace) /\
  (forall M S : Z,
     0 <= phaseWorkers ph ->
     (forall it, unitSize ph it = S) ->
     (forall i, (i < Z.to_nat (phaseWorkers ph))%nat ->
                successes ph (trace i) = M) ->
     in_int64 (phaseWorkers ph * M * S) ->
     totalOps sh = phaseWorkers ph * M * S).
Proof.
  intros Hrun. pose proof (run_phase_counter _ _ _ _ Hrun) as Hsum.
  split; [exact Hsum | split].
  - intros Hr. rewrite Hsum. now apply wrap64_small.
  - intros M S HN HS HM Hr.
    rewrite Hsum, (completed_all_uniform ph trace M S HN HS HM).
    now apply wrap64_small.
Qed.

Lemma phase_counter_is_sum_witness :
  exists sh,
    run_phase (insertPhase sample_config (pressureSettings "low")) sample_trace
              [3; 0; 0; 1; 4; 2]%nat = Joined sh /\
    totalOps sh = 5 * 1 * 500.
Proof.
  eexists. split; [vm_compute; reflexivity |].
  refine (proj2 (proj2 (phase_counter_is_sum
            (insertPhase sample_config (pressureSettings "low")) sample_trace
            [3; 0; 0; 1; 4; 2]%nat _ _)) 1 500 _ _ _ _).
  - vm_compute. reflexivity.
  - vm_compute. discriminate.
  - intros it. reflexivity.
  - intros i _. reflexivity.
  - vm_compute. split; discriminate.
Defined.

(** ** Binary64 arithmetic on the values of the ramp *)

(** The bit count of [SpecFloat] is the binary logarithm plus one. *)
Lemma digits2_pos_log2 (p : positive) :
  Zpos (digits2_pos p) = Z.log2 (Zpos p) + 1.
Proof.
  induction p as [p IH | p IH |]; [| | reflexivity].
  - cbn [digits2_pos]. rewrite Pos2Z.inj_succ, IH.
    change (Zpos p~1) with (2 * Zpos p + 1). rewrite Z.log2_succ_double; lia.
  - cbn [digits2_pos]. rewrite Pos2Z.inj_succ, IH.
    change (Zpos p~0) with (2 * Zpos p). rewrite Z.log2_double; lia.
Qed.

Lemma Zdigits2_bounds (z : Z) :
  0 < z -> 2 ^ (Zdigits2 z - 1) <= z < 2 ^ Zdigits2 z /\ 1 <= Zdigits2 z.
Proof.
  intros Hz. destruct z as [| p | p]; try lia.
  cbn [Zdigits2]. rewrite digits2_pos_log2.
  pose proof (Z.log2_nonneg (Zpos p)).
  pose proof (Z.log2_spec (Zpos p) Hz).
  replace (Z.log2 (Zpos p) + 1 - 1) with (Z.log2 (Zpos p)) by lia.
  replace (Z.log2 (Zpos p) + 1) with (Z.succ (Z.log2 (Zpos p))) at 2 by lia.
  lia.
Qed.

Lemma Zdigits2_unique (z d : Z) :
  2 ^ (d - 1) <= z < 2 ^ d -> 1 <= d -> Zdigits2 z = d.
Proof.
  intros Hz Hd.
  assert (H0 : 0 < z) by (pose proof (Z.pow_pos_nonneg 2 (d - 1)); lia).
  destruct z as [| p | p]; try lia.
  cbn [Zdigits2]. rewrite digits2_pos_log2.
  rewrite (Z.log2_unique (Zpos p) (d - 1)); [lia | lia |].
  replace (Z.succ (d - 1)) with d by lia. exact Hz.
Qed.

(** Rounding to the nearest integer is monotone and exact on integers. *)
Lemma div_cross_le (a1 b1 a2 b2 : Z) :
  0 < b1 -> 0 < b2 -> a1 * b2 <= a2 * b1 -> a1 / b1 <= a2 / b2.
Proof.
  intros H1 H2 H.
  apply Z.div_le_lower_bound; [lia |].
  pose proof (Z.mul_div_le a1 b1 H1).
  (* b2 * (a1/b1) <= a2 :  b1 * (a1/b1) <= a1, so b1*b2*(a1/b1) <= a1*b2 <= a2*b1 *)
  assert (b1 * (b2 * (a1 / b1)) <= b1 * a2) by nia.
  apply Z.mul_le_mono_pos_l with (p := b1); lia.
Qed.

Lemma rnd_int_mono (a1 b1 a2 b2 : Z) :
  0 < b1 -> 0 < b2 -> a1 * b2 <= a2 * b1 -> rnd_int a1 b1 <= rnd_int a2 b2.
Proof.
  intros H1 H2 H. pose proof (div_cross_le _ _ _ _ H1 H2 H) as Hq.
  unfold rnd_int.
  pose proof (Z.div_mod a1 b1 ltac:(lia)) as E1.
  pose proof (Z.div_mod a2 b2 ltac:(lia)) as E2.
  pose proof (Z.mod_pos_bound a1 b1 H1) as R1.
  pose proof (Z.mod_pos_bound a2 b2 H2) as R2.
  set (q1 := a1 / b1) in *. set (q2 := a2 / b2) in *.
  set (r1 := a1 mod b1) in *. set (r2 := a2 mod b2) in *.
  assert (Hcase : q1 < q2 \/ q1 = q2) by lia.
  destruct Hcase as [Hlt | Heq].
  - destruct (Z.compare_spec (2 * r1) b1), (Z.compare_spec (2 * r2) b2);
      repeat match goal with |- context [Z.even ?q] => destruct (Z.even q) end; lia.
  - assert (Hr : r1 * b2 <= r2 * b1) by nia.
    rewrite <- Heq.
    destruct (Z.compare_spec (2 * r1) b1), (Z.compare_spec (2 * r2) b2);
      destruct (Z.even q1); try lia; exfalso; nia.
Qed.

Lemma rnd_int_exact (k b : Z) : 0 < b -> rnd_int (k * b) b = k.
Proof.
  intros Hb. unfold rnd_int. rewrite Z.div_mul, Z.mod_mul by lia.
  destruct (Z.compare_spec (2 * 0) b); lia.
Qed.

Lemma rnd_int_bounds (a b lo hi : Z) :
  0 < b -> lo * b <= a -> a <= hi * b -> lo <= rnd_int a b <= hi.
Proof.
  intros Hb Hlo Hhi. split.
  - rewrite <- (rnd_int_exact lo 1 ltac:(lia)) at 1. apply rnd_int_mono; lia.
  - rewrite <- (rnd_int_exact hi 1 ltac:(lia)). apply rnd_int_mono; lia.
Qed.

(** The shift records of [SpecFloat]: a location read off the remainder of
    [p / q] starts a valid record, a valid record rounds as [rnd_int], and
    shifting right by one bit doubles the divisor. *)
Lemma rec_ok_of_loc (p q : Z) :
  0 < q -> 0 <= p -> rec_ok p q (shr_record_of_loc (p / q) (loc_of p q)).
Proof.
  intros Hq Hp. unfold rec_ok, loc_of.
  pose proof (Z.div_mod p q ltac:(lia)) as E.
  pose proof (Z.mod_pos_bound p q Hq) as R.
  pose proof (Z.div_pos p q Hp Hq) as Q0.
  set (d := p / q) in *. set (r := p mod q) in *.
  assert (H2 : forall k u, 0 <= u < q -> 2 * p = q * k + u ->
             (2 * p) / q = k /\ (2 * p) mod q = u).
  { intros k u Hu Hk. symmetry in Hk.
    pose proof (Z.div_mod_unique q k ((2 * p) / q) u ((2 * p) mod q)) as U.
    pose proof (Z.mod_pos_bound (2 * p) q Hq).
    pose proof (Z.div_mod (2 * p) q ltac:(lia)).
    destruct U; try lia. }
  destruct (Z.eqb_spec r 0) as [Hr0 | Hr0].
  - destruct (H2 (2 * d) 0 ltac:(lia) ltac:(lia)) as [-> ->].
    cbn. repeat split; lia.
  - destruct (Z.compare_spec (2 * r) q) as [Hc | Hc | Hc];
      cbn [shr_record_of_loc shr_m shr_r shr_s Z.b2z].
    + destruct (H2 (2 * d + 1) 0 ltac:(lia) ltac:(lia)) as [-> ->].
      repeat split; lia.
    + destruct (H2 (2 * d) (2 * r) ltac:(lia) ltac:(lia)) as [-> ->].
      repeat split; lia.
    + destruct (H2 (2 * d + 1) (2 * r - q) ltac:(lia) ltac:(lia)) as [-> ->].
      repeat split; lia.
Qed.

Lemma rec_ok_round (p q : Z) (r : shr_record) :
  0 < q -> 0 <= p -> rec_ok p q r ->
  round_nearest_even (shr_m r) (loc_of_shr_record r) = rnd_int p q /\
  shr_m r = p / q.
Proof.
  intros Hq Hp (Hm & Hd & Hs). unfold rnd_int.
  pose proof (Z.div_mod p q ltac:(lia)) as E.
  pose proof (Z.mod_pos_bound p q Hq) as R.
  pose proof (Z.div_mod (2 * p) q ltac:(lia)) as E2.
  pose proof (Z.mod_pos_bound (2 * p) q Hq) as R2.
  destruct r as [m rb sb]. cbn [shr_m shr_r shr_s] in *.
  set (d := p / q) in *. set (u := p mod q) in *.
  set (t := (2 * p) / q) in *. set (v := (2 * p) mod q) in *.
  assert (Hmd : m = d).
  { destruct rb; cbn [Z.b2z] in Hd; nia. }
  split; [| exact Hmd]. subst m.
  destruct rb, sb; cbn [loc_of_shr_record round_nearest_even Z.b2z] in *;
    symmetry in Hs;
    [ apply negb_true_iff, Z.eqb_neq in Hs
    | apply negb_false_iff, Z.eqb_eq in Hs
    | apply negb_true_iff, Z.eqb_neq in Hs
    | apply negb_false_iff, Z.eqb_eq in Hs ];
    destruct (Z.compare_spec (2 * u) q); try reflexivity; exfalso; nia.
Qed.

Lemma rec_ok_shr_1 (p q : Z) (r : shr_record) :
  0 < q -> 0 <= p -> rec_ok p q r -> rec_ok p (2 * q) (shr_1 r).
Proof.
  intros Hq Hp (Hm & Hd & Hs).
  pose proof (Z.div_mod (2 * p) q ltac:(lia)) as E.
  pose proof (Z.mod_pos_bound (2 * p) q Hq) as R.
  destruct r as [m rb sb]. cbn [shr_m shr_r shr_s] in *.
  set (t := (2 * p) / q) in *. set (v := (2 * p) mod q) in *.
  assert (H2 : (2 * p) / (2 * q) = m /\ (2 * p) mod (2 * q) = q * Z.b2z rb + v).
  { pose proof (Z.div_mod_unique (2 * q) m ((2 * p) / (2 * q))
                  (q * Z.b2z rb + v) ((2 * p) mod (2 * q))) as U.
    pose proof (Z.mod_pos_bound (2 * p) (2 * q) ltac:(lia)).
    pose proof (Z.div_mod (2 * p) (2 * q) ltac:(lia)).
    destruct rb; cbn [Z.b2z] in *; destruct U; try lia; nia. }
  destruct H2 as [H2d H2m].
  unfold rec_ok. rewrite H2d, H2m.
  assert (Hs' : orb rb sb = negb (q * Z.b2z rb + v =? 0)).
  { rewrite Hs. destruct rb; cbn [Z.b2z orb].
    - symmetry. apply negb_true_iff, Z.eqb_neq. lia.
    - replace (q * 0 + v) with v by lia. reflexivity. }
  destruct m as [| [m | m |] | m]; try lia; cbn [shr_1 shr_m shr_r shr_s Z.b2z];
    (split; [lia | split; [lia | exact Hs']]).
Qed.

Lemma rec_ok_iter (n : positive) :
  forall (p q : Z) (r : shr_record),
  0 < q -> 0 <= p -> rec_ok p q r ->
  rec_ok p (q * 2 ^ Zpos n) (SpecFloat.iter_pos shr_1 n r).
Proof.
  induction n as [n IH | n IH |]; intros p q r Hq Hp Hr; cbn [SpecFloat.iter_pos].
  - replace (q * 2 ^ Zpos n~1) with (2 * q * 2 ^ Zpos n * 2 ^ Zpos n).
    + pose proof (Z.pow_pos_nonneg 2 (Zpos n) ltac:(lia) ltac:(lia)).
      apply IH; [nia | lia |]. apply IH; [lia | lia |].
      now apply rec_ok_shr_1.
    + replace (Zpos n~1) with (Zpos n + Zpos n + 1) by lia.
      rewrite !Z.pow_add_r by lia. change (2 ^ 1) with 2. ring.
  - replace (q * 2 ^ Zpos n~0) with (q * 2 ^ Zpos n * 2 ^ Zpos n).
    + pose proof (Z.pow_pos_nonneg 2 (Zpos n) ltac:(lia) ltac:(lia)).
      apply IH; [nia | lia |]. now apply IH.
    + replace (Zpos n~0) with (Zpos n + Zpos n) by lia.
      rewrite !Z.pow_add_r by lia. ring.
  - change (2 ^ 1) with 2. rewrite Z.mul_comm. now apply rec_ok_shr_1.
Qed.

Lemma rec_ok_shr (p q e n : Z) (r : shr_record) :
  0 < q -> 0 <= p -> 0 <= n -> rec_ok p q r ->
  rec_ok p (q * 2 ^ n) (fst (shr r e n)) /\ snd (shr r e n) = e + n.
Proof.
  intros Hq Hp Hn Hr. destruct n as [| n | n]; try lia; cbn [shr fst snd].
  - rewrite Z.mul_1_r, Z.add_0_r. tauto.
  - split; [now apply rec_ok_iter | reflexivity].
Qed.

Lemma fexp_normal (x : Z) : -1074 <= x - 53 -> fexp 53 1024 x = x - 53.
Proof. unfold fexp, emin. lia. Qed.

(** A quotient with [53 + n] bits lies between [2^52] and [2^53] once
    divided by [2^n]. *)
Lemma magnitude (p q : Z) :
  0 < q -> 0 <= p ->
  let n := Zdigits2 (p / q) - 53 in
  0 <= n ->
  2 ^ 52 * (q * 2 ^ n) <= p < 2 ^ 53 * (q * 2 ^ n).
Proof.
  intros Hq Hp n Hn.
  pose proof (Z.div_mod p q ltac:(lia)) as E.
  pose proof (Z.mod_pos_bound p q Hq) as R.
  assert (Hm : 0 < p / q).
  { destruct (p / q) as [| m | m] eqn:Hm; try lia.
    - subst n. cbn in Hn. lia.
    - pose proof (Z.div_pos p q Hp Hq). lia. }
  destruct (Zdigits2_bounds _ Hm) as [Hd _].
  replace (Zdigits2 (p / q) - 1) with (52 + n) in Hd by (subst n; lia).
  replace (Zdigits2 (p / q)) with (53 + n) in Hd by (subst n; lia).
  rewrite !Z.pow_add_r in Hd by lia.
  pose proof (Z.pow_pos_nonneg 2 n ltac:(lia) Hn).
  set (m := p / q) in *. set (r := p mod q) in *. set (t := 2 ^ n) in *.
  change (2 ^ 52) with 4503599627370496 in *.
  change (2 ^ 53) with 9007199254740992 in *.
  split; nia.
Qed.

(** What [binary_round_aux] computes from the quotient [p / q], its exact
    location and a unit exponent [e]: the quotient is cut to 53 bits,
    rounded to nearest-even, and renormalised after a carry. *)
Lemma bra_closed (s : bool) (p q e : Z) :
  0 < q -> 0 <= p ->
  let n := Zdigits2 (p / q) - 53 in
  0 <= n -> -1074 <= e + n -> e + n + 1 <= 971 ->
  binary_round_aux 53 1024 s (p / q) e (loc_of p q)
    = canon s (rnd_int p (q * 2 ^ n)) (e + n) /\
  2 ^ 52 <= rnd_int p (q * 2 ^ n) <= 2 ^ 53.
Proof.
  intros Hq Hp n Hn Hlo Hhi.
  pose proof (Z.pow_pos_nonneg 2 n ltac:(lia) Hn) as Hpow.
  assert (Hqn : 0 < q * 2 ^ n) by nia.
  destruct (magnitude p q Hq Hp Hn) as [Hmlo Hmhi]. fold n in Hmlo, Hmhi.
  assert (HM : 2 ^ 52 <= rnd_int p (q * 2 ^ n) <= 2 ^ 53).
  { apply rnd_int_bounds; lia. }
  split; [| exact HM].
  unfold binary_round_aux, shr_fexp.
  replace (fexp 53 1024 (Zdigits2 (p / q) + e) - e) with n
    by (rewrite fexp_normal; subst n; lia).
  destruct (rec_ok_shr p q e n _ Hq Hp Hn (rec_ok_of_loc p q Hq Hp)) as [Hrec He].
  destruct (shr (shr_record_of_loc (p / q) (loc_of p q)) e n) as [mrs e'].
  cbn [fst snd] in Hrec, He. subst e'.
  destruct (rec_ok_round _ _ _ Hqn Hp Hrec) as [-> _].
  set (M := rnd_int p (q * 2 ^ n)) in *.
  unfold canon. destruct (Z.eqb_spec M (2 ^ 53)) as [HMeq | HMne].
  - rewrite HMeq.
    replace (fexp 53 1024 (Zdigits2 (2 ^ 53) + (e + n)) - (e + n)) with 1
      by (change (Zdigits2 (2 ^ 53)) with 54; rewrite fexp_normal; lia).
    cbn [shr shr_record_of_loc]. cbv [SpecFloat.iter_pos].
    change (shr_m (shr_1 {| shr_m := 2 ^ 53; shr_r := false; shr_s := false |}))
      with (2 ^ 52).
    change (2 ^ 52) with (Zpos (Z.to_pos (2 ^ 52))) at 1.
    cbv iota. replace (e + n + 1 <=? 1024 - 53) with true
      by (symmetry; apply Z.leb_le; lia).
    reflexivity.
  - assert (Hd : Zdigits2 M = 53).
    { apply Zdigits2_unique; [| lia]. change (53 - 1) with 52. lia. }
    replace (fexp 53 1024 (Zdigits2 M + (e + n)) - (e + n)) with 0
      by (rewrite Hd, fexp_normal; lia).
    cbn [shr shr_record_of_loc shr_m].
    destruct M as [| M' | M'] eqn:HMz;
      [ change (2 ^ 52) with 4503599627370496 in HM; lia
      | | change (2 ^ 52) with 4503599627370496 in HM; lia ].
    replace (e + n <=? 1024 - 53) with true by (symmetry; apply Z.leb_le; lia).
    reflexivity.
Qed.

Lemma canon_cases (s : bool) (M E : Z) :
  2 ^ 52 <= M <= 2 ^ 53 ->
  exists m e, canon s M E = S754_finite s m e /\ 2 ^ 52 <= Zpos m < 2 ^ 53 /\
    ((e = E /\ Zpos m = M) \/ (e = E + 1 /\ M = 2 ^ 53 /\ Zpos m = 2 ^ 52)).
Proof.
  intros HM. unfold canon. destruct (Z.eqb_spec M (2 ^ 53)) as [-> | Hne].
  - exists (Z.to_pos (2 ^ 52)), (E + 1). split; [reflexivity |].
    change (Zpos (Z.to_pos (2 ^ 52))) with (2 ^ 52).
    change (2 ^ 52) with 4503599627370496. change (2 ^ 53) with 9007199254740992.
    lia.
  - exists (Z.to_pos M), E. split; [reflexivity |].
    change (2 ^ 52) with 4503599627370496 in *.
    change (2 ^ 53) with 9007199254740992 in *.
    rewrite Z2Pos.id by lia. lia.
Qed.

Lemma canon_normal (lo hi M E : Z) :
  2 ^ 52 <= M <= 2 ^ 53 -> lo <= E -> E + 1 <= hi ->
  normal lo hi (canon false M E).
Proof.
  intros HM Hlo Hhi.
  destruct (canon_cases false M E HM) as (m & e & -> & Hm & Hcase).
  cbn. split; [reflexivity | split; [exact Hm | lia]].
Qed.

Lemma canon_fle (M1 E1 M2 E2 : Z) :
  2 ^ 52 <= M1 <= 2 ^ 53 -> 2 ^ 52 <= M2 <= 2 ^ 53 ->
  E1 < E2 \/ (E1 = E2 /\ M1 <= M2) ->
  fle (canon false M1 E1) (canon false M2 E2).
Proof.
  intros H1 H2 Hle.
  destruct (canon_cases false M1 E1 H1) as (m1 & e1 & -> & Hm1 & Hc1).
  destruct (canon_cases false M2 E2 H2) as (m2 & e2 & -> & Hm2 & Hc2).
  cbn. change (2 ^ 52) with 4503599627370496 in *.
  change (2 ^ 53) with 9007199254740992 in *. lia.
Qed.

(** Two roundings of the same kind, compared by magnitude. *)
Lemma rounded_fle (a1 b1 E1 a2 b2 E2 : Z) :
  0 < b1 -> 0 < b2 ->
  2 ^ 52 * b1 <= a1 <= 2 ^ 53 * b1 ->
  2 ^ 52 * b2 <= a2 <= 2 ^ 53 * b2 ->
  E1 < E2 \/ (E1 = E2 /\ a1 * b2 <= a2 * b1) ->
  fle (canon false (rnd_int a1 b1) E1) (canon false (rnd_int a2 b2) E2).
Proof.
  intros Hb1 Hb2 H1 H2 Hle.
  apply canon_fle.
  - apply rnd_int_bounds; lia.
  - apply rnd_int_bounds; lia.
  - destruct Hle as [Hlt | [-> Hc]]; [left; exact Hlt | right].
    split; [reflexivity | now apply rnd_int_mono].
Qed.

Lemma Zpos_iter_xO (k p : positive) :
  Zpos (Pos.iter xO p k) = Zpos p * 2 ^ Zpos k.
Proof.
  induction k as [| k IH] using Pos.peano_ind.
  - cbn [Pos.iter]. lia.
  - rewrite Pos.iter_succ, Pos2Z.inj_xO, IH, Pos2Z.inj_succ, Z.pow_succ_r by lia.
    ring.
Qed.

Lemma loc_of_exact (p : Z) : loc_of p 1 = loc_Exact.
Proof. unfold loc_of. now rewrite Z.mod_1_r. Qed.

(** Rounding [p * 2^e] to binary64: the significand [p] is brought to 53
    bits, rounded when it has more. *)
Lemma binary_round_closed (s : bool) (p : positive) (e : Z) :
  let z := Zpos p in
  let d := Zdigits2 z in
  -1074 <= d - 53 + e -> d - 53 + e + 1 <= 971 ->
  let a := z * 2 ^ Z.max 0 (53 - d) in
  let b := 2 ^ Z.max 0 (d - 53) in
  binary_round 53 1024 s p e = canon s (rnd_int a b) (d - 53 + e) /\
  0 < b /\ 2 ^ 52 * b <= a < 2 ^ 53 * b.
Proof.
  intros z d Hlo Hhi a b.
  destruct (Zdigits2_bounds z ltac:(subst z; lia)) as [Hz Hd1]. fold d in Hz, Hd1.
  assert (Hb : 0 < b) by (apply Z.pow_pos_nonneg; lia).
  unfold binary_round.
  change (Zpos (digits2_pos p)) with d.
  rewrite fexp_normal by lia.
  unfold shl_align. replace (d + e - 53 - e) with (d - 53) by lia.
  destruct (Z_lt_le_dec d 53) as [Hlt | Hge].
  - (* fewer than 53 bits: shifted left, exact *)
    destruct (d - 53) as [| k | k] eqn:Hk; try lia.
    assert (Hk' : Zpos k = 53 - d) by lia.
    assert (Ha : Zpos (Pos.iter xO p k) = a).
    { rewrite Zpos_iter_xO, Hk'. subst a z. f_equal. f_equal. lia. }
    assert (Hb1 : b = 1).
    { subst b. replace (Z.max 0 (d - 53)) with 0 by lia. reflexivity. }
    assert (Hmag : 2 ^ 52 <= a < 2 ^ 53).
    { subst a. replace (Z.max 0 (53 - d)) with (53 - d) by lia.
      assert (E52 : 2 ^ 52 = 2 ^ (d - 1) * 2 ^ (53 - d)).
      { rewrite <- Z.pow_add_r by lia. f_equal. lia. }
      assert (E53 : 2 ^ 53 = 2 ^ d * 2 ^ (53 - d)).
      { rewrite <- Z.pow_add_r by lia. f_equal. lia. }
      rewrite E52, E53.
      pose proof (Z.pow_pos_nonneg 2 (53 - d) ltac:(lia) ltac:(lia)). nia. }
    assert (Hda : Zdigits2 a = 53).
    { apply Zdigits2_unique; [exact Hmag | lia]. }
    assert (Ha0 : 0 <= a).
    { pose proof (Z.pow_pos_nonneg 2 52 ltac:(lia) ltac:(lia)). lia. }
    pose proof (bra_closed s a 1 (d + e - 53) ltac:(lia) Ha0) as H.
    rewrite Z.div_1_r, Hda in H. cbn zeta in H.
    specialize (H ltac:(lia) ltac:(lia) ltac:(lia)).
    rewrite loc_of_exact in H. destruct H as [H _].
    rewrite Ha, H, Hb1. rewrite Z.sub_diag, Z.add_0_r.
    replace (Zneg k + e) with (d + e - 53) by lia.
    split; [reflexivity | lia].
  - (* at least 53 bits: rounded to 53 *)
    assert (Ha : a = z).
    { subst a. replace (Z.max 0 (53 - d)) with 0 by lia. lia. }
    assert (Hbb : b = 2 ^ (d - 53)).
    { subst b. f_equal. lia. }
    pose proof (bra_closed s z 1 e ltac:(lia) ltac:(subst z; lia)) as H.
    rewrite Z.div_1_r in H. fold d in H. cbn zeta in H.
    specialize (H ltac:(lia) ltac:(lia) ltac:(lia)).
    rewrite loc_of_exact, Z.mul_1_l in H. destruct H as [H _].
    replace (e + (d - 53)) with (d - 53 + e) in H by lia.
    pose proof (magnitude z 1 ltac:(lia) ltac:(subst z; lia)) as Hmag.
    rewrite Z.div_1_r in Hmag. fold d in Hmag. cbn zeta in Hmag.
    specialize (Hmag ltac:(lia)). rewrite Z.mul_1_l in Hmag.
    rewrite Ha, Hbb.
    destruct (d - 53) as [| k | k] eqn:Hk; try lia;
      (split; [exact H | split; [apply Z.pow_pos_nonneg; lia | exact Hmag]]).
Qed.

Lemma Zdigits2_le_63 (z : Z) : 0 < z < 2 ^ 63 -> 1 <= Zdigits2 z <= 63.
Proof.
  intros Hz. destruct (Zdigits2_bounds z ltac:(lia)) as [Hb Hd].
  split; [exact Hd |].
  destruct (Z_le_gt_dec (Zdigits2 z) 63) as [H | H]; [exact H | exfalso].
  assert (2 ^ 63 <= 2 ^ (Zdigits2 z - 1)) by (apply Z.pow_le_mono_r; lia).
  lia.
Qed.

Lemma Zdigits2_mono (z1 z2 : Z) : 0 < z1 <= z2 -> Zdigits2 z1 <= Zdigits2 z2.
Proof.
  intros Hz.
  destruct (Zdigits2_bounds z1 ltac:(lia)) as [H1 Hd1].
  destruct (Zdigits2_bounds z2 ltac:(lia)) as [H2 Hd2].
  destruct (Z_le_gt_dec (Zdigits2 z1) (Zdigits2 z2)) as [H | H]; [exact H | exfalso].
  assert (2 ^ Zdigits2 z2 <= 2 ^ (Zdigits2 z1 - 1)) by (apply Z.pow_le_mono_r; lia).
  lia.
Qed.

Lemma float64_of_int_closed (z : Z) :
  0 < z < 2 ^ 63 ->
  let d := Zdigits2 z in
  let a := z * 2 ^ Z.max 0 (53 - d) in
  let b := 2 ^ Z.max 0 (d - 53) in
  float64_of_int z = canon false (rnd_int a b) (d - 53) /\
  0 < b /\ 2 ^ 52 * b <= a < 2 ^ 53 * b /\ 1 <= d <= 63.
Proof.
  intros Hz d a b. pose proof (Zdigits2_le_63 z Hz) as Hd. fold d in Hd.
  destruct z as [| p | p]; try lia.
  destruct (binary_round_closed false p 0 ltac:(fold d; lia) ltac:(fold d; lia))
    as (H & Hb & Hmag).
  rewrite Z.add_0_r in H.
  unfold float64_of_int, binary_normalize. tauto.
Qed.

Lemma float64_of_int_normal (z : Z) :
  0 <= z < 2 ^ 63 -> normal (-52) 11 (float64_of_int z).
Proof.
  intros Hz. destruct (Z.eq_dec z 0) as [-> | Hz0]; [reflexivity |].
  destruct (float64_of_int_closed z ltac:(lia)) as (-> & Hb & Hmag & Hd).
  apply canon_normal; [apply rnd_int_bounds; lia | lia | lia].
Qed.

Lemma float64_of_int_mono (z1 z2 : Z) :
  0 <= z1 <= z2 -> z2 < 2 ^ 63 -> fle (float64_of_int z1) (float64_of_int z2).
Proof.
  intros Hz Hz2.
  destruct (Z.eq_dec z2 0) as [-> | Hz20].
  { replace z1 with 0 by lia. exact I. }
  destruct (float64_of_int_closed z2 ltac:(lia)) as (E2 & Hb2 & Hmag2 & Hd2).
  destruct (Z.eq_dec z1 0) as [-> | Hz10].
  { rewrite E2. unfold canon. cbn. now destruct (_ =? _). }
  destruct (float64_of_int_closed z1 ltac:(lia)) as (E1 & Hb1 & Hmag1 & Hd1).
  rewrite E1, E2.
  pose proof (Zdigits2_mono z1 z2 ltac:(lia)) as Hmono.
  apply rounded_fle; try lia.
  destruct (Z.eq_dec (Zdigits2 z1) (Zdigits2 z2)) as [Heq | Hne]; [right | left; lia].
  split; [lia |]. rewrite Heq.
  pose proof (Z.pow_pos_nonneg 2 (Z.max 0 (53 - Zdigits2 z2)) ltac:(lia) ltac:(lia)).
  nia.
Qed.

Lemma float64_of_int_finite (z : Z) :
  z <> 0 -> - 2 ^ 63 <= z < 2 ^ 63 ->
  exists m e, float64_of_int z = S754_finite (z <? 0) m e.
Proof.
  intros Hz0 Hz.
  assert (Hfin : forall s p, Zpos p <= 2 ^ 63 ->
            exists m e, binary_round 53 1024 s p 0 = S754_finite s m e).
  { intros s p Hp.
    assert (Hd : 1 <= Zdigits2 (Zpos p) <= 64).
    { destruct (Zdigits2_bounds (Zpos p) ltac:(lia)) as [Hb Hd].
      split; [exact Hd |].
      destruct (Z_le_gt_dec (Zdigits2 (Zpos p)) 64) as [H | H]; [exact H | exfalso].
      assert (2 ^ 64 <= 2 ^ (Zdigits2 (Zpos p) - 1)) by (apply Z.pow_le_mono_r; lia).
      lia. }
    destruct (binary_round_closed s p 0 ltac:(lia) ltac:(lia)) as (H & Hb & Hmag).
    rewrite H.
    destruct (canon_cases s _ (Zdigits2 (Zpos p) - 53 + 0)
                (rnd_int_bounds _ _ (2 ^ 52) (2 ^ 53) Hb (proj1 Hmag)
                   (Z.lt_le_incl _ _ (proj2 Hmag))))
      as (m & e & -> & _).
    eauto. }
  destruct z as [| p | p]; try lia; unfold float64_of_int, binary_normalize.
  - apply Hfin. lia.
  - apply Hfin. lia.
Qed.

(** Shifts by a possibly negative amount, as one division. *)
Lemma shiftl_offset (a e : Z) :
  -200 <= e -> Z.shiftl a e = (a * 2 ^ (e + 200)) / 2 ^ 200.
Proof.
  intros He. destruct (Z_le_gt_dec 0 e) as [H | H].
  - rewrite Z.shiftl_mul_pow2, Z.pow_add_r by lia.
    rewrite Z.mul_assoc, Z.div_mul; [reflexivity |].
    apply Z.pow_nonzero; lia.
  - rewrite Z.shiftl_div_pow2 by lia.
    replace (2 ^ 200) with (2 ^ (e + 200) * 2 ^ (- e))
      by (rewrite <- Z.pow_add_r by lia; f_equal; lia).
    rewrite (Z.mul_comm a), Z.div_mul_cancel_l; [reflexivity | |];
      apply Z.pow_nonzero; lia.
Qed.

(** Truncation respects the order of normal floats. *)
Lemma shiftl_fle (m1 m2 : positive) (e1 e2 : Z) :
  normal (-200) 200 (S754_finite false m1 e1) ->
  normal (-200) 200 (S754_finite false m2 e2) ->
  fle (S754_finite false m1 e1) (S754_finite false m2 e2) ->
  0 <= Z.shiftl (Zpos m1) e1 <= Z.shiftl (Zpos m2) e2.
Proof.
  intros (_ & Hm1 & He1) (_ & Hm2 & He2) Hle. cbn in Hle.
  rewrite !shiftl_offset by lia.
  pose proof (Z.pow_pos_nonneg 2 200 ltac:(lia) ltac:(lia)) as H200.
  pose proof (Z.pow_pos_nonneg 2 (e1 + 200) ltac:(lia) ltac:(lia)) as Hp1.
  split; [apply Z.div_pos; nia |].
  apply Z.div_le_mono; [lia |].
  destruct Hle as [Hlt | [-> Hm]]; [| nia].
  assert (Hp : 2 * 2 ^ (e1 + 200) <= 2 ^ (e2 + 200)).
  { rewrite <- Z.pow_succ_r by lia. apply Z.pow_le_mono_r; lia. }
  change (2 ^ 52) with 4503599627370496 in *.
  change (2 ^ 53) with 9007199254740992 in *. nia.
Qed.

Lemma float64_of_int_small (z : Z) :
  0 < z < 2 ^ 53 ->
  exists m e, float64_of_int z = S754_finite false m e /\
              Z.shiftl (Zpos m) e = z /\ -52 <= e <= 0.
Proof.
  intros Hz.
  assert (Hz63 : 0 < z < 2 ^ 63).
  { change (2 ^ 53) with 9007199254740992 in Hz.
    change (2 ^ 63) with 9223372036854775808. lia. }
  destruct (float64_of_int_closed z Hz63) as (E & Hb & Hmag & Hd).
  set (d := Zdigits2 z) in *.
  assert (Hd53 : d <= 53).
  { destruct (Zdigits2_bounds z ltac:(lia)) as [Hzb _]. fold d in Hzb.
    destruct (Z_le_gt_dec d 53) as [H | H]; [exact H | exfalso].
    assert (2 ^ 53 <= 2 ^ (d - 1)) by (apply Z.pow_le_mono_r; lia). lia. }
  replace (Z.max 0 (d - 53)) with 0 in * by lia.
  replace (Z.max 0 (53 - d)) with (53 - d) in * by lia.
  change (2 ^ 0) with 1 in *.
  replace (z * 2 ^ (53 - d)) with (z * 2 ^ (53 - d) * 1) in E at 1 by lia.
  rewrite rnd_int_exact in E by lia.
  unfold canon in E.
  destruct (Z.eqb_spec (z * 2 ^ (53 - d)) (2 ^ 53)) as [Heq | Hne]; [lia |].
  exists (Z.to_pos (z * 2 ^ (53 - d))), (d - 53).
  split; [exact E | split; [| lia]].
  pose proof (Z.pow_pos_nonneg 2 52 ltac:(lia) ltac:(lia)).
  rewrite Z2Pos.id by lia.
  rewrite Z.shiftl_div_pow2 by lia.
  replace (- (d - 53)) with (53 - d) by lia.
  apply Z.div_mul. apply Z.pow_nonzero; lia.
Qed.

(** The location [SFdiv] derives from a remainder is the one of [loc_of]. *)
Lemma new_location_loc (nb k : Z) :
  0 < nb -> 0 <= k < nb ->
  new_location nb k = if k =? 0 then loc_Exact else loc_Inexact (2 * k ?= nb).
Proof.
  intros Hnb Hk. unfold new_location, new_location_even, new_location_odd.
  destruct (Z.even nb) eqn:Hev; [reflexivity |].
  destruct (k =? 0); [reflexivity |]. f_equal.
  assert (Hodd : Z.odd nb = true) by (rewrite <- Z.negb_even, Hev; reflexivity).
  apply Z.odd_spec in Hodd. destruct Hodd as [j Hj].
  destruct (Z.compare_spec (2 * k + 1) nb), (Z.compare_spec (2 * k) nb);
    try reflexivity; lia.
Qed.

Lemma div_eucl_div_mod (a b : Z) : Z.div_eucl a b = (a / b, a mod b).
Proof. unfold Z.div, Z.modulo. now destruct (Z.div_eucl a b). Qed.

(** The quotient of two normal floats: the significands are divided with
    53 extra bits, the result has 53 or 54 bits before rounding. *)
Lemma fdiv_closed (ma mb : positive) (ea eb : Z) :
  2 ^ 52 <= Zpos ma < 2 ^ 53 -> 2 ^ 52 <= Zpos mb < 2 ^ 53 ->
  -500 <= ea <= 500 -> -500 <= eb <= 500 ->
  let n := if Zpos mb <=? Zpos ma then 1 else 0 in
  let a := Zpos ma * 2 ^ 53 in
  let b := Zpos mb * 2 ^ n in
  fdiv (S754_finite false ma ea) (S754_finite false mb eb)
    = canon false (rnd_int a b) (ea - eb - 53 + n) /\
  0 < b /\ 2 ^ 52 * b <= a < 2 ^ 53 * b.
Proof.
  intros Hma Hmb Hea Heb n a b.
  assert (Hda : Zdigits2 (Zpos ma) = 53) by (apply Zdigits2_unique; [exact Hma | lia]).
  assert (Hdb : Zdigits2 (Zpos mb) = 53) by (apply Zdigits2_unique; [exact Hmb | lia]).
  unfold fdiv, SFdiv, SFdiv_core_binary.
  rewrite Hda, Hdb.
  replace (Z.min (fexp 53 1024 (53 + ea - (53 + eb))) (ea - eb))
    with (ea - eb - 53) by (rewrite fexp_normal; lia).
  replace (ea - eb - (ea - eb - 53)) with 53 by lia.
  cbv iota. rewrite Z.shiftl_mul_pow2 by lia. fold a.
  rewrite div_eucl_div_mod.
  assert (Ha0 : 0 <= a) by (subst a; change (2 ^ 53) with 9007199254740992; lia).
  pose proof (Z.mod_pos_bound a (Zpos mb) ltac:(lia)) as Hr.
  rewrite new_location_loc by lia.
  change (if a mod Zpos mb =? 0 then loc_Exact
          else loc_Inexact (2 * (a mod Zpos mb) ?= Zpos mb))
    with (loc_of a (Zpos mb)).
  assert (Hq : Zdigits2 (a / Zpos mb) - 53 = n).
  { subst n a. change (2 ^ 52) with 4503599627370496 in *.
    change (2 ^ 53) with 9007199254740992 in *.
    destruct (Z.leb_spec (Zpos mb) (Zpos ma)) as [Hle | Hgt].
    - rewrite (Zdigits2_unique _ 54); [lia | | lia].
      change (2 ^ (54 - 1)) with 9007199254740992.
      change (2 ^ 54) with 18014398509481984.
      split; [apply Z.div_le_lower_bound; lia | apply Z.div_lt_upper_bound; lia].
    - rewrite (Zdigits2_unique _ 53); [lia | | lia].
      change (2 ^ (53 - 1)) with 4503599627370496.
      change (2 ^ 53) with 9007199254740992.
      split; [apply Z.div_le_lower_bound; lia | apply Z.div_lt_upper_bound; lia]. }
  pose proof (bra_closed false a (Zpos mb) (ea - eb - 53) ltac:(lia) Ha0) as H.
  pose proof (magnitude a (Zpos mb) ltac:(lia) Ha0) as Hmag.
  cbn zeta in H, Hmag. rewrite Hq in H, Hmag.
  assert (Hn : 0 <= n <= 1) by (subst n; destruct (_ <=? _); lia).
  specialize (H ltac:(lia) ltac:(lia) ltac:(lia)). specialize (Hmag ltac:(lia)).
  destruct H as [H _]. cbn [xorb]. rewrite H.
  assert (Hb : 0 < b).
  { subst b. pose proof (Z.pow_pos_nonneg 2 n ltac:(lia) ltac:(lia)). lia. }
  tauto.
Qed.

Lemma fdiv_zero_l (s : bool) (mb : positive) (eb : Z) :
  fdiv (S754_zero s) (S754_finite false mb eb) = S754_zero s.
Proof. cbn. now destruct s. Qed.

Lemma fdiv_normal (a b : float64) (mb : positive) (eb : Z) :
  normal (-52) 11 a -> b = S754_finite false mb eb -> normal (-52) 11 b ->
  normal (-116) 12 (fdiv a b).
Proof.
  intros Ha -> (_ & Hmb & Heb).
  destruct a as [s | s | | s ma ea]; try contradiction.
  - cbn in Ha. subst s. rewrite fdiv_zero_l. reflexivity.
  - destruct Ha as (-> & Hma & Hea).
    destruct (fdiv_closed ma mb ea eb Hma Hmb ltac:(lia) ltac:(lia))
      as (-> & Hb & Hmag).
    assert (Hn : 0 <= (if Zpos mb <=? Zpos ma then 1 else 0) <= 1)
      by (destruct (_ <=? _); lia).
    apply canon_normal; [apply rnd_int_bounds; lia | lia | lia].
Qed.

(** Division by a fixed positive float is monotone. *)
Lemma fdiv_mono (a1 a2 b : float64) (mb : positive) (eb : Z) :
  normal (-52) 11 a1 -> normal (-52) 11 a2 ->
  b = S754_finite false mb eb -> normal (-52) 11 b ->
  fle a1 a2 -> fle (fdiv a1 b) (fdiv a2 b).
Proof.
  intros Ha1 Ha2 -> (_ & Hmb & Heb) Hle.
  destruct a2 as [s2 | s2 | | s2 m2 e2]; try contradiction.
  { destruct a1 as [s1 | | | [|] ]; try contradiction. rewrite !fdiv_zero_l. exact I. }
  destruct Ha2 as (-> & Hm2 & He2).
  destruct (fdiv_closed m2 mb e2 eb Hm2 Hmb ltac:(lia) ltac:(lia))
    as (E2 & Hb2 & Hmag2).
  destruct a1 as [s1 | s1 | | s1 m1 e1]; try contradiction.
  { rewrite fdiv_zero_l, E2. unfold canon. cbn. now destruct (_ =? _). }
  destruct Ha1 as (-> & Hm1 & He1).
  destruct (fdiv_closed m1 mb e1 eb Hm1 Hmb ltac:(lia) ltac:(lia))
    as (E1 & Hb1 & Hmag1).
  rewrite E1, E2. cbn in Hle.
  apply rounded_fle; try lia.
  change (2 ^ 52) with 4503599627370496 in *.
  change (2 ^ 53) with 9007199254740992 in *.
  assert (Hcase : e1 + 1 < e2 \/ e1 + 1 = e2 \/ (e1 = e2 /\ Zpos m1 <= Zpos m2))
    by lia.
  clear Hle E1 E2.
  destruct (Z.leb_spec (Zpos mb) (Zpos m1)), (Z.leb_spec (Zpos mb) (Zpos m2));
    change (2 ^ 1) with 2 in *; change (2 ^ 0) with 1 in *;
    destruct Hcase as [Hlt | [Hsucc | [Heq Hm]]];
    first [ left; lia | right; split; [lia | nia] ].
Qed.

(** The product of two normal floats: the product of the significands has
    105 or 106 bits before rounding. *)
Lemma fmul_closed (md mp : positive) (ed ep : Z) :
  2 ^ 52 <= Zpos md < 2 ^ 53 -> 2 ^ 52 <= Zpos mp < 2 ^ 53 ->
  -400 <= ed <= 400 -> -400 <= ep <= 400 ->
  let n := if 2 ^ 105 <=? Zpos md * Zpos mp then 53 else 52 in
  fmul (S754_finite false md ed) (S754_finite false mp ep)
    = canon false (rnd_int (Zpos md * Zpos mp) (2 ^ n)) (ed + ep + n) /\
  2 ^ 52 * 2 ^ n <= Zpos md * Zpos mp < 2 ^ 53 * 2 ^ n.
Proof.
  intros Hmd Hmp Hed Hep n.
  unfold fmul, SFmul. cbn [xorb]. rewrite Pos2Z.inj_mul.
  set (P := Zpos md * Zpos mp).
  assert (HP : 2 ^ 104 <= P < 2 ^ 106).
  { subst P. change (2 ^ 52) with 4503599627370496 in *.
    change (2 ^ 53) with 9007199254740992 in *.
    change (2 ^ 104) with (4503599627370496 * 4503599627370496).
    change (2 ^ 106) with (9007199254740992 * 9007199254740992). nia. }
  assert (Hq : Zdigits2 P - 53 = n).
  { subst n. fold P. destruct (Z.leb_spec (2 ^ 105) P) as [Hle | Hgt].
    - rewrite (Zdigits2_unique _ 106); [lia | | lia].
      change (106 - 1) with 105. lia.
    - rewrite (Zdigits2_unique _ 105); [lia | | lia].
      change (105 - 1) with 104. lia. }
  assert (HP0 : 0 <= P).
  { pose proof (Z.pow_pos_nonneg 2 104 ltac:(lia) ltac:(lia)). lia. }
  pose proof (bra_closed false P 1 (ed + ep) ltac:(lia) HP0) as H.
  pose proof (magnitude P 1 ltac:(lia) HP0) as Hmag.
  rewrite Z.div_1_r in H, Hmag. cbn zeta in H, Hmag. rewrite Hq in H, Hmag.
  assert (Hn : 52 <= n <= 53) by (subst n; destruct (_ <=? _); lia).
  clearbody n.
  specialize (H ltac:(lia) ltac:(lia) ltac:(lia)). specialize (Hmag ltac:(lia)).
  rewrite loc_of_exact, Z.mul_1_l in H. rewrite Z.mul_1_l in Hmag.
  destruct H as [H _]. rewrite H. tauto.
Qed.

Lemma fmul_zero_r (md : positive) (ed : Z) (s : bool) :
  fmul (S754_finite false md ed) (S754_zero s) = S754_zero s.
Proof. cbn. now destruct s. Qed.

Lemma fmul_zero_l (p : float64) (lo hi : Z) :
  normal lo hi p -> fmul (S754_zero false) p = S754_zero false.
Proof.
  destruct p as [s | s | | s m e]; try contradiction; cbn.
  - now intros ->.
  - now intros (-> & _).
Qed.

Lemma fmul_one_r (md : positive) (ed : Z) :
  2 ^ 52 <= Zpos md < 2 ^ 53 -> -400 <= ed <= 400 ->
  fmul (S754_finite false md ed) f_one = S754_finite false md ed.
Proof.
  intros Hmd Hed. unfold f_one.
  destruct (fmul_closed md 4503599627370496 ed (-52) Hmd
              ltac:(change (2 ^ 52) with 4503599627370496;
                    change (2 ^ 53) with 9007199254740992; lia)
              Hed ltac:(lia)) as [-> _].
  change (2 ^ 52) with 4503599627370496 in *.
  change (2 ^ 53) with 9007199254740992 in *.
  destruct (Z.leb_spec (2 ^ 105) (Zpos md * 4503599627370496)) as [Hle | Hgt].
  { change (2 ^ 105) with (9007199254740992 * 4503599627370496) in Hle. lia. }
  change (2 ^ 52) with 4503599627370496.
  rewrite rnd_int_exact by lia.
  unfold canon. change (2 ^ 53) with 9007199254740992.
  destruct (Z.eqb_spec (Zpos md) 9007199254740992); [lia |].
  cbn [Z.to_pos]. f_equal. lia.
Qed.

(** Multiplication by a fixed non-negative float is monotone. *)
Lemma fmul_mono (d p1 p2 : float64) :
  normal (-52) 11 d -> normal (-116) 12 p1 -> normal (-116) 12 p2 ->
  fle p1 p2 -> fle (fmul d p1) (fmul d p2).
Proof.
  intros Hd Hp1 Hp2 Hle.
  destruct d as [sd | sd | | sd md ed]; try contradiction.
  { cbn in Hd. subst sd.
    rewrite (fmul_zero_l p1 _ _ Hp1), (fmul_zero_l p2 _ _ Hp2). exact I. }
  destruct Hd as (-> & Hmd & Hed).
  destruct p2 as [s2 | s2 | | s2 m2 e2]; try contradiction.
  { destruct p1 as [s1 | | | [|] ]; try contradiction. rewrite !fmul_zero_r. exact I. }
  destruct Hp2 as (-> & Hm2 & He2).
  destruct (fmul_closed md m2 ed e2 Hmd Hm2 ltac:(lia) ltac:(lia)) as (E2 & Hmag2).
  destruct p1 as [s1 | s1 | | s1 m1 e1]; try contradiction.
  { rewrite fmul_zero_r, E2. unfold canon. cbn. now destruct (_ =? _). }
  destruct Hp1 as (-> & Hm1 & He1).
  destruct (fmul_closed md m1 ed e1 Hmd Hm1 ltac:(lia) ltac:(lia)) as (E1 & Hmag1).
  rewrite E1, E2. cbn in Hle.
  assert (Hpow : forall n, 52 <= n <= 53 -> 0 < 2 ^ n)
    by (intros; apply Z.pow_pos_nonneg; lia).
  apply rounded_fle;
    try (apply Hpow; destruct (_ <=? _); lia); try lia.
  change (2 ^ 52) with 4503599627370496 in *.
  change (2 ^ 53) with 9007199254740992 in *.
  assert (Hcase : e1 + 1 < e2 \/ e1 + 1 = e2 \/ (e1 = e2 /\ Zpos m1 <= Zpos m2))
    by lia.
  clear Hle E1 E2.
  destruct (Z.leb_spec (2 ^ 105) (Zpos md * Zpos m1)),
           (Z.leb_spec (2 ^ 105) (Zpos md * Zpos m2));
    change (2 ^ 105) with 40564819207303340847894502572032 in *;
    destruct Hcase as [Hlt | [Hsucc | [Heq Hm]]];
    first [ left; lia | right; split; [lia | nia] | exfalso; nia ].
Qed.

Lemma calculateDynamicLoad_eq (elapsed total maxWorkers maxBatch : Z) :
  calculateDynamicLoad elapsed total maxWorkers maxBatch =
    if elapsed >=? total then (maxWorkers, maxBatch)
    else (ramp (max 1 (Z.quot maxWorkers 10)) maxWorkers (progress_of elapsed total),
          ramp (max 100 (Z.quot maxBatch 10)) maxBatch (progress_of elapsed total)).
Proof. reflexivity. Qed.

Lemma fgt_one (m : positive) (e : Z) :
  fgt (S754_finite false m e) f_one =
    (-52 <? e) || ((e =? -52) && (2 ^ 52 <? Zpos m)).
Proof.
  unfold fgt, SFltb, f_one, SFcompare.
  destruct (Z.compare_spec (-52) e) as [<- | H | H].
  - change (-52 <? -52) with false. change (-52 =? -52) with true.
    cbn [orb andb].
    change (Pos.compare_cont Eq 4503599627370496 m)
      with (Pos.compare 4503599627370496 m).
    rewrite Pos2Z.inj_compare. change (2 ^ 52) with 4503599627370496.
    unfold Z.ltb. now destruct (_ ?= _).
  - replace (-52 <? e) with true by (symmetry; apply Z.ltb_lt; lia). reflexivity.
  - replace (-52 <? e) with false by (symmetry; apply Z.ltb_ge; lia).
    replace (e =? -52) with false by (symmetry; apply Z.eqb_neq; lia). reflexivity.
Qed.

Lemma f_one_normal : normal (-116) (-52) f_one.
Proof.
  cbn. change (2 ^ 52) with 4503599627370496.
  change (2 ^ 53) with 9007199254740992. lia.
Qed.

(** The clamp [if progress > 1.0 { progress = 1.0 }]. *)
Lemma clamp_normal (p : float64) :
  normal (-116) 12 p ->
  normal (-116) (-52) (if fgt p f_one then f_one else p) /\
  fle (if fgt p f_one then f_one else p) f_one.
Proof.
  destruct p as [s | s | | s m e]; try contradiction.
  - intros ->. cbn. tauto.
  - intros (-> & Hm & He). rewrite fgt_one.
    destruct (Z.ltb_spec (-52) e) as [H1 | H1]; cbn [orb].
    { split; [apply f_one_normal | cbn; lia]. }
    destruct (Z.eqb_spec e (-52)) as [H2 | H2]; cbn [andb].
    + destruct (Z.ltb_spec (2 ^ 52) (Zpos m)) as [H3 | H3].
      * split; [apply f_one_normal | cbn; lia].
      * split; [cbn; lia |]. cbn.
        change (2 ^ 52) with 4503599627370496 in *. lia.
    + split; [cbn; lia | cbn; lia].
Qed.

Lemma clamp_mono (p1 p2 : float64) :
  normal (-116) 12 p1 -> normal (-116) 12 p2 -> fle p1 p2 ->
  fle (if fgt p1 f_one then f_one else p1) (if fgt p2 f_one then f_one else p2).
Proof.
  intros H1 H2 Hle.
  destruct p2 as [s2 | s2 | | s2 m2 e2]; try contradiction.
  { destruct p1 as [s1 | | | [|] ]; try contradiction. exact I. }
  destruct H2 as (-> & Hm2 & He2).
  destruct p1 as [s1 | s1 | | s1 m1 e1]; try contradiction.
  { change (fgt (S754_zero s1) f_one) with false. cbv iota.
    destruct (fgt _ f_one); exact I. }
  destruct H1 as (-> & Hm1 & He1). cbn in Hle.
  rewrite !fgt_one.
  change (2 ^ 52) with 4503599627370496 in *.
  destruct (Z.ltb_spec (-52) e1), (Z.ltb_spec (-52) e2),
           (Z.eqb_spec e1 (-52)), (Z.eqb_spec e2 (-52)),
           (Z.ltb_spec 4503599627370496 (Zpos m1)),
           (Z.ltb_spec 4503599627370496 (Zpos m2));
    cbn [orb andb]; unfold f_one; cbn [fle]; lia.
Qed.

Lemma progress_normal (elapsed total : Z) :
  0 <= elapsed < 2 ^ 63 -> 0 < total < 2 ^ 63 ->
  normal (-116) (-52) (progress_of elapsed total) /\
  fle (progress_of elapsed total) f_one.
Proof.
  intros He Ht. unfold progress_of. cbv zeta.
  apply clamp_normal.
  destruct (float64_of_int_finite total ltac:(lia) ltac:(lia)) as (m & e & Hfin).
  replace (total <? 0) with false in Hfin by (symmetry; apply Z.ltb_ge; lia).
  eapply fdiv_normal; [| exact Hfin |].
  - apply float64_of_int_normal; lia.
  - apply float64_of_int_normal; lia.
Qed.

Lemma progress_mono (e1 e2 total : Z) :
  0 <= e1 <= e2 -> e2 < 2 ^ 63 -> 0 < total < 2 ^ 63 ->
  fle (progress_of e1 total) (progress_of e2 total).
Proof.
  intros He He2 Ht. unfold progress_of. cbv zeta.
  destruct (float64_of_int_finite total ltac:(lia) ltac:(lia)) as (m & e & Hfin).
  replace (total <? 0) with false in Hfin by (symmetry; apply Z.ltb_ge; lia).
  pose proof (float64_of_int_normal total ltac:(lia)) as Hnt.
  pose proof (float64_of_int_normal e1 ltac:(lia)) as Hn1.
  pose proof (float64_of_int_normal e2 ltac:(lia)) as Hn2.
  apply clamp_mono.
  - eapply fdiv_normal; eauto.
  - eapply fdiv_normal; eauto.
  - eapply fdiv_mono; eauto. apply float64_of_int_mono; lia.
Qed.

Lemma fmul_normal (d p : float64) :
  normal (-52) 11 d -> normal (-116) 12 p -> normal (-200) 200 (fmul d p).
Proof.
  intros Hd Hp.
  destruct d as [sd | sd | | sd md ed]; try contradiction.
  { cbn in Hd. subst sd. rewrite (fmul_zero_l p _ _ Hp). reflexivity. }
  destruct Hd as (-> & Hmd & Hed).
  destruct p as [s | s | | s m e]; try contradiction.
  { cbn in Hp. subst s. rewrite fmul_zero_r. reflexivity. }
  destruct Hp as (-> & Hm & He).
  destruct (fmul_closed md m ed e Hmd Hm ltac:(lia) ltac:(lia)) as (-> & Hmag).
  assert (Hn : 52 <= (if 2 ^ 105 <=? Zpos md * Zpos m then 53 else 52) <= 53)
    by (destruct (_ <=? _); lia).
  apply canon_normal; [| lia | lia].
  apply rnd_int_bounds; [apply Z.pow_pos_nonneg; lia | lia | lia].
Qed.

Lemma fvalue_fle (f1 f2 : float64) :
  normal (-200) 200 f1 -> normal (-200) 200 f2 -> fle f1 f2 ->
  0 <= fvalue f1 <= fvalue f2.
Proof.
  intros H1 H2 Hle.
  destruct f2 as [s2 | s2 | | s2 m2 e2]; try contradiction.
  { destruct f1 as [s1 | | | [|] ]; try contradiction. cbn. lia. }
  pose proof H2 as (-> & _).
  destruct f1 as [s1 | s1 | | s1 m1 e1]; try contradiction.
  - cbn [fvalue].
    assert (Hrefl : fle (S754_finite false m2 e2) (S754_finite false m2 e2))
      by (cbn; lia).
    pose proof (shiftl_fle m2 m2 e2 e2 H2 H2 Hrefl). destruct s1; lia.
  - pose proof H1 as (-> & _). cbn [fvalue]. now apply shiftl_fle.
Qed.

Lemma int_of_float64_value (f : float64) :
  normal (-200) 200 f -> fvalue f <= int64_max -> int_of_float64 f = fvalue f.
Proof.
  intros Hn Hmax.
  destruct f as [s | s | | s m e]; try contradiction; [now destruct s |].
  pose proof Hn as (-> & _).
  assert (Hrefl : fle (S754_finite false m e) (S754_finite false m e))
    by (cbn; lia).
  pose proof (shiftl_fle m m e e Hn Hn Hrefl) as H0.
  cbn [fvalue] in Hmax. cbn [int_of_float64 cond_Zopp fvalue].
  unfold int64_min, int64_max in *.
  destruct (Z.leb_spec (- 2 ^ 63) (Z.shiftl (Zpos m) e)),
           (Z.leb_spec (Z.shiftl (Zpos m) e) (2 ^ 63 - 1)); cbn [andb]; lia.
Qed.

Lemma fvalue_of_int (z : Z) :
  0 <= z < 2 ^ 53 -> fvalue (float64_of_int z) = z.
Proof.
  intros Hz. destruct (Z.eq_dec z 0) as [-> | Hz0]; [reflexivity |].
  destruct (float64_of_int_small z ltac:(lia)) as (m & e & -> & Hs & He).
  exact Hs.
Qed.

Lemma fmul_one_normal (d : float64) :
  normal (-52) 11 d -> fmul d f_one = d.
Proof.
  destruct d as [s | s | | s m e]; try contradiction.
  - intros ->. reflexivity.
  - intros (-> & Hm & He). apply fmul_one_r; lia.
Qed.

Lemma normal_weaken (lo hi lo' hi' : Z) (f : float64) :
  lo' <= lo -> hi <= hi' -> normal lo hi f -> normal lo' hi' f.
Proof.
  intros Hlo Hhi. destruct f as [| | | s m e]; unfold normal; try tauto.
  intros (Hs & Hm & He). repeat split; try tauto; lia.
Qed.

(** The interpolation term [int(float64(d) * progress)] lies in [[0, d]]
    and grows with the progress. *)
Lemma interp_mono (d : Z) (p1 p2 : float64) :
  0 <= d < 2 ^ 53 ->
  normal (-116) (-52) p1 -> normal (-116) (-52) p2 ->
  fle p1 p2 -> fle p2 f_one ->
  0 <= int_of_float64 (fmul (float64_of_int d) p1)
    <= int_of_float64 (fmul (float64_of_int d) p2) /\
  int_of_float64 (fmul (float64_of_int d) p2) <= d.
Proof.
  intros Hd Hp1 Hp2 Hle Hle2.
  assert (Hd63 : 0 <= d < 2 ^ 63).
  { change (2 ^ 53) with 9007199254740992 in Hd.
    change (2 ^ 63) with 9223372036854775808. lia. }
  pose proof (float64_of_int_normal d Hd63) as HD.
  set (D := float64_of_int d) in *.
  pose proof (normal_weaken (-116) (-52) (-116) 12 p1
                ltac:(lia) ltac:(lia) Hp1) as Hp1'.
  pose proof (normal_weaken (-116) (-52) (-116) 12 p2
                ltac:(lia) ltac:(lia) Hp2) as Hp2'.
  pose proof (normal_weaken (-116) (-52) (-116) 12 f_one
                ltac:(lia) ltac:(lia) f_one_normal) as Hone.
  pose proof (fvalue_fle _ _ (fmul_normal D p1 HD Hp1') (fmul_normal D p2 HD Hp2')
                (fmul_mono D p1 p2 HD Hp1' Hp2' Hle)) as H12.
  pose proof (fvalue_fle _ _ (fmul_normal D p2 HD Hp2') (fmul_normal D f_one HD Hone)
                (fmul_mono D p2 f_one HD Hp2' Hone Hle2)) as H2o.
  rewrite (fmul_one_normal D HD) in H2o.
  subst D. rewrite (fvalue_of_int d Hd) in H2o.
  assert (Hmax : d <= int64_max).
  { unfold int64_max. change (2 ^ 53) with 9007199254740992 in Hd.
    change (2 ^ 63) with 9223372036854775808. lia. }
  rewrite !int_of_float64_value; try (apply fmul_normal; assumption); lia.
Qed.

Lemma ramp_eq (start maxv : Z) (p : float64) :
  1 <= start <= maxv -> maxv <= 2 ^ 53 ->
  normal (-116) (-52) p -> fle p f_one ->
  ramp start maxv p
    = start + int_of_float64 (fmul (float64_of_int (maxv - start)) p) /\
  0 <= int_of_float64 (fmul (float64_of_int (maxv - start)) p) <= maxv - start.
Proof.
  intros Hs Hmax Hp Hle. unfold ramp.
  change (2 ^ 53) with 9007199254740992 in Hmax.
  assert (Hd : 0 <= maxv - start < 2 ^ 53)
    by (change (2 ^ 53) with 9007199254740992; lia).
  rewrite (wrap64_small (maxv - start))
    by (unfold in_int64, int64_min, int64_max;
        change (2 ^ 63) with 9223372036854775808; lia).
  assert (Hrefl : fle p p).
  { destruct p as [| | | [|] m e]; try contradiction; cbn; [exact I | lia]. }
  destruct (interp_mono _ p p Hd Hp Hp Hrefl Hle) as [H1 H2].
  split; [| lia].
  apply wrap64_small. unfold in_int64, int64_min, int64_max.
  change (2 ^ 63) with 9223372036854775808. lia.
Qed.

(** One interpolated component stays between its start and its maximum,
    and grows with the progress. *)
Lemma ramp_bounds (start maxv : Z) (p : float64) :
  1 <= start <= maxv -> maxv <= 2 ^ 53 ->
  normal (-116) (-52) p -> fle p f_one ->
  start <= ramp start maxv p <= maxv.
Proof.
  intros Hs Hmax Hp Hle.
  destruct (ramp_eq start maxv p Hs Hmax Hp Hle) as [-> H]. lia.
Qed.

Lemma ramp_mono (start maxv : Z) (p1 p2 : float64) :
  1 <= start <= maxv -> maxv <= 2 ^ 53 ->
  normal (-116) (-52) p1 -> normal (-116) (-52) p2 ->
  fle p1 p2 -> fle p2 f_one ->
  ramp start maxv p1 <= ramp start maxv p2.
Proof.
  intros Hs Hmax Hp1 Hp2 Hle Hle2.
  assert (Hle1 : fle p1 f_one).
  { destruct p1 as [| | | [|] m1 e1]; try contradiction; [exact I |].
    destruct p2 as [| | | [|] m2 e2]; try contradiction.
    cbn in Hle, Hle2 |- *. lia. }
  destruct (ramp_eq start maxv p1 Hs Hmax Hp1 Hle1) as [-> _].
  destruct (ramp_eq start maxv p2 Hs Hmax Hp2 Hle2) as [-> _].
  assert (Hd : 0 <= maxv - start < 2 ^ 53).
  { change (2 ^ 53) with 9007199254740992 in *. lia. }
  destruct (interp_mono _ p1 p2 Hd Hp1 Hp2 Hle Hle2) as [H _]. lia.
Qed.

(** ** The ramp-up scheduler before the deadline *)

Lemma int64_max_val : int64_max = 9223372036854775807.
Proof. reflexivity. Qed.

(** Closes a numeric side condition over the constants of the model. *)
Ltac numbers :=
  unfold Second, int64_max, int64_min;
  change (2 ^ 63) with 9223372036854775808;
  change (2 ^ 53) with 9007199254740992;
  lia.

Lemma start_workers_range (maxWorkers : Z) :
  1 <= maxWorkers -> 1 <= max 1 (Z.quot maxWorkers 10) <= maxWorkers.
Proof.
  intros H. rewrite max_spec.
  pose proof (Z.quot_le_upper_bound maxWorkers 10 maxWorkers ltac:(lia) ltac:(lia)).
  lia.
Qed.

Lemma start_batch_range (maxBatch : Z) :
  100 <= maxBatch -> 100 <= max 100 (Z.quot maxBatch 10) <= maxBatch.
Proof.
  intros H. rewrite max_spec.
  pose proof (Z.quot_le_upper_bound maxBatch 10 maxBatch ltac:(lia) ltac:(lia)).
  lia.
Qed.

(** C10, within the exact integer range of binary64.  For a maximum of at
    most [2^53] workers the worker count stays in [[1, maxWorkers]]; the
    batch component can exceed a maximum below 100. *)
Theorem ramp_workers_in_range (elapsed total maxWorkers maxBatch : Z) :
  0 <= elapsed <= int64_max -> 0 < total <= int64_max ->
  1 <= maxWorkers <= 2 ^ 53 ->
  1 <= fst (calculateDynamicLoad elapsed total maxWorkers maxBatch) <= maxWorkers /\
  snd (calculateDynamicLoad 0 total 1 50) = 100.
Proof.
  intros He Ht HW. rewrite int64_max_val in *. split.
  - rewrite calculateDynamicLoad_eq.
    destruct (Z.geb_spec elapsed total) as [Hge | Hlt]; cbn [fst]; [lia |].
    destruct (progress_normal elapsed total) as [Hn Hle];
      try (change (2 ^ 63) with 9223372036854775808; lia).
    pose proof (start_workers_range maxWorkers ltac:(lia)) as Hs.
    pose proof (ramp_bounds _ maxWorkers _ Hs ltac:(lia) Hn Hle). lia.
  - rewrite calculateDynamicLoad_eq.
    destruct (Z.geb_spec 0 total) as [Hge | Hlt]; [lia |]. cbn [snd].
    unfold progress_of. cbv zeta.
    destruct (float64_of_int_finite total ltac:(lia)
                ltac:(change (2 ^ 63) with 9223372036854775808; lia))
      as (m & e & ->).
    replace (total <? 0) with false by (symmetry; apply Z.ltb_ge; lia).
    reflexivity.
Qed.

Lemma ramp_workers_in_range_witness :
  1 <= fst (calculateDynamicLoad (10 * Second) (30 * Second) 100 10000) <= 100.
Proof.
  apply (ramp_workers_in_range (10 * Second) (30 * Second) 100 10000); numbers.
Defined.

(** Beyond [2^53] the conversion [float64(maxWorkers - startWorkers)] rounds
    up: one nanosecond before the deadline the count is above the maximum
    that is returned at the deadline. *)
Lemma ramp_beyond_exact_range :
  fst (calculateDynamicLoad (2 ^ 54 - 1) (2 ^ 54) 10007999171934438 1000)
    = 10007999171934439 /\
  fst (calculateDynamicLoad (2 ^ 54) (2 ^ 54) 10007999171934438 1000)
    = 10007999171934438.
Proof. vm_compute. split; reflexivity. Qed.

(** C10 as stated fails for a maximum beyond [2^53]: the count passes the
    maximum. *)
Lemma ramp_workers_overshoot :
  ~ (forall elapsed total maxWorkers maxBatch : Z,
       elapsed >= 0 -> total > 0 -> maxWorkers >= 1 -> maxBatch >= 1 ->
       1 <= fst (calculateDynamicLoad elapsed total maxWorkers maxBatch)
         <= maxWorkers).
Proof.
  intros H.
  specialize (H (2 ^ 54 - 1) (2 ^ 54) 10007999171934438 1000).
  destruct H as [_ H]; try (vm_compute; first [discriminate | reflexivity]).
  destruct ramp_beyond_exact_range as [E _]. rewrite E in H. lia.
Qed.

(** C4, where the ramp starts below its maximum.  For maxima of at most
    [2^53] and a batch maximum of at least 100, both components are
    non-decreasing in the elapsed time, across the deadline included. *)
Theorem ramp_monotone (e1 e2 total maxWorkers maxBatch : Z) :
  0 <= e1 <= e2 -> e2 <= int64_max -> 0 < total <= int64_max ->
  1 <= maxWorkers <= 2 ^ 53 -> 100 <= maxBatch <= 2 ^ 53 ->
  fst (calculateDynamicLoad e1 total maxWorkers maxBatch)
    <= fst (calculateDynamicLoad e2 total maxWorkers maxBatch) /\
  snd (calculateDynamicLoad e1 total maxWorkers maxBatch)
    <= snd (calculateDynamicLoad e2 total maxWorkers maxBatch).
Proof.
  intros He He2 Ht HW HB. rewrite int64_max_val in *.
  rewrite !calculateDynamicLoad_eq.
  pose proof (start_workers_range maxWorkers ltac:(lia)) as HsW.
  pose proof (start_batch_range maxBatch ltac:(lia)) as HsB.
  assert (HsB' : 1 <= max 100 (Z.quot maxBatch 10) <= maxBatch) by lia.
  destruct (Z.geb_spec e1 total) as [Hge1 | Hlt1];
    destruct (Z.geb_spec e2 total) as [Hge2 | Hlt2]; cbn [fst snd]; try lia.
  - destruct (progress_normal e1 total) as [Hn Hle];
      try (change (2 ^ 63) with 9223372036854775808; lia).
    pose proof (ramp_bounds _ maxWorkers _ HsW ltac:(lia) Hn Hle).
    pose proof (ramp_bounds _ maxBatch _ HsB' ltac:(lia) Hn Hle). lia.
  - destruct (progress_normal e1 total) as [Hn1 Hle1];
      try (change (2 ^ 63) with 9223372036854775808; lia).
    destruct (progress_normal e2 total) as [Hn2 Hle2];
      try (change (2 ^ 63) with 9223372036854775808; lia).
    assert (Hp : fle (progress_of e1 total) (progress_of e2 total)).
    { apply progress_mono; try lia;
        change (2 ^ 63) with 9223372036854775808; lia. }
    split; apply ramp_mono; assumption || lia.
Qed.

Lemma ramp_monotone_witness :
  fst (calculateDynamicLoad (10 * Second) (30 * Second) 100 10000)
    <= fst (calculateDynamicLoad (20 * Second) (30 * Second) 100 10000) /\
  snd (calculateDynamicLoad (10 * Second) (30 * Second) 100 10000)
    <= snd (calculateDynamicLoad (20 * Second) (30 * Second) 100 10000).
Proof.
  apply (ramp_monotone (10 * Second) (20 * Second) (30 * Second) 100 10000);
    numbers.
Defined.

(** C4 as stated fails: below 100 the batch ramps down from its floor of
    100 (100, then 75 at half time for a maximum of 50); and with a batch
    maximum of at least 100 it still fails beyond [2^53], where the worker
    count drops when the deadline is reached. *)
Lemma ramp_not_monotone :
  ~ (forall e1 e2 total maxWorkers maxBatch : Z,
       0 <= e1 -> e1 <= e2 -> total > 0 -> maxWorkers >= 1 -> maxBatch >= 1 ->
       fst (calculateDynamicLoad e1 total maxWorkers maxBatch)
         <= fst (calculateDynamicLoad e2 total maxWorkers maxBatch) /\
       snd (calculateDynamicLoad e1 total maxWorkers maxBatch)
         <= snd (calculateDynamicLoad e2 total maxWorkers maxBatch)) /\
  ~ (forall e1 e2 total maxWorkers maxBatch : Z,
       0 <= e1 -> e1 <= e2 -> total > 0 -> maxWorkers >= 1 -> maxBatch >= 100 ->
       fst (calculateDynamicLoad e1 total maxWorkers maxBatch)
         <= fst (calculateDynamicLoad e2 total maxWorkers maxBatch) /\
       snd (calculateDynamicLoad e1 total maxWorkers maxBatch)
         <= snd (calculateDynamicLoad e2 total maxWorkers maxBatch)).
Proof.
  split; intros H.
  - specialize (H 0 1 2 1 50).
    destruct H as [_ H]; try lia.
    change (snd (calculateDynamicLoad 0 2 1 50)) with 100 in H.
    change (snd (calculateDynamicLoad 1 2 1 50)) with 75 in H. lia.
  - specialize (H (2 ^ 54 - 1) (2 ^ 54) (2 ^ 54) 10007999171934438 1000).
    destruct H as [H _]; try (vm_compute; first [discriminate | reflexivity]).
    destruct ramp_beyond_exact_range as [E1 E2]. rewrite E1, E2 in H. lia.
Qed.

Lemma int_of_fmul_zero (x : Z) :
  - 2 ^ 63 <= x < 2 ^ 63 ->
  int_of_float64 (fmul (float64_of_int x) (S754_zero false)) = 0.
Proof.
  intros Hx. destruct (Z.eq_dec x 0) as [-> | Hx0]; [reflexivity |].
  destruct (float64_of_int_finite x Hx0 Hx) as (m & e & ->).
  now destruct (x <? 0).
Qed.

Lemma progress_of_zero (total : Z) :
  0 < total < 2 ^ 63 -> progress_of 0 total = S754_zero false.
Proof.
  intros Ht. unfold progress_of. cbv zeta.
  destruct (float64_of_int_finite total ltac:(lia) ltac:(lia)) as (m & e & ->).
  replace (total <? 0) with false by (symmetry; apply Z.ltb_ge; lia).
  reflexivity.
Qed.

(** C5. At [elapsed = 0] the scheduler returns the two starting values. *)
Theorem ramp_start (total maxWorkers maxBatch : Z) :
  0 < total <= int64_max ->
  1 <= maxWorkers <= int64_max -> 1 <= maxBatch <= int64_max ->
  calculateDynamicLoad 0 total maxWorkers maxBatch
    = (max 1 (Z.quot maxWorkers 10), max 100 (Z.quot maxBatch 10)) /\
  max 1 (Z.quot maxWorkers 10) = Z.max 1 (maxWorkers / 10) /\
  max 100 (Z.quot maxBatch 10) = Z.max 100 (maxBatch / 10).
Proof.
  intros Ht HW HB. rewrite int64_max_val in *.
  assert (H63 : 2 ^ 63 = 9223372036854775808) by reflexivity.
  split; [| split; rewrite max_spec, Z.quot_div_nonneg by lia; reflexivity].
  rewrite calculateDynamicLoad_eq.
  destruct (Z.geb_spec 0 total) as [Hge | _]; [lia |].
  rewrite progress_of_zero by lia.
  pose proof (Z.quot_le_upper_bound maxWorkers 10 maxWorkers ltac:(lia) ltac:(lia)).
  pose proof (Z.quot_le_upper_bound maxBatch 10 maxBatch ltac:(lia) ltac:(lia)).
  pose proof (Z.quot_pos maxWorkers 10 ltac:(lia) ltac:(lia)).
  pose proof (Z.quot_pos maxBatch 10 ltac:(lia) ltac:(lia)).
  unfold ramp. rewrite !max_spec.
  rewrite !int_of_fmul_zero
    by (pose proof (wrap64_range (maxWorkers - Z.max 1 (Z.quot maxWorkers 10)));
        pose proof (wrap64_range (maxBatch - Z.max 100 (Z.quot maxBatch 10)));
        unfold in_int64, int64_min, int64_max in *; lia).
  rewrite !Z.add_0_r, !wrap64_small
    by (unfold in_int64, int64_min, int64_max; lia).
  reflexivity.
Qed.

Lemma ramp_start_witness :
  calculateDynamicLoad 0 (30 * Second) 50 5000 = (5, 500).
Proof.
  apply (ramp_start (30 * Second) 50 5000); numbers.
Defined.

(** ** Every goroutine returns *)

Section Liveness.

Context (ph : PhaseSpec) (trace : nat -> list Iteration).

Lemma worker_step_live (bound : nat) (i : nat) (sh : Shared) (w : Worker) :
  live ph bound w ->
  match w with
  | Running _ rest =>
      exists sh' w', worker_step ph i sh w = Some (sh', w') /\
        live ph bound w' /\
        match w' with
        | Running _ rest' => S (length rest') = length rest
        | _ => True
        end
  | _ => worker_step ph i sh w = None
  end.
Proof.
  destruct w as [count [| it rest] | count |]; cbn [live worker_step];
    try reflexivity; try contradiction.
  - intros (H & _). discriminate.
  - intros (Hsee & Hlen & Hall). inversion Hall as [| ? ? Hit Hrest]; subst.
    cbn [sees_deadline existsb] in Hsee.
    destruct (it_now it <? phaseDuration ph).
    + destruct (Z.ltb_spec (unitSize ph it) 0) as [Hneg | _]; [lia |].
      cbn [negb orb] in Hsee. cbn [length] in Hlen.
      destruct (it_err it); eexists _, _; (split; [reflexivity |]);
        cbn [live length]; (split; [| reflexivity]);
        (split; [exact Hsee | split; [lia | exact Hrest]]).
    + eexists _, _. split; [reflexivity |]. cbn. tauto.
Qed.

Lemma run_schedule_app (s1 s2 : list nat) :
  forall sh ws,
  run_schedule ph (s1 ++ s2) sh ws =
    run_schedule ph s2 (fst (run_schedule ph s1 sh ws))
                       (snd (run_schedule ph s1 sh ws)).
Proof.
  induction s1 as [| i s1 IH]; intros sh ws; [reflexivity |].
  cbn [app run_schedule].
  destruct (ws !! i) as [w |]; [| apply IH].
  destruct (worker_step ph i sh w) as [[sh' w'] |]; apply IH.
Qed.

Lemma live_pool_insert (ws : list Worker) (i : nat) (w' : Worker) :
  live_pool ph trace ws -> live ph (length (trace i)) w' ->
  live_pool ph trace (<[i := w']> ws).
Proof.
  intros Hpool Hw' j w Hj.
  destruct (decide (i = j)) as [<- | Hne].
  - destruct (decide (i < length ws)%nat) as [Hlt | Hge].
    + rewrite list_lookup_insert_eq in Hj by exact Hlt. now injection Hj as <-.
    + rewrite list_insert_ge in Hj by lia. now apply Hpool.
  - rewrite list_lookup_insert_ne in Hj by exact Hne. now apply Hpool.
Qed.

(** Any interleaving keeps the pool live and keeps returned goroutines
    returned. *)
Lemma run_schedule_live (sched : list nat) :
  forall sh ws,
  live_pool ph trace ws ->
  live_pool ph trace (snd (run_schedule ph sched sh ws)) /\
  length (snd (run_schedule ph sched sh ws)) = length ws /\
  (forall j, finished_at ws j -> finished_at (snd (run_schedule ph sched sh ws)) j).
Proof.
  induction sched as [| i sched IH]; intros sh ws Hpool; [cbn; tauto |].
  cbn [run_schedule].
  destruct (ws !! i) as [w |] eqn:Hw; [| now apply IH].
  pose proof (worker_step_live _ i sh w (Hpool i w Hw)) as Hstep.
  destruct w as [count rest | count |].
  - destruct Hstep as (sh' & w' & -> & Hlive & _).
    destruct (IH sh' (<[i := w']> ws) (live_pool_insert _ _ _ Hpool Hlive))
      as (H1 & H2 & H3).
    split; [exact H1 | split].
    + rewrite H2. apply length_insert.
    + intros j (c & Hj). apply H3.
      destruct (decide (i = j)) as [<- | Hne]; [congruence |].
      exists c. now rewrite list_lookup_insert_ne.
  - rewrite Hstep. now apply IH.
  - rewrite Hstep. now apply IH.
Qed.

(** Scheduling goroutine [i] for as many steps as it has readings left,
    plus one, lets it return. *)
Lemma run_replicate_finishes (i : nat) (k : nat) :
  forall sh ws,
  live_pool ph trace ws -> (i < length ws)%nat ->
  (forall count rest, ws !! i = Some (Running count rest) -> (length rest < k)%nat) ->
  finished_at (snd (run_schedule ph (replicate k i) sh ws)) i.
Proof.
  induction k as [| k IH]; intros sh ws Hpool Hi Hk.
  - cbn. destruct (lookup_lt_is_Some_2 ws i Hi) as [w Hw].
    pose proof (Hpool i w Hw) as Hlive.
    destruct w as [count rest | count |].
    + specialize (Hk _ _ Hw). lia.
    + now exists count.
    + destruct Hlive.
  - cbn [replicate run_schedule].
    destruct (lookup_lt_is_Some_2 ws i Hi) as [w Hw]. rewrite Hw.
    pose proof (worker_step_live _ i sh w (Hpool i w Hw)) as Hstep.
    destruct w as [count rest | count |].
    + destruct Hstep as (sh' & w' & -> & Hlive & Hlen).
      apply IH.
      * exact (live_pool_insert ws i w' Hpool Hlive).
      * now rewrite length_insert.
      * intros c r Hr. rewrite list_lookup_insert_eq in Hr by exact Hi.
        injection Hr as ->. specialize (Hk _ _ Hw). lia.
    + rewrite Hstep.
      destruct (run_schedule_live (replicate k i) sh ws Hpool)
        as (_ & _ & H).
      apply H. now exists count.
    + destruct (Hpool i _ Hw).
Qed.

Lemma run_drain_finishes (ids : list nat) :
  forall sh ws,
  live_pool ph trace ws -> (forall i, In i ids -> (i < length ws)%nat) ->
  forall i, In i ids ->
  finished_at
    (snd (run_schedule ph
            (flat_map (fun i => replicate (S (length (trace i))) i) ids) sh ws)) i.
Proof.
  induction ids as [| j ids IH]; intros sh ws Hpool Hids i Hi; [destruct Hi |].
  cbn [flat_map]. rewrite run_schedule_app.
  set (r := run_schedule ph (replicate (S (length (trace j))) j) sh ws).
  destruct (run_schedule_live (replicate (S (length (trace j))) j)
              sh ws Hpool) as (Hlive & Hlen & Hkeep). fold r in Hlive, Hlen, Hkeep.
  assert (Hj : finished_at (snd r) j).
  { apply run_replicate_finishes;
      [exact Hpool | apply Hids; now left |].
    intros c rest Hr. destruct (Hpool j _ Hr) as (_ & Hl & _). lia. }
  destruct (run_schedule_live
              (flat_map (fun i => replicate (S (length (trace i))) i) ids)
              (fst r) (snd r) Hlive) as (_ & _ & Hkeep2).
  destruct Hi as [<- | Hi].
  - now apply Hkeep2.
  - apply IH; [exact Hlive | | exact Hi].
    intros i' Hi'. rewrite Hlen. apply Hids. now right.
Qed.

Lemma spawn_live :
  (forall i, (i < Z.to_nat (phaseWorkers ph))%nat ->
     sees_deadline ph (trace i) = true /\
     Forall (fun it => 0 <= unitSize ph it) (trace i)) ->
  live_pool ph trace (spawn ph trace) /\
  length (spawn ph trace) = Z.to_nat (phaseWorkers ph).
Proof.
  intros H. unfold spawn. split.
  - intros i w Hw. rewrite list_lookup_fmap in Hw.
    destruct (seq 0 (Z.to_nat (phaseWorkers ph)) !! i) as [j |] eqn:Hj;
      [| discriminate].
    apply lookup_seq in Hj. destruct Hj as [-> Hlt].
    cbn in Hw. injection Hw as <-. cbn [live].
    destruct (H i Hlt) as [H1 H2]. split; [exact H1 | split; [lia | exact H2]].
  - now rewrite length_map, length_seq.
Qed.

(** A phase whose goroutines all see the deadline and compute no negative
    size is joined, whatever the interleaving and whatever the results of
    the external calls. *)
Lemma run_phase_joins (sched : list nat) :
  (forall i, (i < Z.to_nat (phaseWorkers ph))%nat ->
     sees_deadline ph (trace i) = true /\
     Forall (fun it => 0 <= unitSize ph it) (trace i)) ->
  exists sh, run_phase ph trace sched = Joined sh.
Proof.
  intros H. destruct (spawn_live H) as [Hlive Hlen].
  unfold run_phase. rewrite run_schedule_app.
  set (init := {| totalOps := 0; errlog := [] |}).
  set (r := run_schedule ph sched init (spawn ph trace)).
  destruct (run_schedule_live sched init _ Hlive) as (Hlive1 & Hlen1 & _).
  fold r in Hlive1, Hlen1.
  set (r2 := run_schedule ph (drain ph trace) (fst r) (snd r)).
  destruct (run_schedule_live (drain ph trace) (fst r) (snd r) Hlive1)
    as (Hlive2 & Hlen2 & _). fold r2 in Hlive2, Hlen2.
  assert (Hfin : forall i, (i < length (snd r2))%nat -> finished_at (snd r2) i).
  { intros i Hi. unfold r2, drain. apply run_drain_finishes.
    - exact Hlive1.
    - intros j Hj. apply in_seq in Hj. rewrite Hlen1, Hlen. lia.
    - apply in_seq. rewrite Hlen2, Hlen1, Hlen in Hi. lia. }
  destruct r2 as [sh2 ws2]. cbn [snd] in *.
  assert (Hall : forall w, In w ws2 -> is_finished w = true /\ is_crashed w = false).
  { intros w Hw. apply list_elem_of_In, list_elem_of_lookup in Hw.
    destruct Hw as [i Hi].
    destruct (Hfin i (lookup_lt_Some _ _ _ Hi)) as [c Hc].
    rewrite Hi in Hc. injection Hc as ->. now split. }
  replace (existsb is_crashed ws2) with false.
  - replace (forallb is_finished ws2) with true; [now exists sh2 |].
    symmetry. apply forallb_forall. intros w Hw. now apply Hall.
  - symmetry. apply not_true_is_false. intros Hex.
    apply existsb_exists in Hex. destruct Hex as (w & Hw & Hc).
    destruct (Hall w Hw) as [_ Hnc]. congruence.
Qed.

End Liveness.

(** ** Failures of single operations *)

Lemma ramp_batch_range (elapsed total maxWorkers maxBatch : Z) :
  0 <= elapsed <= int64_max -> total <= int64_max ->
  100 <= maxBatch <= 2 ^ 53 ->
  100 <= snd (calculateDynamicLoad elapsed total maxWorkers maxBatch) <= maxBatch.
Proof.
  intros He Ht HB. rewrite int64_max_val in *.
  rewrite calculateDynamicLoad_eq.
  destruct (Z.geb_spec elapsed total) as [Hge | Hlt]; cbn [snd]; [lia |].
  destruct (progress_normal elapsed total) as [Hn Hle];
    try (change (2 ^ 63) with 9223372036854775808; lia).
  pose proof (start_batch_range maxBatch ltac:(lia)) as Hs.
  assert (Hs' : 1 <= max 100 (Z.quot maxBatch 10) <= maxBatch) by lia.
  pose proof (ramp_bounds _ maxBatch _ Hs' ltac:(lia) Hn Hle). lia.
Qed.

Lemma pressureSettings_range (s : string) :
  100 <= batchSize (pressureSettings s) <= 2 ^ 53 /\
  1 <= numConcurrentGoroutines (pressureSettings s) <= 100.
Proof.
  rewrite pressureSettings_cases.
  change (2 ^ 53) with 9007199254740992.
  repeat (destruct (String.eqb s _); [cbn; lia |]). cbn. lia.
Qed.

Lemma unitSize_insert_nonneg (cfg : Config) (s : string) (it : Iteration) :
  in_int64 (duration cfg) -> 0 <= it_since it <= int64_max ->
  0 <= unitSize (insertPhase cfg (pressureSettings s)) it.
Proof.
  intros [_ Hd] Hit. unfold unitSize. cbn [operationKind insertPhase phaseRampUp
    phaseDuration phaseWorkers phaseBatchSize].
  destruct (pressureSettings_range s) as [HB _].
  destruct (rampUp cfg); [| lia].
  pose proof (ramp_batch_range (it_since it) (duration cfg)
                (numConcurrentGoroutines (pressureSettings s))
                (batchSize (pressureSettings s)) Hit Hd HB). lia.
Qed.

(** C2.  In [main.go], a pass whose insert or search call fails writes
    its log line and leaves the counter and the worker's own count as they were: the worker
    goes on with its next pass.  And when no setup or teardown call fails
    and every worker's clock reaches the deadline, the run goes through all
    its steps to the report with exit status 0, whichever calls of the two
    phases failed. *)
Theorem operation_failure_is_not_fatal (cfg : Config) (env : Env) :
  let p := pressureSettings (pressure cfg) in
  in_int64 (duration cfg) ->
  (forall i it, In it (insert_trace env i) -> 0 <= it_since it <= int64_max) ->
  (forall ph id sh count it rest,
     (ph = insertPhase cfg p /\ 0 <= it_since it <= int64_max) \/
     ph = searchPhase cfg p ->
     it_now it < phaseDuration ph -> it_err it = true ->
     worker_step ph id sh (Running count (it :: rest)) =
       Some ({| totalOps := totalOps sh;
                errlog := errlog sh ++ [failure ph id count] |},
             Running count rest)) /\
  (showHelp cfg = false ->
   (forall s, step_fails env s = false) ->
   (forall i, (i < Z.to_nat (numConcurrentGoroutines p))%nat ->
      sees_deadline (insertPhase cfg p) (insert_trace env i) = true /\
      sees_deadline (searchPhase cfg p) (search_trace env i) = true) ->
   exists r,
     outcome (main cfg env) = Reported r /\
     states (main cfg env) = all_states /\
     exit_status (outcome (main cfg env)) = Some 0 /\
     rep_vectorsInserted r
       = wrap64 (completed_all (insertPhase cfg p) (insert_trace env)) /\
     rep_searchesPerformed r
       = wrap64 (completed_all (searchPhase cfg p) (search_trace env))).
Proof.
  intros p Hdur Hclock. split.
  - intros ph id sh count it rest Hph Hnow Herr.
    assert (Hsize : 0 <= unitSize ph it).
    { destruct Hph as [[-> Hit] | ->].
      - now apply unitSize_insert_nonneg.
      - cbn. lia. }
    cbn [worker_step].
    replace (it_now it <? phaseDuration ph) with true
      by (symmetry; apply Z.ltb_lt; exact Hnow).
    replace (unitSize ph it <? 0) with false
      by (symmetry; apply Z.ltb_ge; exact Hsize).
    rewrite Herr. reflexivity.
  - intros Hhelp Hok Hsee.
    destruct (run_phase_joins (insertPhase cfg p) (insert_trace env)
                (insert_schedule env)) as [ins Hins].
    { intros i Hi. split; [apply (Hsee i Hi) |].
      apply Forall_forall. intros it Hit.
      apply unitSize_insert_nonneg; [exact Hdur |].
      apply (Hclock i). now apply list_elem_of_In. }
    destruct (run_phase_joins (searchPhase cfg p) (search_trace env)
                (search_schedule env)) as [srch Hsrch].
    { intros i Hi. split; [apply (Hsee i Hi) |].
      apply Forall_forall. intros it _. cbn. lia. }
    pose proof (Hok Connect) as H1. pose proof (Hok EnsureCleanCollection) as H2.
    pose proof (Hok CreateCollection) as H3. pose proof (Hok Flush) as H4.
    pose proof (Hok CreateIndex) as H5. pose proof (Hok LoadCollection) as H6.
    pose proof (Hok Cleanup) as H7. cbn in H1, H2, H3, H4, H5, H6, H7.
    apply orb_false_iff in H2. destruct H2 as [H2 H2'].
    unfold main, orchestrate. rewrite Hhelp. fold p.
    rewrite Hins, Hsrch, H1, H2, H2', H3, H4, H5, H6, H7.
    cbn. eexists. split; [reflexivity |].
    split; [reflexivity |]. split; [reflexivity |].
    split; [exact (run_phase_counter _ _ _ _ Hins)
           | exact (run_phase_counter _ _ _ _ Hsrch)].
Qed.

Lemma operation_failure_is_not_fatal_witness :
  (exists r, outcome (main sample_config sample_env) = Reported r /\
             rep_vectorsInserted r = 2500 /\ rep_searchesPerformed r = 5) /\
  worker_step (insertPhase sample_config (pressureSettings "low")) 3
      {| totalOps := 1500; errlog := [] |}
      (Running 1 [ {| it_now := 1; it_since := 2; it_err := true |};
                   {| it_now := 12; it_since := 12; it_err := false |} ])
    = Some ({| totalOps := 1500; errlog := [InsertFailed 3 1] |},
            Running 1 [ {| it_now := 12; it_since := 12; it_err := false |} ]).
Proof.
  assert (Hdur : in_int64 (duration sample_config)).
  { unfold in_int64. cbn. numbers. }
  assert (Hclock : forall i it, In it (insert_trace sample_env i) ->
                     0 <= it_since it <= int64_max).
  { intros i it Hit. cbn in Hit.
    destruct Hit as [<- | [<- | [<- | []]]]; cbn; numbers. }
  destruct (operation_failure_is_not_fatal sample_config sample_env Hdur Hclock)
    as [Hpass Hrun].
  split.
  - destruct Hrun as (r & Hout & _ & _ & Hins & Hsrch).
    + reflexivity.
    + intros s. now destruct s.
    + intros i _. split; reflexivity.
    + exists r. split; [exact Hout |]. split; [exact Hins | exact Hsrch].
  - apply (Hpass (insertPhase sample_config (pressureSettings "low")) 3%nat
             {| totalOps := 1500; errlog := [] |} 1).
    + left. split; [reflexivity | cbn; numbers].
    + cbn. lia.
    + reflexivity.
Defined.

(** ** Throughput *)

Lemma shl_align_value (m : positive) (e ez : Z) :
  ez <= e -> Zpos (fst (shl_align m e ez)) = Zpos m * 2 ^ (e - ez).
Proof.
  intros He. unfold shl_align.
  destruct (ez - e) as [| k | k] eqn:Hk; try lia; cbn [fst].
  - replace (e - ez) with 0 by lia. lia.
  - rewrite Zpos_iter_xO. f_equal. f_equal. lia.
Qed.

(** The sum of two positive normal floats is a positive float. *)
Lemma fadd_positive (mx my : positive) (ex ey : Z) :
  normal (-200) 200 (S754_finite false mx ex) ->
  normal (-200) 200 (S754_finite false my ey) ->
  exists m e, fadd (S754_finite false mx ex) (S754_finite false my ey)
              = S754_finite false m e.
Proof.
  intros (_ & Hmx & Hex) (_ & Hmy & Hey).
  unfold fadd, SFadd. cbn [cond_Zopp].
  set (ez := Z.min ex ey).
  rewrite !shl_align_value by (subst ez; lia).
  pose proof (Z.pow_pos_nonneg 2 (ex - ez) ltac:(lia) ltac:(subst ez; lia)) as Hpx.
  pose proof (Z.pow_pos_nonneg 2 (ey - ez) ltac:(lia) ltac:(subst ez; lia)) as Hpy.
  destruct (Zpos mx * 2 ^ (ex - ez) + Zpos my * 2 ^ (ey - ez)) as [| q | q] eqn:Hq;
    try lia.
  cbn [binary_normalize].
  assert (Hd : 1 <= Zdigits2 (Zpos q) <= 54 + Z.max ex ey - ez).
  { destruct (Zdigits2_bounds (Zpos q) ltac:(lia)) as [Hb Hd1].
    split; [exact Hd1 |].
    destruct (Z_le_gt_dec (Zdigits2 (Zpos q)) (54 + Z.max ex ey - ez)) as [H | H];
      [exact H | exfalso].
    assert (Hpow : 2 ^ (54 + Z.max ex ey - ez) <= 2 ^ (Zdigits2 (Zpos q) - 1))
      by (apply Z.pow_le_mono_r; lia).
    assert (Hsplit : 2 ^ (54 + Z.max ex ey - ez)
                     = 2 ^ 53 * 2 * 2 ^ (Z.max ex ey - ez)).
    { change (2 ^ 53 * 2) with (2 ^ 54).
      rewrite <- Z.pow_add_r by (subst ez; lia). f_equal. lia. }
    assert (Hle1 : 2 ^ (ex - ez) <= 2 ^ (Z.max ex ey - ez))
      by (apply Z.pow_le_mono_r; subst ez; lia).
    assert (Hle2 : 2 ^ (ey - ez) <= 2 ^ (Z.max ex ey - ez))
      by (apply Z.pow_le_mono_r; subst ez; lia).
    rewrite Hsplit in Hpow. destruct Hb as [Hb _]. rewrite <- Hq in Hb at 2.
    change (2 ^ 53) with 9007199254740992 in *.
    set (T := 2 ^ (Z.max ex ey - ez)) in *.
    set (A := 2 ^ (ex - ez)) in *. set (B := 2 ^ (ey - ez)) in *.
    assert (Zpos mx * A < 9007199254740992 * T) by nia.
    assert (Zpos my * B < 9007199254740992 * T) by nia.
    lia. }
  destruct (binary_round_closed false q ez ltac:(subst ez; lia) ltac:(subst ez; lia))
    as (H & Hb & Hmag).
  rewrite H.
  destruct (canon_cases false _ (Zdigits2 (Zpos q) - 53 + ez)
              (rnd_int_bounds _ _ (2 ^ 52) (2 ^ 53) Hb (proj1 Hmag)
                 (Z.lt_le_incl _ _ (proj2 Hmag))))
    as (m & e & -> & _).
  eauto.
Qed.

Lemma f_billion : float64_of_int 1000000000 = S754_finite false 8388608000000000 (-23).
Proof. reflexivity. Qed.

(** [d.Seconds()] of a positive duration is a positive float. *)
Lemma Seconds_positive (d : Z) :
  0 < d <= int64_max -> exists m e, Seconds d = S754_finite false m e.
Proof.
  intros Hd. rewrite int64_max_val in Hd. unfold Seconds, Second.
  pose proof (Z.quot_rem d 1000000000 ltac:(lia)) as Hqr.
  pose proof (Z.rem_bound_pos d 1000000000 ltac:(lia) ltac:(lia)) as Hr.
  pose proof (Z.quot_pos d 1000000000 ltac:(lia) ltac:(lia)) as Hq.
  set (sec := Z.quot d 1000000000) in *. set (nsec := Z.rem d 1000000000) in *.
  assert (H63 : 2 ^ 63 = 9223372036854775808) by reflexivity.
  pose proof (float64_of_int_normal sec ltac:(lia)) as Hns.
  pose proof (float64_of_int_normal nsec ltac:(lia)) as Hnn.
  assert (Hbn : normal (-52) 11 (float64_of_int 1000000000)).
  { apply float64_of_int_normal. lia. }
  pose proof (fdiv_normal _ _ _ _ Hnn f_billion Hbn) as Hny.
  destruct (Z.eq_dec nsec 0) as [Hn0 | Hn0].
  - rewrite Hn0. change (fdiv (float64_of_int 0) (float64_of_int 1000000000))
      with (S754_zero false).
    destruct (float64_of_int_finite sec ltac:(lia) ltac:(lia)) as (m & e & ->).
    replace (sec <? 0) with false by (symmetry; apply Z.ltb_ge; lia).
    now exists m, e.
  - assert (Hy : exists m e, fdiv (float64_of_int nsec) (float64_of_int 1000000000)
                             = S754_finite false m e).
    { destruct (float64_of_int_finite nsec ltac:(lia) ltac:(lia)) as (m & e & Hfin).
      replace (nsec <? 0) with false in Hfin by (symmetry; apply Z.ltb_ge; lia).
      rewrite Hfin in Hnn |- *. destruct Hnn as (_ & Hm & He).
      rewrite f_billion.
      destruct (fdiv_closed m 8388608000000000 e (-23) Hm
                  ltac:(change (2 ^ 52) with 4503599627370496;
                        change (2 ^ 53) with 9007199254740992; lia)
                  ltac:(lia) ltac:(lia)) as (-> & Hb & Hmag).
      destruct (canon_cases false _
                  (e - -23 - 53 +
                   (if Zpos 8388608000000000 <=? Zpos m then 1 else 0))
                  (rnd_int_bounds _ _ (2 ^ 52) (2 ^ 53) Hb (proj1 Hmag)
                     (Z.lt_le_incl _ _ (proj2 Hmag))))
        as (m' & e' & -> & _).
      eauto. }
    destruct Hy as (my & ey & Hy). rewrite Hy in Hny |- *.
    destruct (Z.eq_dec sec 0) as [Hs0 | Hs0].
    + rewrite Hs0. now exists my, ey.
    + destruct (float64_of_int_finite sec ltac:(lia) ltac:(lia)) as (mx & ex & Hx).
      replace (sec <? 0) with false in Hx by (symmetry; apply Z.ltb_ge; lia).
      rewrite Hx in Hns |- *.
      apply fadd_positive.
      * apply (normal_weaken (-52) 11); [lia | lia | exact Hns].
      * apply (normal_weaken (-116) 12); [lia | lia | exact Hny].
Qed.





(** ** The fixed-count copies *)

Lemma insertedBatches_all (err : nat -> bool) (numBatches : nat) :
  forall j,
  (forall k, (j <= k < j + numBatches)%nat -> err k = false) ->
  insertedBatches err j numBatches = numBatches.
Proof.
  induction numBatches as [| n IH]; intros j Hok; [reflexivity |].
  cbn [insertedBatches]. rewrite (Hok j) by lia. f_equal.
  apply IH. intros k Hk. apply Hok. lia.
Qed.

(** There a goroutine stops at its first failed insert... *)
Lemma insertedBatches_stops (err : nat -> bool) (numBatches : nat) :
  forall j first,
  (j <= first < j + numBatches)%nat ->
  (forall k, (j <= k < first)%nat -> err k = false) -> err first = true ->
  insertedBatches err j numBatches = (first - j)%nat.
Proof.
  induction numBatches as [| n IH]; intros j first Hf Hok Herr; [lia |].
  cbn [insertedBatches].
  destruct (Nat.eq_dec j first) as [-> | Hne].
  - rewrite Herr. lia.
  - rewrite (Hok j) by lia. rewrite (IH (S j) first) by (try lia; auto with lia).
    lia.
Qed.

(** ... while the printed total stays the planned product, which is what
    the counter of [main.go] shows when every call succeeds. *)
Lemma totalInserts_planned (workers batches size : Z) :
  in_int64 (workers * batches) -> in_int64 (workers * batches * size) ->
  totalInserts workers batches size = workers * batches * size.
Proof.
  intros H1 H2. unfold totalInserts. now rewrite (wrap64_small _ H1), wrap64_small.
Qed.

(** ** Invariants of the pool of a phase *)

Section Pool.

Context (ph : PhaseSpec).

Lemma failures_cons (it : Iteration) (rest : list Iteration) :
  failures ph (it :: rest) =
    if it_now it <? phaseDuration ph
    then (if it_err it then 1 else 0) + failures ph rest
    else 0.
Proof.
  unfold failures. cbn [passes].
  destruct (it_now it <? phaseDuration ph); [| reflexivity].
  cbn [List.filter]. destruct (it_err it); cbn [length]; lia.
Qed.

Lemma successes_cons (it : Iteration) (rest : list Iteration) :
  successes ph (it :: rest) =
    if it_now it <? phaseDuration ph
    then (if it_err it then 0 else 1) + successes ph rest
    else 0.
Proof.
  unfold successes. cbn [passes].
  destruct (it_now it <? phaseDuration ph); [| reflexivity].
  cbn [List.filter]. destruct (it_err it); cbn [negb length]; lia.
Qed.

Lemma completed_nonneg (rest : list Iteration) :
  Forall (fun it => 0 <= unitSize ph it) rest -> 0 <= completed ph rest.
Proof.
  induction 1 as [| it rest Hit _ IH]; [reflexivity |].
  rewrite completed_cons.
  destruct (it_now it <? phaseDuration ph); [| lia].
  destruct (it_err it); lia.
Qed.

Lemma pending_nonneg (w : Worker) : safe ph w -> 0 <= pending ph w.
Proof.
  destruct w; cbn [safe pending]; [apply completed_nonneg | lia | lia].
Qed.

Lemma pending_all_nonneg (ws : list Worker) :
  Forall (safe ph) ws -> 0 <= pending_all ph ws.
Proof.
  induction 1 as [| w ws Hw _ IH]; [reflexivity |].
  change (pending_all ph (w :: ws)) with (pending ph w + pending_all ph ws).
  pose proof (pending_nonneg w Hw). lia.
Qed.

Lemma pending_le_all (ws : list Worker) (i : nat) (w : Worker) :
  Forall (safe ph) ws -> ws !! i = Some w -> pending ph w <= pending_all ph ws.
Proof.
  intros Hs. revert i. induction Hs as [| x ws Hx Hs IH]; intros [| i] Hi;
    try discriminate;
    change (pending_all ph (x :: ws)) with (pending ph x + pending_all ph ws).
  - injection Hi as ->. pose proof (pending_all_nonneg ws Hs). lia.
  - pose proof (IH i Hi). pose proof (pending_nonneg x Hx). lia.
Qed.

(** A step of a goroutine that is not going to panic: the counter grows by
    what leaves the pending sum. *)
Lemma worker_step_safe (i : nat) (sh sh' : Shared) (w w' : Worker) (T : Z) :
  safe ph w -> 0 <= totalOps sh -> totalOps sh + pending ph w <= T <= int64_max ->
  worker_step ph i sh w = Some (sh', w') ->
  safe ph w' /\ totalOps sh <= totalOps sh' /\
  totalOps sh' + pending ph w' = totalOps sh + pending ph w.
Proof.
  destruct w as [count [| it rest] | count |]; cbn [worker_step];
    try discriminate.
  cbn [safe pending]. intros Hall Hsh HT. rewrite completed_cons.
  inversion Hall as [| ? ? Hit Hrest]; subst.
  pose proof (completed_nonneg rest Hrest) as Hc.
  rewrite completed_cons in HT.
  destruct (it_now it <? phaseDuration ph).
  - destruct (Z.ltb_spec (unitSize ph it) 0) as [Hneg | _]; [lia |].
    destruct (it_err it); intros [= <- <-]; cbn [totalOps safe pending].
    + split; [exact Hrest | lia].
    + rewrite wrap64_small
        by (unfold in_int64, int64_min, int64_max in *; lia).
      split; [exact Hrest | lia].
  - intros [= <- <-]. cbn [safe pending]. split; [exact I | lia].
Qed.

Lemma run_schedule_safe (T : Z) (sched : list nat) :
  forall (sh : Shared) (ws : list Worker),
  Forall (safe ph) ws -> 0 <= totalOps sh ->
  totalOps sh + pending_all ph ws = T -> T <= int64_max ->
  let r := run_schedule ph sched sh ws in
  Forall (safe ph) (snd r) /\ totalOps sh <= totalOps (fst r) /\
  totalOps (fst r) + pending_all ph (snd r) = T.
Proof.
  induction sched as [| i sched IH]; intros sh ws Hs Hsh Hsum HT;
    [cbn zeta; cbn [run_schedule fst snd]; split; [exact Hs | lia] |].
  cbn [run_schedule].
  destruct (ws !! i) as [w |] eqn:Hw; [| now apply IH].
  destruct (worker_step ph i sh w) as [[sh1 w1] |] eqn:Hstep; [| now apply IH].
  assert (Hsafe : safe ph w).
  { eapply Forall_lookup_1; [exact Hs | exact Hw]. }
  pose proof (pending_le_all ws i w Hs Hw) as Hle.
  destruct (worker_step_safe i sh sh1 w w1 T Hsafe Hsh ltac:(lia) Hstep)
    as (Hs1 & Hmono & Heq).
  destruct (IH sh1 (<[i := w1]> ws)) as (H1 & H2 & H3).
  - now apply Forall_insert.
  - lia.
  - rewrite (pending_all_insert ph ws i w w1 Hw). lia.
  - exact HT.
  - cbn zeta. split; [exact H1 | split; [lia | exact H3]].
Qed.

Lemma spawn_safe (trace : nat -> list Iteration) :
  (forall i, (i < Z.to_nat (phaseWorkers ph))%nat ->
     Forall (fun it => 0 <= unitSize ph it) (trace i)) ->
  Forall (safe ph) (spawn ph trace).
Proof.
  intros H. unfold spawn. apply Forall_forall. intros w Hw.
  apply list_elem_of_In, in_map_iff in Hw. destruct Hw as (i & <- & Hi).
  apply in_seq in Hi. cbn [safe]. apply H. lia.
Qed.

Lemma safe_no_crash (ws : list Worker) :
  Forall (safe ph) ws -> existsb is_crashed ws = false.
Proof.
  induction 1 as [| w ws Hw _ IH]; [reflexivity |].
  cbn [existsb]. rewrite IH. now destruct w.
Qed.


(** *** The log *)

Lemma unlogged_all_insert (ws : list Worker) (i : nat) (w w' : Worker) :
  ws !! i = Some w ->
  unlogged_all ph (<[i := w']> ws)
    = unlogged_all ph ws - unlogged ph w + unlogged ph w'.
Proof.
  revert i. induction ws as [| x ws IH]; intros [| i] Hi; try discriminate.
  - simpl in Hi. injection Hi as ->. simpl. lia.
  - simpl in Hi. change (<[S i := w']> (x :: ws)) with (x :: <[i := w']> ws).
    change (unlogged_all ph (x :: <[i := w']> ws))
      with (unlogged ph x + unlogged_all ph (<[i := w']> ws)).
    change (unlogged_all ph (x :: ws)) with (unlogged ph x + unlogged_all ph ws).
    rewrite (IH i Hi). lia.
Qed.

Lemma worker_step_logs (i : nat) (sh sh' : Shared) (w w' : Worker) :
  worker_step ph i sh w = Some (sh', w') ->
  (is_crashed w' = false ->
   Z.of_nat (length (errlog sh')) + unlogged ph w'
     = Z.of_nat (length (errlog sh)) + unlogged ph w) /\
  (errlog sh' = errlog sh \/
   exists count, errlog sh' = errlog sh ++ [failure ph i count]).
Proof.
  destruct w as [count [| it rest] | count |]; cbn [worker_step];
    try discriminate.
  cbn [unlogged]. rewrite failures_cons.
  destruct (it_now it <? phaseDuration ph).
  - destruct (unitSize ph it <? 0).
    { intros [= <- <-]. split; [discriminate | now left]. }
    destruct (it_err it); intros [= <- <-]; cbn [errlog unlogged].
    + split; [| right; now exists count].
      intros _. rewrite length_app. cbn [length]. lia.
    + split; [intros _; lia | now left].
  - intros [= <- <-]. cbn [unlogged]. split; [intros _; lia | now left].
Qed.

Lemma run_schedule_logs (sched : list nat) :
  forall (sh : Shared) (ws : list Worker) (sh' : Shared) (ws' : list Worker),
  run_schedule ph sched sh ws = (sh', ws') ->
  (existsb is_crashed ws' = false ->
   Z.of_nat (length (errlog sh')) + unlogged_all ph ws'
     = Z.of_nat (length (errlog sh)) + unlogged_all ph ws) /\
  (Forall (logged_by ph (length ws)) (errlog sh) ->
   Forall (logged_by ph (length ws)) (errlog sh')).
Proof.
  induction sched as [| i sched IH]; intros sh ws sh' ws' Hrun.
  - cbn in Hrun. injection Hrun as <- <-. tauto.
  - cbn in Hrun.
    destruct (ws !! i) as [w |] eqn:Hw; [| eauto].
    destruct (worker_step ph i sh w) as [[sh1 w1] |] eqn:Hstep; [| eauto].
    destruct (IH _ _ _ _ Hrun) as [Hsum Hby].
    destruct (worker_step_logs _ _ _ _ _ Hstep) as [Hacc Hlog].
    split.
    + intros Hok.
      pose proof (run_schedule_no_crash ph _ _ _ _ _ Hrun Hok) as Hmid.
      destruct (worker_step_accounts ph _ _ _ _ _ Hstep) as [Hnc _].
      destruct (crashed_insert _ _ _ _ Hw Hnc Hmid) as [_ Hw1].
      rewrite (Hsum Hok), (unlogged_all_insert _ _ _ _ Hw).
      specialize (Hacc Hw1). lia.
    + intros Hall. rewrite length_insert in Hby. apply Hby.
      destruct Hlog as [-> | [count ->]]; [exact Hall |].
      apply Forall_app. split; [exact Hall |].
      apply Forall_cons. split; [| apply Forall_nil_2].
      exists i, count. split; [| reflexivity].
      exact (lookup_lt_Some _ _ _ Hw).
Qed.

Lemma unlogged_all_spawn (trace : nat -> list Iteration) :
  unlogged_all ph (spawn ph trace) = failures_all ph trace.
Proof.
  unfold spawn, failures_all, unlogged_all.
  generalize (seq 0 (Z.to_nat (phaseWorkers ph))) as ids.
  induction ids as [| i ids IH]; simpl; [reflexivity | now rewrite IH].
Qed.

Lemma unlogged_all_finished (ws : list Worker) :
  forallb is_finished ws = true -> unlogged_all ph ws = 0.
Proof.
  unfold unlogged_all. induction ws as [| w ws IH]; simpl; [reflexivity |].
  intros H. apply andb_true_iff in H. destruct H as [Hw H].
  destruct w; try discriminate. simpl. now rewrite IH.
Qed.


(** *** Goroutines that never return, and the local counts *)

Lemma worker_step_stuck (i : nat) (sh sh' : Shared) (w w' : Worker) :
  stuck ph w -> worker_step ph i sh w = Some (sh', w') -> stuck ph w'.
Proof.
  destruct w as [count [| it rest] | count |]; cbn [worker_step];
    try discriminate.
  cbn [stuck sees_deadline existsb]. intros Hsee.
  apply orb_false_iff in Hsee. destruct Hsee as [Hit Hrest].
  apply negb_false_iff in Hit. rewrite Hit.
  destruct (unitSize ph it <? 0); [intros [= <- <-]; exact I |].
  destruct (it_err it); intros [= <- <-]; exact Hrest.
Qed.

Lemma run_schedule_stuck (j : nat) (sched : list nat) :
  forall (sh : Shared) (ws : list Worker),
  (exists w, ws !! j = Some w /\ stuck ph w) ->
  exists w, snd (run_schedule ph sched sh ws) !! j = Some w /\ stuck ph w.
Proof.
  induction sched as [| i sched IH]; intros sh ws Hj; [exact Hj |].
  cbn [run_schedule].
  destruct (ws !! i) as [w |] eqn:Hw; [| now apply IH].
  destruct (worker_step ph i sh w) as [[sh1 w1] |] eqn:Hstep; [| now apply IH].
  apply IH. destruct Hj as (wj & Hwj & Hst).
  destruct (decide (i = j)) as [-> | Hne].
  - exists w1. split.
    + apply list_lookup_insert_eq. exact (lookup_lt_Some _ _ _ Hw).
    + rewrite Hw in Hwj. injection Hwj as <-.
      exact (worker_step_stuck _ _ _ _ _ Hst Hstep).
  - exists wj. split; [| exact Hst]. now rewrite list_lookup_insert_ne.
Qed.

Lemma worker_step_counts (tr : list Iteration) (i : nat) (sh sh' : Shared)
    (w w' : Worker) :
  counts_successes ph tr w -> worker_step ph i sh w = Some (sh', w') ->
  counts_successes ph tr w'.
Proof.
  destruct w as [count [| it rest] | count |]; cbn [worker_step];
    try discriminate.
  cbn [counts_successes]. rewrite successes_cons. intros [Hc Hsum].
  destruct (it_now it <? phaseDuration ph).
  - destruct (unitSize ph it <? 0); [intros [= <- <-]; exact I |].
    destruct (it_err it); intros [= <- <-]; cbn [counts_successes].
    + split; [exact Hc |]. rewrite <- Hsum. f_equal; lia.
    + split; [apply wrap64_range |]. rewrite <- Hsum.
      rewrite <- Zplus_mod_idemp_l, wrap64_mod, Zplus_mod_idemp_l.
      f_equal; lia.
  - intros [= <- <-]. cbn [counts_successes]. split; [exact Hc |].
    rewrite <- Hsum. f_equal; lia.
Qed.

Lemma run_schedule_counts (trace : nat -> list Iteration) (sched : list nat) :
  forall (sh : Shared) (ws : list Worker),
  (forall j w, ws !! j = Some w -> counts_successes ph (trace j) w) ->
  forall j w, snd (run_schedule ph sched sh ws) !! j = Some w ->
    counts_successes ph (trace j) w.
Proof.
  induction sched as [| i sched IH]; intros sh ws Hall; [exact Hall |].
  cbn [run_schedule].
  destruct (ws !! i) as [w |] eqn:Hw; [| now apply IH].
  destruct (worker_step ph i sh w) as [[sh1 w1] |] eqn:Hstep; [| now apply IH].
  apply IH. intros j wj Hj.
  destruct (decide (i = j)) as [<- | Hne].
  - rewrite list_lookup_insert_eq in Hj by exact (lookup_lt_Some _ _ _ Hw).
    injection Hj as <-.
    exact (worker_step_counts _ _ _ _ _ _ (Hall i w Hw) Hstep).
  - rewrite list_lookup_insert_ne in Hj by exact Hne. now apply Hall.
Qed.

Lemma spawn_lookup (trace : nat -> list Iteration) (j : nat) (w : Worker) :
  spawn ph trace !! j = Some w ->
  (j < Z.to_nat (phaseWorkers ph))%nat /\ w = Running 0 (trace j).
Proof.
  unfold spawn. rewrite list_lookup_fmap.
  destruct (seq 0 (Z.to_nat (phaseWorkers ph)) !! j) as [k |] eqn:Hk;
    [| discriminate].
  apply lookup_seq in Hk. destruct Hk as [-> Hlt].
  cbn. intros [= <-]. now split.
Qed.

Lemma spawn_lookup_lt (trace : nat -> list Iteration) (j : nat) :
  (j < Z.to_nat (phaseWorkers ph))%nat ->
  spawn ph trace !! j = Some (Running 0 (trace j)).
Proof.
  intros Hlt. unfold spawn. rewrite list_lookup_fmap.
  rewrite (proj2 (lookup_seq 0 _ j j)); [reflexivity |].
  split; [reflexivity | exact Hlt].
Qed.

End Pool.

(** ** The course of a phase and of a run *)

Lemma worker_step_keeps_safe (ph : PhaseSpec) (i : nat) (sh sh' : Shared)
    (w w' : Worker) :
  safe ph w -> worker_step ph i sh w = Some (sh', w') -> safe ph w'.
Proof.
  destruct w as [count [| it rest] | count |]; cbn [worker_step];
    try discriminate.
  cbn [safe]. intros Hall. inversion Hall as [| ? ? Hit Hrest]; subst.
  destruct (it_now it <? phaseDuration ph); [| intros [= <- <-]; exact I].
  destruct (Z.ltb_spec (unitSize ph it) 0) as [Hneg | _]; [lia |].
  destruct (it_err it); intros [= <- <-]; exact Hrest.
Qed.

Lemma run_schedule_keeps_safe (ph : PhaseSpec) (sched : list nat) :
  forall (sh : Shared) (ws : list Worker),
  Forall (safe ph) ws -> Forall (safe ph) (snd (run_schedule ph sched sh ws)).
Proof.
  induction sched as [| i sched IH]; intros sh ws Hs; [exact Hs |].
  cbn [run_schedule].
  destruct (ws !! i) as [w |] eqn:Hw; [| now apply IH].
  destruct (worker_step ph i sh w) as [[sh1 w1] |] eqn:Hstep; [| now apply IH].
  apply IH, Forall_insert; [exact Hs |].
  eapply worker_step_keeps_safe; [| exact Hstep].
  eapply Forall_lookup_1; [exact Hs | exact Hw].
Qed.

Lemma run_phase_no_panic (ph : PhaseSpec) (trace : nat -> list Iteration)
    (sched : list nat) :
  (forall i, (i < Z.to_nat (phaseWorkers ph))%nat ->
     Forall (fun it => 0 <= unitSize ph it) (trace i)) ->
  run_phase ph trace sched <> Panic.
Proof.
  intros H. unfold run_phase.
  pose proof (run_schedule_keeps_safe ph (sched ++ drain ph trace)
                {| totalOps := 0; errlog := [] |} _ (spawn_safe ph trace H)) as Hs.
  destruct (run_schedule ph (sched ++ drain ph trace) _ _) as [sh ws].
  cbn [snd] in Hs. rewrite (safe_no_crash ph ws Hs).
  destruct (forallb is_finished ws); discriminate.
Qed.

Lemma run_phase_stuck (ph : PhaseSpec) (trace : nat -> list Iteration)
    (sched : list nat) (i : nat) :
  (i < Z.to_nat (phaseWorkers ph))%nat -> sees_deadline ph (trace i) = false ->
  forall sh, run_phase ph trace sched <> Joined sh.
Proof.
  intros Hi Hsee sh. unfold run_phase.
  destruct (run_schedule_stuck ph i (sched ++ drain ph trace)
              {| totalOps := 0; errlog := [] |} (spawn ph trace))
    as (w & Hw & Hst).
  { exists (Running 0 (trace i)).
    split; [now apply spawn_lookup_lt | exact Hsee]. }
  destruct (run_schedule ph (sched ++ drain ph trace) _ _) as [sh' ws].
  cbn [snd] in Hw.
  destruct (existsb is_crashed ws) eqn:Hcr; [discriminate |].
  destruct (forallb is_finished ws) eqn:Hfin; [| discriminate].
  exfalso. rewrite forallb_forall in Hfin.
  assert (Hin : In w ws).
  { apply list_elem_of_In, list_elem_of_lookup. now exists i. }
  specialize (Hfin w Hin). destruct w; try discriminate. exact Hst.
Qed.

(** Case analysis on a run of [main]: which call failed first, or how the
    phases ended. *)
Ltac run_cases cfg env :=
  unfold main, orchestrate;
  destruct (showHelp cfg) eqn:?;
  [| destruct (connect_err env) eqn:?;
     [| destruct (hasCollection_err env) eqn:?;
        [| destruct (hasCollection env && dropExisting_err env) eqn:?;
           [| destruct (createCollection_err env) eqn:?;
              [| destruct (run_phase (insertPhase cfg _) _ _) as [? | |] eqn:?;
                 [destruct (flush_err env) eqn:?;
                  [| destruct (createIndex_err env) eqn:?;
                     [| destruct (loadCollection_err env) eqn:?;
                        [| destruct (run_phase (searchPhase cfg _) _ _)
                             as [? | |] eqn:?;
                           [destruct (cleanup_err env) eqn:? | |]]]] | |]]]]]];
  cbn [obind enter fatal_if stop oret wait app states outcome exit_status].

(** X1. While a phase runs the shared counter never decreases and never
    exceeds the sum of the sizes of the successful passes: for every
    interleaving [s1] and every continuation [s2] of it the counter after
    [s1] is at most the counter after [s1 ++ s2], provided no pass computes
    a negative size and the sum fits in a 64-bit integer. *)
Theorem counter_never_decreases (ph : PhaseSpec) (trace : nat -> list Iteration)
    (s1 s2 : list nat) :
  (forall i, (i < Z.to_nat (phaseWorkers ph))%nat ->
     Forall (fun it => 0 <= unitSize ph it) (trace i)) ->
  completed_all ph trace <= int64_max ->
  0 <= counter_after ph trace s1 /\
  counter_after ph trace s1 <= counter_after ph trace (s1 ++ s2) /\
  counter_after ph trace (s1 ++ s2) <= completed_all ph trace.
Proof.
  intros Hsizes HT. unfold counter_after.
  set (init := {| totalOps := 0; errlog := [] |}).
  pose proof (spawn_safe ph trace Hsizes) as Hs.
  destruct (run_schedule_safe ph (completed_all ph trace) s1 init (spawn ph trace))
    as (Hs1 & Hm1 & Hsum1);
    [exact Hs | cbn; lia | cbn [init totalOps]; now rewrite pending_all_spawn
     | exact HT |].
  rewrite run_schedule_app.
  set (r := run_schedule ph s1 init (spawn ph trace)) in *.
  destruct (run_schedule_safe ph (completed_all ph trace) s2 (fst r) (snd r))
    as (Hs2 & Hm2 & Hsum2);
    [exact Hs1 | cbn [init totalOps] in Hm1; lia | exact Hsum1 | exact HT |].
  pose proof (pending_all_nonneg ph _ Hs2).
  cbn [init totalOps] in Hm1. lia.
Qed.

Lemma counter_never_decreases_witness :
  counter_after (insertPhase sample_config (pressureSettings "low")) sample_trace
                [3; 0]%nat
  <= counter_after (insertPhase sample_config (pressureSettings "low")) sample_trace
                ([3; 0] ++ [0; 1; 4])%nat.
Proof.
  apply (counter_never_decreases
           (insertPhase sample_config (pressureSettings "low")) sample_trace
           [3; 0]%nat [0; 1; 4]%nat).
  - intros i _. repeat constructor; vm_compute; discriminate.
  - vm_compute. discriminate.
Defined.

(** X2. With a 64-bit duration and non-negative clock readings no insert
    worker ever passes a negative length to [make], whatever the pressure
    level and with or without ramp-up, and a search worker allocates a
    fixed length: neither phase panics and the run never ends with the
    exit status of a panic. *)
Theorem phases_never_panic (cfg : Config) (env : Env) :
  let p := pressureSettings (pressure cfg) in
  in_int64 (duration cfg) ->
  (forall i it, In it (insert_trace env i) -> 0 <= it_since it <= int64_max) ->
  (forall sched,
     run_phase (insertPhase cfg p) (insert_trace env) sched <> Panic) /\
  (forall trace sched, run_phase (searchPhase cfg p) trace sched <> Panic) /\
  outcome (main cfg env) <> Panicked /\
  exit_status (outcome (main cfg env)) <> Some 2.
Proof.
  intros p Hdur Hclock.
  assert (Hins : forall sched,
            run_phase (insertPhase cfg p) (insert_trace env) sched <> Panic).
  { intros sched. apply run_phase_no_panic. intros i _.
    apply Forall_forall. intros it Hit.
    apply unitSize_insert_nonneg; [exact Hdur |].
    apply (Hclock i). now apply list_elem_of_In. }
  assert (Hsrch : forall trace sched,
            run_phase (searchPhase cfg p) trace sched <> Panic).
  { intros trace sched. apply run_phase_no_panic. intros i _.
    apply Forall_forall. intros it _. cbn. lia. }
  split; [exact Hins | split; [exact Hsrch |]].
  specialize (Hins (insert_schedule env)).
  specialize (Hsrch (search_trace env) (search_schedule env)).
  subst p. run_cases cfg env; try (split; discriminate); congruence.
Qed.

Lemma phases_never_panic_witness :
  outcome (main sample_config sample_env) <> Panicked.
Proof.
  apply (phases_never_panic sample_config sample_env).
  - unfold in_int64. cbn. numbers.
  - intros i it Hit. cbn in Hit.
    destruct Hit as [<- | [<- | [<- | []]]]; cbn; numbers.
Defined.

(** X3. Every failed insert or search is logged exactly once: when a
    phase is joined the log holds as many lines as there were failed
    passes, each written by one of the goroutines of the pool, whatever
    the interleaving. *)
Theorem failures_logged_once (ph : PhaseSpec) (trace : nat -> list Iteration)
    (sched : list nat) (sh : Shared) :
  run_phase ph trace sched = Joined sh ->
  Z.of_nat (length (errlog sh)) = failures_all ph trace /\
  Forall (logged_by ph (Z.to_nat (phaseWorkers ph))) (errlog sh).
Proof.
  unfold run_phase.
  destruct (run_schedule ph (sched ++ drain ph trace) _ _) as [sh' ws'] eqn:Hrun.
  destruct (existsb is_crashed ws') eqn:Hcr; [discriminate |].
  destruct (forallb is_finished ws') eqn:Hfin; [| discriminate].
  intros [= <-].
  destruct (run_schedule_logs ph _ _ _ _ _ Hrun) as [Hsum Hby].
  specialize (Hsum Hcr). cbn [errlog length] in Hsum.
  rewrite (unlogged_all_finished ph _ Hfin), unlogged_all_spawn in Hsum.
  split; [lia |].
  replace (Z.to_nat (phaseWorkers ph)) with (length (spawn ph trace))
    by (unfold spawn; now rewrite length_map, length_seq).
  apply Hby. apply Forall_nil_2.
Qed.

Lemma failures_logged_once_witness :
  exists sh,
    run_phase (insertPhase sample_config (pressureSettings "low")) sample_trace
              [3; 0; 0; 1; 4; 2]%nat = Joined sh /\
    Z.of_nat (length (errlog sh)) = 5.
Proof.
  eexists. split; [vm_compute; reflexivity |].
  refine (proj1 (failures_logged_once
            (insertPhase sample_config (pressureSettings "low")) sample_trace
            [3; 0; 0; 1; 4; 2]%nat _ _)).
  vm_compute. reflexivity.
Defined.



(** X5. The count a worker prints when it returns ([Finished after %d
    batches] / [searches]) is the number of its successful passes, as a
    64-bit integer: a failed pass takes the [continue] and skips the
    increment. *)
Theorem worker_count_is_successes (ph : PhaseSpec) (trace : nat -> list Iteration)
    (sched : list nat) (i : nat) (count : Z) :
  pool_after ph trace sched !! i = Some (Finished count) ->
  count = wrap64 (successes ph (trace i)) /\
  (successes ph (trace i) <= int64_max -> count = successes ph (trace i)).
Proof.
  intros Hi.
  assert (H : counts_successes ph (trace i) (Finished count)).
  { apply (run_schedule_counts ph trace sched
             {| totalOps := 0; errlog := [] |} (spawn ph trace)); [| exact Hi].
    intros j w Hj. apply spawn_lookup in Hj. destruct Hj as [_ ->].
    cbn [counts_successes]. split; [unfold in_int64; numbers | reflexivity]. }
  destruct H as [Hc Hmod].
  assert (Heq : count = wrap64 (successes ph (trace i))).
  { apply wrap64_eq_of_mod; assumption. }
  split; [exact Heq |].
  intros Hle. rewrite Heq. apply wrap64_small.
  unfold successes, in_int64 in *. unfold int64_min. lia.
Qed.

Lemma worker_count_is_successes_witness :
  pool_after (insertPhase sample_config (pressureSettings "low")) sample_trace
             [3; 0; 0; 1; 4; 0]%nat !! 0%nat = Some (Finished 1) /\
  1 = wrap64 (successes (insertPhase sample_config (pressureSettings "low"))
                        (sample_trace 0%nat)).
Proof.
  split; [vm_compute; reflexivity |].
  refine (proj1 (worker_count_is_successes
           (insertPhase sample_config (pressureSettings "low")) sample_trace
           [3; 0; 0; 1; 4; 0]%nat 0%nat 1 _)).
  vm_compute. reflexivity.
Defined.

(** X6. The steps of a run are entered in program order without skipping
    or repeating one: the steps of every run are a prefix of the ten steps
    of a complete run. *)
Theorem states_in_program_order (cfg : Config) (env : Env) :
  exists rest, all_states = states (main cfg env) ++ rest.
Proof.
  run_cases cfg env; eexists; reflexivity.
Qed.

(** X7. A report is printed only by a complete run: then no client call
    of the setup or teardown failed, all ten steps were entered, both
    phases were joined, and the report shows the two counters, their
    throughputs and the resolved profile. *)
Theorem report_only_after_success (cfg : Config) (env : Env) (r : TestReport) :
  let p := pressureSettings (pressure cfg) in
  outcome (main cfg env) = Reported r ->
  showHelp cfg = false /\
  (forall s, step_fails env s = false) /\
  states (main cfg env) = all_states /\
  exists ins srch,
    run_phase (insertPhase cfg p) (insert_trace env) (insert_schedule env)
      = Joined ins /\
    run_phase (searchPhase cfg p) (search_trace env) (search_schedule env)
      = Joined srch /\
    rep_vectorsInserted r = totalOps ins /\
    rep_searchesPerformed r = totalOps srch /\
    rep_insertsPerSec r = throughput (totalOps ins) (insertionTime env) /\
    rep_searchesPerSec r = throughput (totalOps srch) (searchTime env) /\
    rep_pressureLevel r = pressureLevel p /\
    rep_workers r = numConcurrentGoroutines p /\
    rep_batchSize r = batchSize p.
Proof.
  intros p. subst p. run_cases cfg env; try discriminate.
  intros [= <-]. split; [reflexivity |]. split.
  - intros s. destruct s; cbn [step_fails]; try assumption; try reflexivity.
    apply orb_false_iff. split; assumption.
  - split; [reflexivity |]. eexists _, _.
    split; [reflexivity |]. split; [reflexivity |].
    cbn. repeat split.
Qed.

Lemma report_only_after_success_witness :
  states (main sample_config sample_env) = all_states.
Proof.
  refine (proj1 (proj2 (proj2 (report_only_after_success sample_config sample_env
                                 _ _)))).
  vm_compute. reflexivity.
Defined.

Lemma main_reports (cfg : Config) (env : Env) (ins srch : Shared) :
  let p := pressureSettings (pressure cfg) in
  showHelp cfg = false ->
  (forall s, step_fails env s = false) ->
  run_phase (insertPhase cfg p) (insert_trace env) (insert_schedule env)
    = Joined ins ->
  run_phase (searchPhase cfg p) (search_trace env) (search_schedule env)
    = Joined srch ->
  main cfg env =
    {| states := all_states;
       outcome := Reported
         {| rep_pressureLevel := pressureLevel p;
            rep_workers := numConcurrentGoroutines p;
            rep_batchSize := batchSize p;
            rep_vectorsInserted := totalOps ins;
            rep_searchesPerformed := totalOps srch;
            rep_insertionTime := insertionTime env;
            rep_insertsPerSec := throughput (totalOps ins) (insertionTime env);
            rep_searchTime := searchTime env;
            rep_searchesPerSec := throughput (totalOps srch) (searchTime env) |} |}.
Proof.
  intros p Hhelp Hok Hins Hsrch.
  pose proof (Hok Connect) as H1. pose proof (Hok EnsureCleanCollection) as H2.
  pose proof (Hok CreateCollection) as H3. pose proof (Hok Flush) as H4.
  pose proof (Hok CreateIndex) as H5. pose proof (Hok LoadCollection) as H6.
  pose proof (Hok Cleanup) as H7. cbn in H1, H2, H3, H4, H5, H6, H7.
  apply orb_false_iff in H2. destruct H2 as [H2 H2'].
  unfold main, orchestrate. rewrite Hhelp. fold p.
  rewrite Hins, Hsrch, H1, H2, H2', H3, H4, H5, H6, H7. reflexivity.
Qed.

Lemma completed_all_zero (ph : PhaseSpec) (trace : nat -> list Iteration) :
  (forall i, (i < Z.to_nat (phaseWorkers ph))%nat -> completed ph (trace i) = 0) ->
  completed_all ph trace = 0.
Proof.
  unfold completed_all. intros H.
  assert (Hin : forall i, In i (seq 0 (Z.to_nat (phaseWorkers ph))) ->
                  completed ph (trace i) = 0).
  { intros i Hi. apply in_seq in Hi. apply H. lia. }
  clear H. induction (seq 0 (Z.to_nat (phaseWorkers ph))) as [| i ids IH];
    [reflexivity |].
  cbn [fold_right]. rewrite (Hin i) by now left.
  rewrite IH; [reflexivity |]. intros j Hj. apply Hin. now right.
Qed.

(** A goroutine whose first clock reading is at or past the deadline makes
    no pass. *)
Lemma no_pass (ph : PhaseSpec) (tr : list Iteration) :
  (exists it rest, tr = it :: rest /\ phaseDuration ph <= it_now it) ->
  sees_deadline ph tr = true /\ completed ph tr = 0.
Proof.
  intros (it & rest & -> & Hit).
  assert (H : (it_now it <? phaseDuration ph) = false) by (apply Z.ltb_ge; lia).
  split.
  - cbn [sees_deadline existsb]. now rewrite H.
  - rewrite completed_cons. now rewrite H.
Qed.

(** X8. The check for a collection left by an earlier run: when no such
    collection exists the drop is not attempted, so its result has no
    effect on the run; when [HasCollection] fails, or the collection
    exists and dropping it fails, the run ends in that step with exit
    status 1, before the collection is created. *)
Theorem existing_collection_check (cfg : Config) (env : Env) :
  (hasCollection env = false ->
   forall b, main cfg (with_dropExisting_err b env) = main cfg env) /\
  (showHelp cfg = false -> connect_err env = false ->
   hasCollection_err env = true \/
   (hasCollection env = true /\ dropExisting_err env = true) ->
   states (main cfg env) = [Connect; EnsureCleanCollection] /\
   (exists msg, outcome (main cfg env) = Fatal msg) /\
   exit_status (outcome (main cfg env)) = Some 1).
Proof.
  split.
  - intros Hno b. unfold main, orchestrate.
    cbn [with_dropExisting_err connect_err hasCollection_err hasCollection
         dropExisting_err createCollection_err insert_trace insert_schedule
         insertionTime flush_err createIndex_err loadCollection_err
         search_trace search_schedule searchTime cleanup_err].
    rewrite Hno. reflexivity.
  - intros Hhelp Hconn Hfail. unfold main, orchestrate. rewrite Hhelp, Hconn.
    destruct Hfail as [-> | [-> ->]].
    + cbn. eauto.
    + destruct (hasCollection_err env); cbn; eauto.
Qed.

Lemma existing_collection_check_witness :
  states (main sample_config sample_env_drop_fails)
    = [Connect; EnsureCleanCollection] /\
  exit_status (outcome (main sample_config sample_env_drop_fails)) = Some 1.
Proof.
  destruct (proj2 (existing_collection_check sample_config sample_env_drop_fails))
    as (Hst & _ & Hexit).
  - reflexivity.
  - reflexivity.
  - right. split; reflexivity.
  - split; [exact Hst | exact Hexit].
Defined.

(** X9. With [--duration 0s] (or a negative duration) every worker leaves
    its loop at the first test of the deadline: when no setup or teardown
    call fails the run is complete, both counters are 0, and both
    throughputs are [+0] for positive elapsed times. *)
Theorem zero_duration_run (cfg : Config) (env : Env) :
  let p := pressureSettings (pressure cfg) in
  int64_min <= duration cfg <= 0 ->
  showHelp cfg = false ->
  (forall s, step_fails env s = false) ->
  (forall i, (i < Z.to_nat (numConcurrentGoroutines p))%nat ->
     (exists it rest, insert_trace env i = it :: rest /\ 0 <= it_now it) /\
     (exists it rest, search_trace env i = it :: rest /\ 0 <= it_now it)) ->
  (forall i it, In it (insert_trace env i) -> 0 <= it_since it <= int64_max) ->
  exists r,
    main cfg env = {| states := all_states; outcome := Reported r |} /\
    rep_vectorsInserted r = 0 /\ rep_searchesPerformed r = 0 /\
    (0 < insertionTime env <= int64_max -> rep_insertsPerSec r = S754_zero false) /\
    (0 < searchTime env <= int64_max -> rep_searchesPerSec r = S754_zero false).
Proof.
  intros p Hdur Hhelp Hok Hfirst Hclock.
  assert (Hsd : searchDuration (duration cfg) <= 0).
  { unfold searchDuration. apply Z.quot_le_upper_bound; lia. }
  assert (Hi : forall i, (i < Z.to_nat (numConcurrentGoroutines p))%nat ->
            sees_deadline (insertPhase cfg p) (insert_trace env i) = true /\
            completed (insertPhase cfg p) (insert_trace env i) = 0).
  { intros i Hlt. apply no_pass.
    destruct (proj1 (Hfirst i Hlt)) as (it & rest & -> & Hit).
    exists it, rest. split; [reflexivity | cbn; lia]. }
  assert (Hs : forall i, (i < Z.to_nat (numConcurrentGoroutines p))%nat ->
            sees_deadline (searchPhase cfg p) (search_trace env i) = true /\
            completed (searchPhase cfg p) (search_trace env i) = 0).
  { intros i Hlt. apply no_pass.
    destruct (proj2 (Hfirst i Hlt)) as (it & rest & -> & Hit).
    exists it, rest. split; [reflexivity | cbn; lia]. }
  destruct (run_phase_joins (insertPhase cfg p) (insert_trace env)
              (insert_schedule env)) as [ins Hins].
  { intros i Hlt. split; [apply (Hi i Hlt) |].
    apply Forall_forall. intros it Hit.
    apply unitSize_insert_nonneg;
      [unfold in_int64, int64_max; lia |].
    apply (Hclock i). now apply list_elem_of_In. }
  destruct (run_phase_joins (searchPhase cfg p) (search_trace env)
              (search_schedule env)) as [srch Hsrch].
  { intros i Hlt. split; [apply (Hs i Hlt) |].
    apply Forall_forall. intros it _. cbn. lia. }
  pose proof (run_phase_counter _ _ _ _ Hins) as Hcount.
  pose proof (run_phase_counter _ _ _ _ Hsrch) as Hcount'.
  rewrite completed_all_zero in Hcount by (intros i Hlt; apply (Hi i Hlt)).
  rewrite completed_all_zero in Hcount' by (intros i Hlt; apply (Hs i Hlt)).
  change (wrap64 0) with 0 in Hcount, Hcount'.
  rewrite (main_reports cfg env ins srch Hhelp Hok Hins Hsrch).
  eexists. split; [reflexivity |]. cbn [rep_vectorsInserted rep_searchesPerformed
    rep_insertsPerSec rep_searchesPerSec]. rewrite Hcount, Hcount'.
  split; [reflexivity |]. split; [reflexivity |].
  split; intros Ht; destruct (Seconds_positive _ Ht) as (m & e & H);
    unfold throughput; rewrite H; reflexivity.
Qed.

Lemma zero_duration_run_witness :
  exists r,
    main zero_config sample_env = {| states := all_states; outcome := Reported r |} /\
    rep_vectorsInserted r = 0 /\ rep_searchesPerformed r = 0.
Proof.
  destruct (zero_duration_run zero_config sample_env) as (r & Hr & Hv & Hs & _).
  - cbn. numbers.
  - reflexivity.
  - intros s. now destruct s.
  - intros i _. split; eexists _, _; (split; [reflexivity | cbn; lia]).
  - intros i it Hit. cbn in Hit.
    destruct Hit as [<- | [<- | [<- | []]]]; cbn; numbers.
  - exists r. split; [exact Hr | split; [exact Hv | exact Hs]].
Defined.



(** ** The search deadline *)

(** A phase that is joined had every goroutine see the deadline. *)
Lemma run_phase_joined_sees (ph : PhaseSpec) (trace : nat -> list Iteration)
    (sched : list nat) (sh : Shared) (i : nat) :
  run_phase ph trace sched = Joined sh ->
  (i < Z.to_nat (phaseWorkers ph))%nat ->
  exists it, In it (trace i) /\ phaseDuration ph <= it_now it.
Proof.
  intros Hrun Hi.
  destruct (sees_deadline ph (trace i)) eqn:Hsee.
  - unfold sees_deadline in Hsee. apply existsb_exists in Hsee.
    destruct Hsee as (it & Hit & Hnow). exists it. split; [exact Hit |].
    apply negb_true_iff, Z.ltb_ge in Hnow. exact Hnow.
  - destruct (run_phase_stuck ph trace sched i Hi Hsee sh Hrun).
Qed.

Lemma completed_search (cfg : Config) (p : PressureProfile) (tr : list Iteration) :
  completed (searchPhase cfg p) tr = searches_before (Z.quot (duration cfg) 4) tr.
Proof.
  induction tr as [| it rest IH]; [reflexivity |].
  rewrite completed_cons, IH. reflexivity.
Qed.

Lemma completed_all_search (cfg : Config) (p : PressureProfile)
    (trace : nat -> list Iteration) :
  completed_all (searchPhase cfg p) trace
    = searches_before_all (Z.quot (duration cfg) 4)
        (Z.to_nat (numConcurrentGoroutines p)) trace.
Proof.
  unfold completed_all, searches_before_all.
  cbn [phaseWorkers searchPhase].
  induction (seq 0 (Z.to_nat (numConcurrentGoroutines p))) as [| i ids IH];
    [reflexivity |].
  cbn [fold_right]. now rewrite IH, completed_search.
Qed.

(** C8. In [main] the search phase runs against [duration / 4], Go's
    integer quotient of the configured duration (the quarter itself when 4
    divides it).  A search worker makes another pass exactly while its
    clock reading is below that quarter; whenever [main] gets past the
    search phase, every search worker has read its clock at or past the
    quarter; and the searches of the report are the successful ones among
    the clock readings before the quarter. *)
Theorem search_deadline_quarter (cfg : Config) (env : Env) :
  let p := pressureSettings (pressure cfg) in
  let quarter := Z.quot (duration cfg) 4 in
  phaseDuration (searchPhase cfg p) = quarter /\
  (forall k, duration cfg = 4 * k -> phaseDuration (searchPhase cfg p) = k) /\
  (forall id sh count it rest,
     worker_step (searchPhase cfg p) id sh (Running count (it :: rest)) =
       if it_now it <? quarter then
         if it_err it then
           Some ({| totalOps := totalOps sh;
                    errlog := errlog sh ++ [SearchFailed id count] |},
                 Running count rest)
         else
           Some ({| totalOps := wrap64 (totalOps sh + 1); errlog := errlog sh |},
                 Running (wrap64 (count + 1)) rest)
       else Some (sh, Finished count)) /\
  (In Cleanup (states (main cfg env)) ->
   forall i, (i < Z.to_nat (numConcurrentGoroutines p))%nat ->
     exists it, In it (search_trace env i) /\ quarter <= it_now it) /\
  (forall r, outcome (main cfg env) = Reported r ->
     rep_searchesPerformed r
       = wrap64 (searches_before_all quarter
                   (Z.to_nat (numConcurrentGoroutines p)) (search_trace env))).
Proof.
  intros p quarter.
  split; [reflexivity | split; [| split; [| split]]].
  - intros k Hk. cbn. unfold searchDuration. rewrite Hk.
    rewrite Z.mul_comm. apply Z.quot_mul. lia.
  - intros. reflexivity.
  - subst p quarter. run_cases cfg env; cbn [In];
      try (intros H; exfalso; intuition discriminate).
    + intros _ i Hi.
      apply (run_phase_joined_sees (searchPhase cfg _) _ _ _ i ltac:(eassumption) Hi).
    + intros _ i Hi.
      apply (run_phase_joined_sees (searchPhase cfg _) _ _ _ i ltac:(eassumption) Hi).
  - subst p quarter. run_cases cfg env; intros r; try discriminate.
    intros [= <-]. cbn [rep_searchesPerformed].
    rewrite <- completed_all_search.
    apply (run_phase_counter (searchPhase cfg _) _ _ _ ltac:(eassumption)).
Qed.

Lemma search_deadline_quarter_witness :
  exists r, outcome (main quarter_config quarter_env) = Reported r /\
            rep_searchesPerformed r = 5.
Proof.
  eexists. split; [vm_compute; reflexivity |].
  exact (proj2 (proj2 (proj2 (proj2
           (search_deadline_quarter quarter_config quarter_env)))) _ eq_refl).
Defined.

(** ** More on the ramp-up scheduler *)

(** *** Negative spans *)





Lemma fle_refl (f : float64) (lo hi : Z) : normal lo hi f -> fle f f.
Proof.
  destruct f as [s | s | | s m e]; try contradiction; [intros _; exact I |].
  intros (-> & _). cbn. right. split; [reflexivity | lia].
Qed.


(** X12. For every 64-bit elapsed time from 0 on, before and after the
    deadline, the worker count returned by [calculateDynamicLoad] lies
    between its start value [max(1, maxWorkers/10)] and [maxWorkers] when
    [1 <= maxWorkers <= 2^53], and the batch size between its start value
    [max(100, maxBatchSize/10)] and [maxBatchSize] when
    [100 <= maxBatchSize <= 2^53]: there the ramp never falls below its
    10% start.  (Below 100 the batch start exceeds the maximum.) *)
Theorem ramp_between_start_and_max (elapsed total maxWorkers maxBatch : Z) :
  0 <= elapsed <= int64_max -> total <= int64_max ->
  (1 <= maxWorkers <= 2 ^ 53 ->
   max 1 (Z.quot maxWorkers 10)
     <= fst (calculateDynamicLoad elapsed total maxWorkers maxBatch)
     <= maxWorkers) /\
  (100 <= maxBatch <= 2 ^ 53 ->
   max 100 (Z.quot maxBatch 10)
     <= snd (calculateDynamicLoad elapsed total maxWorkers maxBatch)
     <= maxBatch).
Proof.
  intros He Ht. rewrite int64_max_val in *.
  rewrite calculateDynamicLoad_eq.
  destruct (Z.geb_spec elapsed total) as [Hge | Hlt]; cbn [fst snd].
  - split.
    + intros HW. pose proof (start_workers_range maxWorkers ltac:(lia)). lia.
    + intros HB. pose proof (start_batch_range maxBatch ltac:(lia)). lia.
  - destruct (progress_normal elapsed total) as [Hn Hle];
      try (change (2 ^ 63) with 9223372036854775808; lia).
    split.
    + intros HW. pose proof (start_workers_range maxWorkers ltac:(lia)) as HsW.
      apply (ramp_bounds _ maxWorkers _ HsW ltac:(lia) Hn Hle).
    + intros HB. pose proof (start_batch_range maxBatch ltac:(lia)) as HsB.
      assert (HsB' : 1 <= max 100 (Z.quot maxBatch 10) <= maxBatch) by lia.
      apply (ramp_bounds _ maxBatch _ HsB' ltac:(lia) Hn Hle).
Qed.

Lemma ramp_between_start_and_max_witness :
  5 <= fst (calculateDynamicLoad (7 * Second) (30 * Second) 50 5000) <= 50 /\
  500 <= snd (calculateDynamicLoad (7 * Second) (30 * Second) 50 5000) <= 5000.
Proof.
  destruct (ramp_between_start_and_max (7 * Second) (30 * Second) 50 5000)
    as [HW HB]; try numbers.
  split; [apply HW | apply HB]; numbers.
Defined.



(** *** How far the ramp is from the straight line *)

(** Rounding moves a quotient by less than one. *)
Lemma rnd_int_near (a b : Z) :
  0 < b -> a - b <= rnd_int a b * b <= a + b.
Proof.
  intros Hb. unfold rnd_int.
  pose proof (Z.div_mod a b ltac:(lia)) as E.
  pose proof (Z.mod_pos_bound a b Hb) as R.
  destruct (2 * (a mod b) ?= b); [destruct (Z.even (a / b)) | |]; nia.
Qed.

(** Below [2^53] the conversion of an integer is exact. *)
Lemma float64_of_int_exact (z : Z) :
  0 < z < 2 ^ 53 ->
  exists m k, float64_of_int z = S754_finite false m (- k) /\
              Zpos m = z * 2 ^ k /\ 0 <= k <= 52 /\ 2 ^ 52 <= Zpos m < 2 ^ 53.
Proof.
  intros Hz.
  assert (Hz63 : 0 < z < 2 ^ 63).
  { change (2 ^ 53) with 9007199254740992 in Hz.
    change (2 ^ 63) with 9223372036854775808. lia. }
  destruct (float64_of_int_closed z Hz63) as (E & Hb & Hmag & Hd).
  set (d := Zdigits2 z) in *.
  assert (Hd53 : d <= 53).
  { destruct (Zdigits2_bounds z ltac:(lia)) as [Hzb _]. fold d in Hzb.
    destruct (Z_le_gt_dec d 53) as [H | H]; [exact H | exfalso].
    assert (2 ^ 53 <= 2 ^ (d - 1)) by (apply Z.pow_le_mono_r; lia). lia. }
  replace (Z.max 0 (d - 53)) with 0 in * by lia.
  replace (Z.max 0 (53 - d)) with (53 - d) in * by lia.
  change (2 ^ 0) with 1 in *.
  replace (z * 2 ^ (53 - d)) with (z * 2 ^ (53 - d) * 1) in E at 1 by lia.
  rewrite rnd_int_exact in E by lia.
  unfold canon in E.
  destruct (Z.eqb_spec (z * 2 ^ (53 - d)) (2 ^ 53)) as [Heq | Hne]; [lia |].
  exists (Z.to_pos (z * 2 ^ (53 - d))), (53 - d).
  pose proof (Z.pow_pos_nonneg 2 52 ltac:(lia) ltac:(lia)).
  rewrite Z2Pos.id by lia.
  replace (- (53 - d)) with (d - 53) by lia.
  split; [exact E | split; [reflexivity | split; lia]].
Qed.

(** The quotient of a smaller by a larger integer is at most one: the
    progress is not clamped before the deadline. *)
Lemma progress_unclamped (elapsed total : Z) :
  0 <= elapsed < total -> total < 2 ^ 63 ->
  progress_of elapsed total
    = fdiv (float64_of_int elapsed) (float64_of_int total).
Proof.
  intros He Ht. unfold progress_of. cbv zeta.
  assert (H63 : 2 ^ 63 = 9223372036854775808) by reflexivity.
  destruct (float64_of_int_finite total ltac:(lia) ltac:(lia)) as (m & e & Hfin).
  replace (total <? 0) with false in Hfin by (symmetry; apply Z.ltb_ge; lia).
  pose proof (float64_of_int_normal total ltac:(lia)) as Hnt.
  pose proof (float64_of_int_normal elapsed ltac:(lia)) as Hne.
  pose proof (fdiv_mono _ _ _ m e Hne Hnt Hfin Hnt
                (float64_of_int_mono elapsed total ltac:(lia) ltac:(lia))) as Hle.
  pose proof (fdiv_normal _ _ m e Hne Hfin Hnt) as Hnp.
  assert (Hone : fdiv (float64_of_int total) (float64_of_int total) = f_one).
  { rewrite Hfin in Hnt |- *. destruct Hnt as (_ & Hm & Hex).
    destruct (fdiv_closed m m e e Hm Hm ltac:(lia) ltac:(lia)) as (-> & _ & _).
    rewrite Z.leb_refl. change (2 ^ 1) with 2.
    replace (Zpos m * 2 ^ 53) with (2 ^ 52 * (Zpos m * 2))
      by (change (2 ^ 53) with (2 ^ 52 * 2); lia).
    rewrite rnd_int_exact by lia.
    replace (e - e - 53 + 1) with (-52) by lia. reflexivity. }
  rewrite Hone in Hle.
  destruct (fdiv (float64_of_int elapsed) (float64_of_int total))
    as [s | s | | s mp ep]; try contradiction.
  - reflexivity.
  - destruct Hnp as (-> & Hmp & Hep). rewrite fgt_one. cbn in Hle.
    change (2 ^ 52) with 4503599627370496 in *.
    destruct (Z.ltb_spec (-52) ep), (Z.eqb_spec ep (-52)),
             (Z.ltb_spec 4503599627370496 (Zpos mp)); cbn; try reflexivity; lia.
Qed.

Lemma interp_near (D e t : Z) :
  0 < D <= 2 ^ 50 -> 0 < e < t -> t < 2 ^ 53 ->
  (D * e) / t - 1
    <= int_of_float64 (fmul (float64_of_int D)
                            (fdiv (float64_of_int e) (float64_of_int t)))
    <= (D * e) / t + 1.
Proof.
  intros HD He Ht.
  assert (H50 : 2 ^ 50 = 1125899906842624) by reflexivity.
  assert (H52 : 2 ^ 52 = 4503599627370496) by reflexivity.
  assert (H53 : 2 ^ 53 = 9007199254740992) by reflexivity.
  assert (H63 : 2 ^ 63 = 9223372036854775808) by reflexivity.
  destruct (progress_normal e t ltac:(lia) ltac:(lia)) as [Hn Hle1].
  rewrite progress_unclamped in Hn, Hle1 by lia.
  destruct (interp_mono D _ _ ltac:(lia) Hn Hn (fle_refl _ _ _ Hn) Hle1)
    as [[HI0 _] HID].
  destruct (float64_of_int_exact D ltac:(lia)) as (MD & a3 & HfD & HMD & Ha3 & HMDr).
  destruct (float64_of_int_exact e ltac:(lia)) as (Me & a1 & Hfe & HMe & Ha1 & HMer).
  destruct (float64_of_int_exact t ltac:(lia)) as (Mt & a2 & Hft & HMt & Ha2 & HMtr).
  rewrite HfD, Hfe, Hft in *.
  destruct (fdiv_closed Me Mt (- a1) (- a2) HMer HMtr ltac:(lia) ltac:(lia))
    as (Hp & HB & Hmag1).
  set (n := if Zpos Mt <=? Zpos Me then 1 else 0) in *.
  assert (Hnr : 0 <= n <= 1) by (subst n; destruct (_ <=? _); lia).
  set (A := Zpos Me * 2 ^ 53) in *. set (B := Zpos Mt * 2 ^ n) in *.
  set (R1 := rnd_int A B) in *. set (E1 := - a1 - - a2 - 53 + n) in *.
  pose proof (rnd_int_near A B HB) as Hnear1. fold R1 in Hnear1.
  pose proof (rnd_int_bounds _ _ (2 ^ 52) (2 ^ 53) HB (proj1 Hmag1)
                (Z.lt_le_incl _ _ (proj2 Hmag1))) as HR1. fold R1 in HR1.
  assert (HA : A = Zpos Me * 2 ^ 53) by reflexivity.
  assert (HBv : B = Zpos Mt * 2 ^ n) by reflexivity.
  assert (HE1 : E1 = a2 - a1 - 53 + n) by (subst E1; lia).
  clearbody R1 E1 A B n.
  destruct (canon_cases false R1 E1 HR1)
    as (Mp & Ep & Hcp & HMp & Hcase1).
  rewrite Hp, Hcp in *. destruct Hn as (_ & _ & HEp).
  destruct (fmul_closed MD Mp (- a3) Ep HMDr HMp ltac:(lia) ltac:(lia))
    as (Hq & Hmag2).
  set (n' := if 2 ^ 105 <=? Zpos MD * Zpos Mp then 53 else 52) in *.
  assert (Hnr' : 52 <= n' <= 53) by (subst n'; destruct (_ <=? _); lia).
  set (R2 := rnd_int (Zpos MD * Zpos Mp) (2 ^ n')) in *.
  set (E2 := - a3 + Ep + n') in *.
  assert (Hpn : 0 < 2 ^ n') by (apply Z.pow_pos_nonneg; lia).
  pose proof (rnd_int_near (Zpos MD * Zpos Mp) (2 ^ n') Hpn) as Hnear2.
  fold R2 in Hnear2.
  pose proof (rnd_int_bounds _ _ (2 ^ 52) (2 ^ 53) Hpn (proj1 Hmag2)
                (Z.lt_le_incl _ _ (proj2 Hmag2))) as HR2. fold R2 in HR2.
  assert (HE2 : E2 = Ep - a3 + n') by (subst E2; lia).
  clearbody R2 E2 n'.
  destruct (canon_cases false R2 E2 HR2)
    as (Mq & Eq & Hcq & HMq & Hcase2).
  rewrite Hq, Hcq in *.
  clear Hp Hcp Hq Hcq HfD Hfe Hft Hle1.
  (* the integer part *)
  assert (HEq : -116 <= Eq) by lia.
  assert (HI : int_of_float64 (S754_finite false Mq Eq)
               = (Zpos Mq * 2 ^ (Eq + 200)) / 2 ^ 200).
  { rewrite <- shiftl_offset by lia. revert HI0.
    cbn [int_of_float64 cond_Zopp].
    destruct (_ && _); [reflexivity |]. unfold int64_min. lia. }
  rewrite HI in *. clear HI0 HI.
  set (S := 2 ^ 200) in *. set (Q := 2 ^ 148).
  assert (HSQ : S = Q * 2 ^ 52) by reflexivity.
  assert (HQ : 0 < Q) by reflexivity.
  (* the progress *)
  set (G1 := 2 ^ (E1 + 200)).
  assert (HK1 : 2 ^ 53 * 2 ^ a1 * G1 = S * 2 ^ a2 * 2 ^ n).
  { subst G1 S. rewrite <- !Z.pow_add_r by lia. f_equal. lia. }
  assert (HG1 : 0 < G1 <= Q).
  { subst G1 Q. split; [apply Z.pow_pos_nonneg; lia |].
    apply Z.pow_le_mono_r; lia. }
  set (Vp := Zpos Mp * 2 ^ (Ep + 200)).
  assert (HVp : Vp = R1 * G1).
  { subst Vp G1. destruct Hcase1 as [[-> ->] | (-> & -> & ->)]; [reflexivity |].
    replace (E1 + 1 + 200) with (Z.succ (E1 + 200)) by lia.
    rewrite Z.pow_succ_r by lia. rewrite H52, H53. lia. }
  assert (HW : 0 < 2 ^ a2 * 2 ^ n).
  { apply Z.mul_pos_pos; apply Z.pow_pos_nonneg; lia. }
  assert (HVpt : e * S - t * G1 <= Vp * t <= e * S + t * G1).
  { set (W := 2 ^ a2 * 2 ^ n) in *.
    assert (HAG : A * G1 = (e * S) * W).
    { rewrite HA, HMe. subst W.
      replace (e * 2 ^ a1 * 2 ^ 53 * G1) with (e * (2 ^ 53 * 2 ^ a1 * G1)) by ring.
      rewrite HK1. ring. }
    assert (HBG : B * G1 = (t * G1) * W).
    { rewrite HBv, HMt. subst W. ring. }
    assert (HRG : R1 * B * G1 = (Vp * t) * W).
    { rewrite HVp, HBv, HMt. subst W. ring. }
    assert (H1 : (A - B) * G1 <= R1 * B * G1)
      by (apply Z.mul_le_mono_nonneg_r; lia).
    assert (H2 : R1 * B * G1 <= (A + B) * G1)
      by (apply Z.mul_le_mono_nonneg_r; lia).
    rewrite Z.mul_sub_distr_r, HAG, HBG, HRG in H1.
    rewrite Z.mul_add_distr_r, HAG, HBG, HRG in H2.
    split; apply (Z.mul_le_mono_pos_r _ _ W HW).
    - now rewrite Z.mul_sub_distr_r.
    - now rewrite Z.mul_add_distr_r. }
  (* the product *)
  set (P := 2 ^ (Ep + 200)) in *.
  set (H := 2 ^ (Ep - a3 + 200)).
  assert (HHP : 2 ^ a3 * H = P).
  { subst H P. rewrite <- Z.pow_add_r by lia. f_equal. lia. }
  assert (HP : 0 < P <= Q).
  { subst P Q. split; [apply Z.pow_pos_nonneg; lia |].
    apply Z.pow_le_mono_r; lia. }
  assert (HH : 0 < H) by (subst H; apply Z.pow_pos_nonneg; lia).
  set (G2 := 2 ^ (E2 + 200)).
  assert (HG2 : G2 = 2 ^ n' * H).
  { subst G2 H. rewrite <- Z.pow_add_r by lia. f_equal. lia. }
  set (Vq := Zpos Mq * 2 ^ (Eq + 200)) in *.
  assert (HVq : Vq = R2 * G2).
  { subst Vq G2. destruct Hcase2 as [[-> ->] | (-> & -> & ->)]; [reflexivity |].
    replace (E2 + 1 + 200) with (Z.succ (E2 + 200)) by lia.
    rewrite Z.pow_succ_r by lia. rewrite H52, H53. lia. }
  assert (HVqD : D * Vp - G2 <= Vq <= D * Vp + G2).
  { assert (HMH : Zpos MD * Zpos Mp * H = D * Vp).
    { rewrite HMD. subst Vp.
      replace (D * 2 ^ a3 * Zpos Mp * H) with (D * (Zpos Mp * (2 ^ a3 * H))) by ring.
      now rewrite HHP. }
    assert (HRH : R2 * 2 ^ n' * H = Vq) by (rewrite HVq, HG2; ring).
    assert (H1 : (Zpos MD * Zpos Mp - 2 ^ n') * H <= R2 * 2 ^ n' * H)
      by (apply Z.mul_le_mono_nonneg_r; lia).
    assert (H2 : R2 * 2 ^ n' * H <= (Zpos MD * Zpos Mp + 2 ^ n') * H)
      by (apply Z.mul_le_mono_nonneg_r; lia).
    rewrite Z.mul_sub_distr_r, HMH, HRH, <- HG2 in H1.
    rewrite Z.mul_add_distr_r, HMH, HRH, <- HG2 in H2. lia. }
  assert (HG2b : 0 < G2 <= 2 * D * Q).
  { assert (Hpos : 0 < G2) by (subst G2; apply Z.pow_pos_nonneg; lia).
    split; [exact Hpos |].
    assert (Hn53 : 2 ^ n' <= 2 ^ 53) by (apply Z.pow_le_mono_r; lia).
    assert (Ha : G2 * 2 ^ a3 <= 2 ^ 53 * Q).
    { replace (G2 * 2 ^ a3) with (2 ^ n' * P) by (rewrite HG2, <- HHP; ring).
      apply Z.mul_le_mono_nonneg; lia. }
    assert (Hb : G2 * 2 ^ 52 <= G2 * (D * 2 ^ a3))
      by (apply Z.mul_le_mono_nonneg_l; lia).
    assert (Hc : D * (G2 * 2 ^ a3) <= D * (2 ^ 53 * Q))
      by (apply Z.mul_le_mono_nonneg_l; lia).
    replace (G2 * (D * 2 ^ a3)) with (D * (G2 * 2 ^ a3)) in Hb by ring.
    apply (Z.mul_le_mono_pos_r _ _ (2 ^ 52)); [lia |].
    replace (2 * D * Q * 2 ^ 52) with (D * (2 ^ 53 * Q)) by (rewrite H52, H53; ring).
    lia. }
  (* both errors together stay below one unit *)
  assert (HS0 : 0 < S) by reflexivity.
  assert (Herr : D * e * S - S * t < Vq * t < D * e * S + S * t).
  { assert (F1 : (D * Vp - G2) * t <= Vq * t)
      by (apply Z.mul_le_mono_nonneg_r; lia).
    assert (F2 : Vq * t <= (D * Vp + G2) * t)
      by (apply Z.mul_le_mono_nonneg_r; lia).
    assert (F3 : D * (e * S - t * G1) <= D * (Vp * t))
      by (apply Z.mul_le_mono_nonneg_l; lia).
    assert (F4 : D * (Vp * t) <= D * (e * S + t * G1))
      by (apply Z.mul_le_mono_nonneg_l; lia).
    assert (F5 : G2 * t <= 2 * D * Q * t)
      by (apply Z.mul_le_mono_nonneg_r; lia).
    assert (F6 : D * t * G1 <= D * t * Q)
      by (apply Z.mul_le_mono_nonneg_l; [apply Z.mul_nonneg_nonneg |]; lia).
    assert (F7 : 3 * D * (Q * t) < 2 ^ 52 * (Q * t)).
    { apply Z.mul_lt_mono_pos_r; [apply Z.mul_pos_pos |]; lia. }
    replace (S * t) with (2 ^ 52 * (Q * t)) by (rewrite HSQ; ring).
    clearbody S Q G1 G2 Vp Vq P H. rewrite H52 in *. lia. }
  clear - Herr HS0 He HD.
  pose proof (Z.mul_div_le Vq S HS0) as G1.
  pose proof (Z.mul_succ_div_gt Vq S HS0) as G2.
  pose proof (Z.mul_div_le (D * e) t ltac:(lia)) as G3.
  pose proof (Z.mul_succ_div_gt (D * e) t ltac:(lia)) as G4.
  set (I := Vq / S) in *. set (X := (D * e) / t) in *.
  assert (K1 : (S * I) * t <= Vq * t) by (apply Z.mul_le_mono_nonneg_r; lia).
  assert (K2 : Vq * t < (S * Z.succ I) * t) by (apply Z.mul_lt_mono_pos_r; lia).
  assert (K3 : (t * X) * S <= (D * e) * S) by (apply Z.mul_le_mono_nonneg_r; lia).
  assert (K4 : (D * e) * S < (t * Z.succ X) * S) by (apply Z.mul_lt_mono_pos_r; lia).
  assert (HTS : 0 < S * t) by (apply Z.mul_pos_pos; lia).
  clearbody S Vq I X.
  split.
  - assert (Hlt : (X - 2) * (S * t) < I * (S * t)) by lia.
    apply Z.mul_lt_mono_pos_r in Hlt; lia.
  - assert (Hlt : I * (S * t) < (X + 2) * (S * t)) by lia.
    apply Z.mul_lt_mono_pos_r in Hlt; lia.
Qed.

Lemma interp_near_progress (D e t : Z) :
  0 <= D <= 2 ^ 50 -> 0 <= e < t -> t < 2 ^ 53 ->
  (D * e) / t - 1
    <= int_of_float64 (fmul (float64_of_int D) (progress_of e t))
    <= (D * e) / t + 1.
Proof.
  intros HD He Ht.
  assert (H50 : 2 ^ 50 = 1125899906842624) by reflexivity.
  assert (H53 : 2 ^ 53 = 9007199254740992) by reflexivity.
  assert (H63 : 2 ^ 63 = 9223372036854775808) by reflexivity.
  destruct (Z.eq_dec e 0) as [-> | He0].
  { rewrite progress_of_zero, int_of_fmul_zero by lia.
    rewrite Z.mul_0_r, Z.div_0_l by lia. lia. }
  destruct (Z.eq_dec D 0) as [-> | HD0].
  { destruct (progress_normal e t ltac:(lia) ltac:(lia)) as [Hn _].
    change (float64_of_int 0) with (S754_zero false).
    rewrite (fmul_zero_l _ _ _ Hn). cbn [int_of_float64].
    rewrite Z.mul_0_l, Z.div_0_l by lia. lia. }
  rewrite progress_unclamped by lia.
  apply interp_near; lia.
Qed.

(** X14. Before the deadline the ramp follows the straight line from the
    start value to the maximum.  For a total duration below [2^53] ns, the
    worker count differs by at most one from
    [start + (maxWorkers - start) * elapsed / total], computed with exact
    integer arithmetic, when [1 <= maxWorkers <= 2^50], and the batch size
    by at most one from the same expression in [maxBatchSize] when
    [100 <= maxBatchSize <= 2^50]; the roundings of the two float
    operations are included. *)
Theorem ramp_near_linear (elapsed total maxWorkers maxBatch : Z) :
  0 <= elapsed < total -> total < 2 ^ 53 ->
  let r := calculateDynamicLoad elapsed total maxWorkers maxBatch in
  let startWorkers := max 1 (Z.quot maxWorkers 10) in
  let startBatchSize := max 100 (Z.quot maxBatch 10) in
  let workers := startWorkers + ((maxWorkers - startWorkers) * elapsed) / total in
  let batch := startBatchSize + ((maxBatch - startBatchSize) * elapsed) / total in
  (1 <= maxWorkers <= 2 ^ 50 -> workers - 1 <= fst r <= workers + 1) /\
  (100 <= maxBatch <= 2 ^ 50 -> batch - 1 <= snd r <= batch + 1).
Proof.
  intros He Ht. cbv zeta.
  assert (H50 : 2 ^ 50 = 1125899906842624) by reflexivity.
  assert (H53 : 2 ^ 53 = 9007199254740992) by reflexivity.
  assert (H63 : 2 ^ 63 = 9223372036854775808) by reflexivity.
  rewrite calculateDynamicLoad_eq.
  destruct (Z.geb_spec elapsed total) as [Hge | _]; [lia |].
  cbn [fst snd].
  destruct (progress_normal elapsed total ltac:(lia) ltac:(lia)) as [Hn Hle].
  split.
  - intros HW. pose proof (start_workers_range maxWorkers ltac:(lia)) as HsW.
    set (sw := max 1 (Z.quot maxWorkers 10)) in *.
    destruct (ramp_eq sw maxWorkers _ HsW ltac:(lia) Hn Hle) as [-> _].
    pose proof (interp_near_progress (maxWorkers - sw) elapsed total
                  ltac:(lia) ltac:(lia) Ht).
    clearbody sw. lia.
  - intros HB. pose proof (start_batch_range maxBatch ltac:(lia)) as HsB.
    set (sb := max 100 (Z.quot maxBatch 10)) in *.
    destruct (ramp_eq sb maxBatch _ ltac:(lia) ltac:(lia) Hn Hle) as [-> _].
    pose proof (interp_near_progress (maxBatch - sb) elapsed total
                  ltac:(lia) ltac:(lia) Ht).
    clearbody sb. lia.
Qed.

Lemma ramp_near_linear_witness :
  15 - 1 <= fst (calculateDynamicLoad (7 * Second) (30 * Second) 50 5000)
    <= 15 + 1 /\
  1550 - 1 <= snd (calculateDynamicLoad (7 * Second) (30 * Second) 50 5000)
    <= 1550 + 1.
Proof.
  destruct (ramp_near_linear (7 * Second) (30 * Second) 50 5000)
    as [HW HB]; try numbers.
  split; [apply HW | apply HB]; numbers.
Defined.

(** ** More on the throughput and the summary *)

(** *** The divisor of the throughput *)






(** X16. The data size of the summary is exact: for [0 < n < 2^48]
    vectors of 8 [float32] components, [totalDataMB] is the normal float
    with significand [m = 32 * n * 2^k] and exponent [- k - 20], that is
    the rational number [32 * n / 2^20] itself, without rounding error. *)
Theorem totalDataMB_exact (n : Z) :
  0 < n < 2 ^ 48 ->
  exists m k, totalDataMB n = S754_finite false m (- k - 20) /\
              Zpos m = n * 32 * 2 ^ k /\ 0 <= k <= 52 /\
              2 ^ 52 <= Zpos m < 2 ^ 53.
Proof.
  intros Hn. change (2 ^ 48) with 281474976710656 in Hn.
  assert (H52 : 2 ^ 52 = 4503599627370496) by reflexivity.
  assert (H53 : 2 ^ 53 = 9007199254740992) by reflexivity.
  assert (H63 : 2 ^ 63 = 9223372036854775808) by reflexivity.
  unfold totalDataMB, embeddingDim.
  rewrite (wrap64_small (n * 8))
    by (unfold in_int64, int64_min, int64_max; lia).
  rewrite (wrap64_small (n * 8 * 4))
    by (unfold in_int64, int64_min, int64_max; lia).
  replace (n * 8 * 4) with (n * 32) by lia.
  destruct (float64_of_int_exact (n * 32) ltac:(lia))
    as (m & k & Hf & Hv & Hk & Hm).
  rewrite Hf.
  change (float64_of_int (1024 * 1024))
    with (S754_finite false 4503599627370496 (-32)).
  destruct (fdiv_closed m 4503599627370496 (- k) (-32) Hm ltac:(lia) ltac:(lia)
              ltac:(lia)) as (-> & _ & _).
  replace (Zpos 4503599627370496 <=? Zpos m) with true
    by (symmetry; apply Z.leb_le; lia).
  change (Zpos 4503599627370496 * 2 ^ 1) with (2 ^ 53).
  rewrite rnd_int_exact by lia.
  unfold canon.
  replace (Zpos m =? 2 ^ 53) with false by (symmetry; apply Z.eqb_neq; lia).
  exists m, k. rewrite Pos2Z.id.
  split; [f_equal; lia | split; [exact Hv | split; [exact Hk | exact Hm]]].
Qed.

Lemma totalDataMB_exact_witness :
  exists m k, totalDataMB 2500 = S754_finite false m (- k - 20) /\
              Zpos m = 2500 * 32 * 2 ^ k /\ 0 <= k <= 52 /\
              2 ^ 52 <= Zpos m < 2 ^ 53.
Proof.
  apply (totalDataMB_exact 2500). vm_compute. split; reflexivity.
Defined.

(** ** More on the fixed-count copies *)

Lemma insertedBatches_le (err : nat -> bool) (numBatches : nat) :
  forall j, (insertedBatches err j numBatches <= numBatches)%nat.
Proof.
  induction numBatches as [| n IH]; intros j; cbn [insertedBatches]; [lia |].
  destruct (err j); [lia |]. specialize (IH (S j)). lia.
Qed.

Lemma insertedBatches_lt (err : nat -> bool) (numBatches : nat) :
  forall j k, (j <= k < j + numBatches)%nat -> err k = true ->
  (insertedBatches err j numBatches < numBatches)%nat.
Proof.
  induction numBatches as [| n IH]; intros j k Hk Herr; [lia |].
  cbn [insertedBatches]. destruct (err j) eqn:Hj; [lia |].
  assert (Hne : k <> j) by congruence.
  specialize (IH (S j) k ltac:(lia) Herr). lia.
Qed.

Section FixedCountSum.

Context (M : nat) (S : Z) (err : nat -> nat -> bool).
Hypothesis HS : 0 <= S.

Lemma sentBy_cons (i : nat) (ids : list nat) :
  FixedCount.sentBy M S err (i :: ids)
    = Z.of_nat (insertedBatches (err i) 0 M) * S + FixedCount.sentBy M S err ids.
Proof. reflexivity. Qed.

Lemma sentBy_le (ids : list nat) :
  FixedCount.sentBy M S err ids <= Z.of_nat (length ids) * Z.of_nat M * S.
Proof.
  induction ids as [| i ids IH]; [cbn; lia |].
  rewrite sentBy_cons. cbn [length].
  pose proof (insertedBatches_le (err i) M 0%nat). nia.
Qed.

Lemma sentBy_lt (ids : list nat) (i j : nat) :
  0 < S -> In i ids -> (j < M)%nat -> err i j = true ->
  FixedCount.sentBy M S err ids < Z.of_nat (length ids) * Z.of_nat M * S.
Proof.
  intros HS0 Hi Hj Herr.
  induction ids as [| x ids IH]; [destruct Hi |].
  rewrite sentBy_cons. cbn [length].
  pose proof (insertedBatches_le (err x) M 0%nat) as Hx.
  pose proof (sentBy_le ids) as Hrest.
  destruct Hi as [-> | Hi].
  - pose proof (insertedBatches_lt (err i) M 0%nat j ltac:(lia) Herr). nia.
  - specialize (IH Hi). nia.
Qed.

Lemma sentBy_all (ids : list nat) :
  (forall i j, In i ids -> (j < M)%nat -> err i j = false) ->
  FixedCount.sentBy M S err ids = Z.of_nat (length ids) * Z.of_nat M * S.
Proof.
  intros Hok. induction ids as [| x ids IH]; [cbn; lia |].
  rewrite sentBy_cons. cbn [length].
  rewrite IH by (intros i j Hi; apply Hok; now right).
  rewrite insertedBatches_all; [lia |].
  intros k Hk. apply Hok; [now left | lia].
Qed.

End FixedCountSum.

Lemma fixed_count_settings_cases (f : FixedCount.Flags) :
  let s := FixedCount.settings f in
  (FixedCount.numConcurrentGoroutines s = 20 /\ FixedCount.batchSize s = 2000 /\
   FixedCount.numBatchesPerGoroutine s = 20) \/
  (FixedCount.numConcurrentGoroutines s = 50 /\ FixedCount.batchSize s = 5000 /\
   FixedCount.numBatchesPerGoroutine s = 20) \/
  (FixedCount.numConcurrentGoroutines s = 100 /\ FixedCount.batchSize s = 10000 /\
   FixedCount.numBatchesPerGoroutine s = 20) \/
  (FixedCount.numConcurrentGoroutines s = 10 /\ FixedCount.batchSize s = 1000 /\
   FixedCount.numBatchesPerGoroutine s = 10).
Proof.
  unfold FixedCount.settings.
  destruct (FixedCount.testMedium f); [cbn; tauto |].
  destruct (FixedCount.testHigh f); [cbn; tauto |].
  destruct (FixedCount.testVeryHigh f); cbn; tauto.
Qed.

(** X17. In the fixed-count copies the total that is printed and used for
    the throughput is the planned product of workers, batches and batch
    size, whatever happens: the vectors actually sent never exceed it,
    equal it when every insert succeeds, and fall short of it as soon as
    one insert fails, because the goroutine returns there. *)
Theorem fixed_count_total_is_planned (f : FixedCount.Flags)
    (err : nat -> nat -> bool) :
  let s := FixedCount.settings f in
  let N := FixedCount.numConcurrentGoroutines s in
  let M := FixedCount.numBatchesPerGoroutine s in
  FixedCount.plannedInserts s = N * M * FixedCount.batchSize s /\
  FixedCount.insertedVectors s err <= FixedCount.plannedInserts s /\
  ((forall i j, (i < Z.to_nat N)%nat -> (j < Z.to_nat M)%nat -> err i j = false) ->
   FixedCount.insertedVectors s err = FixedCount.plannedInserts s) /\
  (forall i j, (i < Z.to_nat N)%nat -> (j < Z.to_nat M)%nat -> err i j = true ->
   FixedCount.insertedVectors s err < FixedCount.plannedInserts s).
Proof.
  intros s N M.
  assert (Hplan : FixedCount.plannedInserts s = N * M * FixedCount.batchSize s).
  { unfold FixedCount.plannedInserts. fold N M.
    destruct (fixed_count_settings_cases f) as [H | [H | [H | H]]];
      fold s N M in H; destruct H as (-> & -> & ->); reflexivity. }
  assert (Hpos : 0 < FixedCount.batchSize s /\ 0 <= N /\ 0 <= M).
  { destruct (fixed_count_settings_cases f) as [H | [H | [H | H]]];
      fold s N M in H; destruct H as (-> & -> & ->); lia. }
  rewrite Hplan. unfold FixedCount.insertedVectors. fold N M.
  set (ids := seq 0 (Z.to_nat N)).
  assert (Hlen : Z.of_nat (length ids) * Z.of_nat (Z.to_nat M) = N * M).
  { subst ids. rewrite length_seq, !Z2Nat.id by lia. reflexivity. }
  rewrite <- Hlen. destruct Hpos as (HS & _ & _).
  pose proof (Z.lt_le_incl _ _ HS) as HS0.
  split; [reflexivity |]. split; [now apply sentBy_le |]. split.
  - intros Hok. apply sentBy_all. intros i j Hi Hj. apply Hok; [| exact Hj].
    apply in_seq in Hi. apply Hi.
  - intros i j Hi Hj Herr. apply (sentBy_lt _ _ _ HS0 ids i j);
      [exact HS | apply in_seq; split; [apply Nat.le_0_l | exact Hi]
       | exact Hj | exact Herr].
Qed.

(** X18. The traffic flags of the fixed-count copies are not exclusive:
    [--test-medium] wins over [--test-high], which wins over
    [--test-very-high]; [--test] changes the label only.  Every selection
    has a batch size of 100 times the worker count and plans between
    100000 and 20000000 vectors. *)
Theorem fixed_count_flag_precedence (f : FixedCount.Flags) :
  let s := FixedCount.settings f in
  (FixedCount.testMedium f = true ->
   FixedCount.trafficLevel s = "MEDIUM"%string) /\
  (FixedCount.testMedium f = false -> FixedCount.testHigh f = true ->
   FixedCount.trafficLevel s = "HIGH"%string) /\
  (FixedCount.testMedium f = false -> FixedCount.testHigh f = false ->
   FixedCount.testVeryHigh f = true ->
   FixedCount.trafficLevel s = "VERY HIGH"%string) /\
  (forall b,
     let s' := FixedCount.settings
                 {| FixedCount.testNormal := b;
                    FixedCount.testMedium := FixedCount.testMedium f;
                    FixedCount.testHigh := FixedCount.testHigh f;
                    FixedCount.testVeryHigh := FixedCount.testVeryHigh f |} in
     FixedCount.numConcurrentGoroutines s' = FixedCount.numConcurrentGoroutines s /\
     FixedCount.batchSize s' = FixedCount.batchSize s /\
     FixedCount.numBatchesPerGoroutine s' = FixedCount.numBatchesPerGoroutine s) /\
  FixedCount.batchSize s = 100 * FixedCount.numConcurrentGoroutines s /\
  100000 <= FixedCount.plannedInserts s <= 20000000.
Proof.
  destruct f as [n m h v]. unfold FixedCount.settings. cbn [FixedCount.testMedium
    FixedCount.testHigh FixedCount.testVeryHigh FixedCount.testNormal].
  destruct m, h, v; cbn; repeat split; try discriminate; try reflexivity.
Qed.

Lemma fixed_count_total_is_planned_witness :
  FixedCount.insertedVectors (FixedCount.settings sample_flags) sample_insert_errors
    < FixedCount.plannedInserts (FixedCount.settings sample_flags).
Proof.
  apply (proj2 (proj2 (proj2 (fixed_count_total_is_planned sample_flags
                                sample_insert_errors))) 3%nat 4%nat).
  - vm_compute. lia.
  - vm_compute. lia.
  - reflexivity.
Defined.

Lemma fixed_count_flag_precedence_witness :
  FixedCount.trafficLevel (FixedCount.settings sample_flags) = "HIGH"%string.
Proof.
  apply (proj1 (proj2 (fixed_count_flag_precedence sample_flags))); reflexivity.
Defined.

(** C1 does not hold of the fixed-count copies: their total is computed
    before the first insert, so it still counts the batch that failed and
    the batches never sent (5000000 printed, 4920000 sent when goroutine 3
    fails at its fifth insert). *)
Lemma fixed_count_total_counts_failed_inserts :
  ~ (forall (f : FixedCount.Flags) (err : nat -> nat -> bool),
       FixedCount.plannedInserts (FixedCount.settings f)
         = FixedCount.insertedVectors (FixedCount.settings f) err).
Proof.
  intros H. specialize (H sample_flags sample_insert_errors).
  vm_compute in H. discriminate.
Qed.

(** C2 does not hold of the fixed-count copies: there a goroutine returns
    at its first failed insert instead of going on with the next batch (of
    three batches only the first call is made when it fails). *)
Lemma fixed_count_failure_ends_worker :
  ~ (forall (err : nat -> bool) (numBatches : nat),
       attemptedBatches err 0 numBatches = numBatches).
Proof.
  intros H. specialize (H (fun j => Nat.eqb j 0) 3%nat). discriminate.
Qed.

(** ** The totals and the batch sizes of a run *)

Lemma successes_nonneg (ph : PhaseSpec) (tr : list Iteration) :
  0 <= successes ph tr.
Proof. unfold successes. lia. Qed.

Lemma passes_incl (ph : PhaseSpec) (tr : list Iteration) (it : Iteration) :
  In it (passes ph tr) -> In it tr.
Proof.
  induction tr as [| x tr IH]; cbn [passes]; [tauto |].
  destruct (it_now x <? phaseDuration ph); [| intros []].
  intros [<- | H]; [now left | right; now apply IH].
Qed.

(** A goroutine adds between [lo] and [hi] per successful pass when every
    size it computes lies between them. *)
Lemma completed_between (ph : PhaseSpec) (lo hi : Z) (tr : list Iteration) :
  (forall it, In it tr -> lo <= unitSize ph it <= hi) ->
  lo * successes ph tr <= completed ph tr <= hi * successes ph tr.
Proof.
  intros Hall.
  assert (Hp : forall it, In it (passes ph tr) -> lo <= unitSize ph it <= hi)
    by (intros it Hit; apply Hall, (passes_incl ph tr it Hit)).
  clear Hall. unfold completed, successes.
  induction (passes ph tr) as [| it l IH]; [cbn; lia |].
  cbn [fold_right List.filter].
  specialize (IH (fun x Hx => Hp x (or_intror Hx))).
  pose proof (Hp it (or_introl eq_refl)) as Hit.
  destruct (it_err it); cbn [negb length]; lia.
Qed.

Lemma completed_all_between (ph : PhaseSpec) (lo hi : Z)
    (trace : nat -> list Iteration) :
  (forall i it, (i < Z.to_nat (phaseWorkers ph))%nat -> In it (trace i) ->
     lo <= unitSize ph it <= hi) ->
  lo * successes_all ph trace <= completed_all ph trace
    <= hi * successes_all ph trace.
Proof.
  intros Hall. unfold completed_all, successes_all.
  assert (Hin : forall i, In i (seq 0 (Z.to_nat (phaseWorkers ph))) ->
            forall it, In it (trace i) -> lo <= unitSize ph it <= hi).
  { intros i Hi it Hit. apply in_seq in Hi. apply (Hall i it); [lia | exact Hit]. }
  clear Hall.
  induction (seq 0 (Z.to_nat (phaseWorkers ph))) as [| i ids IH]; [cbn; lia |].
  cbn [fold_right].
  specialize (IH (fun j Hj => Hin j (or_intror Hj))).
  pose proof (completed_between ph lo hi (trace i) (Hin i (or_introl eq_refl))).
  lia.
Qed.

Lemma successes_all_nonneg (ph : PhaseSpec) (trace : nat -> list Iteration) :
  0 <= successes_all ph trace.
Proof.
  unfold successes_all.
  induction (seq 0 (Z.to_nat (phaseWorkers ph))) as [| i ids IH]; [cbn; lia |].
  cbn [fold_right]. pose proof (successes_nonneg ph (trace i)). lia.
Qed.

Lemma ramp_batch_from_start (elapsed total maxWorkers maxBatch : Z) :
  0 <= elapsed <= int64_max -> in_int64 total ->
  100 <= maxBatch <= 2 ^ 53 ->
  max 100 (Z.quot maxBatch 10)
    <= snd (calculateDynamicLoad elapsed total maxWorkers maxBatch) <= maxBatch.
Proof.
  intros He [_ Ht] HB. rewrite int64_max_val in *.
  pose proof (start_batch_range maxBatch ltac:(lia)) as HsB.
  rewrite calculateDynamicLoad_eq.
  destruct (Z.geb_spec elapsed total) as [Hge | Hlt]; cbn [snd]; [lia |].
  destruct (progress_normal elapsed total) as [Hn Hle];
    try (change (2 ^ 63) with 9223372036854775808; lia).
  assert (HsB' : 1 <= max 100 (Z.quot maxBatch 10) <= maxBatch) by lia.
  apply (ramp_bounds _ maxBatch _ HsB' ltac:(lia) Hn Hle).
Qed.

(** X19. The totals of a report against the workers' own counts: the
    searches performed are the sum of the workers' successful searches;
    without ramp-up the vectors inserted are the batch size times the
    number of successful batches, and with ramp-up they lie between that
    number times the start batch size and times the full batch size. *)
Theorem report_totals (cfg : Config) (env : Env) (r : TestReport) :
  let p := pressureSettings (pressure cfg) in
  let inserted := successes_all (insertPhase cfg p) (insert_trace env) in
  let searched := successes_all (searchPhase cfg p) (search_trace env) in
  outcome (main cfg env) = Reported r ->
  in_int64 (duration cfg) ->
  (forall i it, In it (insert_trace env i) -> 0 <= it_since it <= int64_max) ->
  batchSize p * inserted <= int64_max ->
  searched <= int64_max ->
  rep_searchesPerformed r = searched /\
  (rampUp cfg = false -> rep_vectorsInserted r = batchSize p * inserted) /\
  (rampUp cfg = true ->
   max 100 (Z.quot (batchSize p) 10) * inserted
     <= rep_vectorsInserted r <= batchSize p * inserted).
Proof.
  intros p inserted searched Hout Hdur Hclock Hfit Hfit'.
  assert (Hr : exists ins srch,
            run_phase (insertPhase cfg p) (insert_trace env) (insert_schedule env)
              = Joined ins /\
            run_phase (searchPhase cfg p) (search_trace env) (search_schedule env)
              = Joined srch /\
            rep_vectorsInserted r = totalOps ins /\
            rep_searchesPerformed r = totalOps srch).
  { revert Hout. subst p. run_cases cfg env; try discriminate.
    intros [= <-]. eexists _, _. repeat split. }
  destruct Hr as (ins & srch & Hins & Hsrch & -> & ->).
  rewrite (run_phase_counter _ _ _ _ Hins), (run_phase_counter _ _ _ _ Hsrch).
  destruct (pressureSettings_range (pressure cfg)) as [HB _]. fold p in HB.
  pose proof (successes_all_nonneg (insertPhase cfg p) (insert_trace env)) as Hk.
  fold inserted in Hk.
  pose proof (successes_all_nonneg (searchPhase cfg p) (search_trace env)) as Hk'.
  fold searched in Hk'.
  assert (H63 : 2 ^ 63 = 9223372036854775808) by reflexivity.
  assert (Hsize : forall i it, In it (insert_trace env i) -> rampUp cfg = true ->
            max 100 (Z.quot (batchSize p) 10)
              <= unitSize (insertPhase cfg p) it <= batchSize p).
  { intros i it Hit Hramp. unfold unitSize.
    cbn [operationKind insertPhase phaseRampUp phaseDuration phaseWorkers
         phaseBatchSize]. rewrite Hramp.
    apply ramp_batch_from_start; [apply (Hclock i it Hit) | exact Hdur | exact HB]. }
  pose proof (start_batch_range (batchSize p) ltac:(lia)) as Hs.
  split; [| split].
  - pose proof (completed_all_between (searchPhase cfg p) 1 1 (search_trace env)
                  ltac:(intros; cbn; lia)) as H.
    fold searched in H.
    replace (completed_all (searchPhase cfg p) (search_trace env)) with searched
      by lia.
    apply wrap64_small. unfold in_int64, int64_min. lia.
  - intros Hramp.
    pose proof (completed_all_between (insertPhase cfg p) (batchSize p) (batchSize p)
                  (insert_trace env)
                  ltac:(intros; unfold unitSize; cbn; rewrite Hramp; lia)) as H.
    fold inserted in H.
    replace (completed_all (insertPhase cfg p) (insert_trace env))
      with (batchSize p * inserted) by lia.
    apply wrap64_small. unfold in_int64, int64_min. nia.
  - intros Hramp.
    pose proof (completed_all_between (insertPhase cfg p)
                  (max 100 (Z.quot (batchSize p) 10)) (batchSize p)
                  (insert_trace env)
                  (fun i it _ Hit => Hsize i it Hit Hramp)) as H.
    fold inserted in H.
    rewrite wrap64_small; [exact H |].
    unfold in_int64, int64_min. nia.
Qed.

Lemma report_totals_witness :
  exists r, outcome (main sample_config sample_env) = Reported r /\
            rep_searchesPerformed r = 5 /\ rep_vectorsInserted r = 500 * 5.
Proof.
  eexists. split; [vm_compute; reflexivity |].
  destruct (report_totals sample_config sample_env _ eq_refl) as (Hs & Hi & _).
  - unfold in_int64. cbn. numbers.
  - intros i it Hit. cbn in Hit.
    destruct Hit as [<- | [<- | [<- | []]]]; cbn; numbers.
  - vm_compute. discriminate.
  - vm_compute. discriminate.
  - split; [exact Hs | exact (Hi eq_refl)].
Defined.

Lemma ramp_batch_mono (e1 e2 total maxWorkers maxBatch : Z) :
  0 <= e1 <= e2 -> e2 <= int64_max -> in_int64 total ->
  100 <= maxBatch <= 2 ^ 53 ->
  snd (calculateDynamicLoad e1 total maxWorkers maxBatch)
    <= snd (calculateDynamicLoad e2 total maxWorkers maxBatch).
Proof.
  intros He He2 [_ Ht] HB. rewrite int64_max_val in *.
  assert (H63 : 2 ^ 63 = 9223372036854775808) by reflexivity.
  rewrite !calculateDynamicLoad_eq.
  pose proof (start_batch_range maxBatch ltac:(lia)) as HsB.
  assert (HsB' : 1 <= max 100 (Z.quot maxBatch 10) <= maxBatch) by lia.
  destruct (Z.geb_spec e1 total) as [Hge1 | Hlt1];
    destruct (Z.geb_spec e2 total) as [Hge2 | Hlt2]; cbn [snd]; try lia.
  - destruct (progress_normal e1 total ltac:(lia) ltac:(lia)) as [Hn Hle].
    pose proof (ramp_bounds _ maxBatch _ HsB' ltac:(lia) Hn Hle). lia.
  - destruct (progress_normal e1 total ltac:(lia) ltac:(lia)) as [Hn1 Hle1].
    destruct (progress_normal e2 total ltac:(lia) ltac:(lia)) as [Hn2 Hle2].
    pose proof (progress_mono e1 e2 total ltac:(lia) ltac:(lia) ltac:(lia)) as Hp.
    apply ramp_mono; assumption || lia.
Qed.

(** X20. With or without ramp-up, the batch sizes a worker computes never
    shrink from one pass to the next as long as its clock readings do not
    run backwards, for every pressure level. *)
Theorem ramp_up_batches_never_shrink (cfg : Config) (tr : list Iteration) :
  let ph := insertPhase cfg (pressureSettings (pressure cfg)) in
  in_int64 (duration cfg) ->
  (forall it, In it tr -> 0 <= it_since it <= int64_max) ->
  StronglySorted clock_order tr ->
  StronglySorted Z.le (map (unitSize ph) tr) /\
  StronglySorted Z.le (map (unitSize ph) (passes ph tr)).
Proof.
  intros ph Hdur Hclock Hsorted.
  destruct (pressureSettings_range (pressure cfg)) as [HB _].
  assert (Hmono : forall a b, In a tr -> In b tr -> clock_order a b ->
            unitSize ph a <= unitSize ph b).
  { intros a b Ha Hb Hab. unfold unitSize, ph.
    cbn [operationKind insertPhase phaseRampUp phaseDuration phaseWorkers
         phaseBatchSize].
    destruct (rampUp cfg); [| lia].
    apply ramp_batch_mono; [| apply (Hclock b Hb) | exact Hdur | exact HB].
    split; [apply (Hclock a Ha) | exact Hab]. }
  assert (Hgen : forall l, (forall it, In it l -> In it tr) ->
            StronglySorted clock_order l ->
            StronglySorted Z.le (map (unitSize ph) l)).
  { intros l Hl Hs. induction Hs as [| a l Hs IH Hall]; cbn [map]; constructor.
    - apply IH. intros it Hit. apply Hl. now right.
    - apply Forall_forall. intros x Hx. apply list_elem_of_In, in_map_iff in Hx.
      destruct Hx as (b & <- & Hb).
      apply Hmono; [apply Hl; now left | apply Hl; now right |].
      rewrite Forall_forall in Hall. apply Hall. now apply list_elem_of_In. }
  split; [apply Hgen; [tauto | exact Hsorted] |].
  apply Hgen; [intros it; apply passes_incl |].
  clear - Hsorted. induction Hsorted as [| a l Hs IH Hall]; cbn [passes];
    [constructor |].
  destruct (it_now a <? phaseDuration ph); constructor; [exact IH |].
  rewrite Forall_forall in Hall |- *. intros x Hx.
  apply Hall. apply list_elem_of_In. apply list_elem_of_In in Hx.
  exact (passes_incl ph l x Hx).
Qed.

Lemma ramp_up_batches_never_shrink_witness :
  StronglySorted Z.le
    (map (unitSize (insertPhase ramp_config (pressureSettings "high")))
         (sample_trace 0%nat)).
Proof.
  refine (proj1 (ramp_up_batches_never_shrink ramp_config (sample_trace 0%nat)
                   _ _ _)).
  - unfold in_int64. cbn. numbers.
  - intros it Hit. cbn in Hit.
    destruct Hit as [<- | [<- | [<- | []]]]; cbn; numbers.
  - repeat constructor; unfold clock_order; cbn; lia.
Defined.
